(** * The regularity-test driver and the wheel-minor search of CMR

    A shallow embedding of [src/cmr/regularity.c] (task queue, stage
    dispatcher and the two driver entry points) and of
    [src/find_wheel_minor.hpp] (search for a W3 minor or a separation),
    followed by the properties of both that the specification states.

    C objects live in a typed store: one finite map per struct type,
    indexed by addresses.  A pointer that may be NULL is an [option ptr]. *)

From Stdlib Require Import ZArith QArith Lia.
From Stdlib.Floats Require SpecFloat.
From stdpp Require Import gmap list sorting.

(* ===================================================================== *)
(** ** Part I: [regularity.c] *)
(* ===================================================================== *)

Abbreviation ptr := positive.

(** Modelled from the spec: the error taxonomy of section 6 ([env.h], which
    declares [CMR_ERROR], is not among the sources).  [CMR_OKAY] is the only
    value the driver distinguishes. *)
Inductive CMR_ERROR : Type :=
| CMR_OKAY
| CMR_ERROR_MEMORY
| CMR_ERROR_TIMEOUT
| CMR_ERROR_INPUT
| CMR_ERROR_OVERFLOW.

Global Instance CMR_ERROR_eq_dec : EqDecision CMR_ERROR.
Proof. solve_decision. Defined.

(** Modelled from the spec: the sparse characteristic matrix of section 6,
    [(num_rows, num_cols, entries[]: {row, col, value})].  The driver itself
    reads the two dimensions only. *)
Record CMR_CHRMAT : Type := ChrMat {
  numRows : Z;
  numColumns : Z;
  entries : list (Z * Z * Z)
}.

(** Modelled from the spec: the [type] tag of a decomposition node (section 3);
    the driver writes [CMR_MATROID_DEC_TYPE_UNKNOWN] only. *)
Inductive CMR_MATROID_DEC_TYPE : Type :=
| CMR_MATROID_DEC_TYPE_UNKNOWN
| CMR_MATROID_DEC_TYPE_ONE_SUM
| CMR_MATROID_DEC_TYPE_TWO_SUM
| CMR_MATROID_DEC_TYPE_THREE_SUM
| CMR_MATROID_DEC_TYPE_SERIES_PARALLEL
| CMR_MATROID_DEC_TYPE_GRAPH
| CMR_MATROID_DEC_TYPE_COGRAPH
| CMR_MATROID_DEC_TYPE_R10
| CMR_MATROID_DEC_TYPE_PLANAR
| CMR_MATROID_DEC_TYPE_IRREGULAR.

(** [SIZE_MAX] of a 64-bit [size_t]: the "never tested" sentinel. *)
Definition SIZE_MAX : Z := 2 ^ 64 - 1.

(** The fields of [CMR_MATROID_DEC] that [regularity.c] reads or writes.
    [regularity], [graphicness] and [cographicness] are signed bytes:
    [0] unset, positive for yes, negative for no. *)
Record CMR_MATROID_DEC : Type := MatroidDec {
  type : CMR_MATROID_DEC_TYPE;
  isTernary : bool;
  regularity : Z;
  graphicness : Z;
  cographicness : Z;
  matrix : option CMR_CHRMAT;
  parent : option ptr;
  numChildren : nat;
  children : list (option ptr);
  testedTwoConnected : bool;
  testedR10 : bool;
  testedSeriesParallel : bool;
  denseMatrix : option ptr;
  nestedMinorsMatrix : option ptr;
  nestedMinorsLastGraphic : Z;
  nestedMinorsLastCographic : Z
}.

(** The two options of [CMR_REGULAR_PARAMS] the driver reads.  The driver
    only ever reads through its [params] pointer, so the record is passed
    by value. *)
Record CMR_REGULAR_PARAMS : Type := RegularParams {
  directGraphicness : bool;
  completeTree : bool
}.

(** A [double]: an IEEE 754 binary64 number, with the arithmetic of
    [SpecFloat] (round to nearest, ties to even). *)
Abbreviation double := SpecFloat.spec_float.

Definition double_of_Z (z : Z) : double := SpecFloat.binary_normalize 53 1024 z 0 false.
Definition double_add (x y : double) : double := SpecFloat.SFadd 53 1024 x y.
Definition double_div (x y : double) : double := SpecFloat.SFdiv 53 1024 x y.

(** [CLOCKS_PER_SEC] of [<time.h>], as POSIX fixes it. *)
Definition CLOCKS_PER_SEC : Z := 1000000.

Record CMR_REGULAR_STATS : Type := RegularStats {
  totalCount : Z;
  totalTime : double
}.

Record DecompositionTask : Type := Task {
  dec : ptr;
  next : option ptr;
  params : CMR_REGULAR_PARAMS;
  stats : option ptr;
  startClock : Z;
  timeLimit : Q
}.

Record DecompositionQueue : Type := Queue {
  head : option ptr;
  foundIrregularity : bool
}.

(** The store.  [other] stands for the memory the driver never looks into
    (matrix entries, graphs, certificates, the allocator and the clock). *)
Record heap : Type := Heap {
  decs : gmap positive CMR_MATROID_DEC;
  tasks : gmap positive DecompositionTask;
  queues : gmap positive DecompositionQueue;
  statss : gmap positive CMR_REGULAR_STATS;
  other : gmap positive Z
}.

(** How a call ends: it returns, an [assert] aborts the process, it
    dereferences a NULL or dangling pointer, or the embedding's loop budget
    is used up. *)
Inductive outcome (A : Type) : Type :=
| Done (a : A) (h : heap)
| AssertFailed
| Undefined
| OutOfFuel.

Arguments Done {A} a h.
Arguments AssertFailed {A}.
Arguments Undefined {A}.
Arguments OutOfFuel {A}.

Definition M (A : Type) : Type := heap -> outcome A.

Definition ret {A : Type} (a : A) : M A := fun h => Done a h.

Definition bind {A B : Type} (m : M A) (k : A -> M B) : M B :=
  fun h =>
    match m h with
    | Done a h' => k a h'
    | AssertFailed => AssertFailed
    | Undefined => Undefined
    | OutOfFuel => OutOfFuel
    end.

Declare Scope cmr_scope.
Delimit Scope cmr_scope with cmr.
Notation "'do' x <- m ; k" := (bind m (fun x => k))
  (at level 10, x name, m at level 100, k at level 200) : cmr_scope.
Notation "'do' ' p <- m ; k" := (bind m (fun v => let 'p := v in k))
  (at level 10, p pattern, m at level 100, k at level 200) : cmr_scope.
Notation "m ;; k" := (bind m (fun _ => k))
  (at level 100, k at level 200, right associativity) : cmr_scope.
Open Scope cmr_scope.

(** [assert(b)]. *)
Definition assert (b : bool) : M unit :=
  fun h => if b then Done tt h else AssertFailed.

(** [CMR_CALL(call)]: leave the enclosing function with the error of [call]
    unless it is [CMR_OKAY].  [onerr] builds what the enclosing function
    returns in that case. *)
Definition CMR_CALL {R : Type} (call : M CMR_ERROR) (onerr : CMR_ERROR -> R)
    (k : M R) : M R :=
  do e <- call;
  match e with
  | CMR_OKAY => k
  | _ => ret (onerr e)
  end.

(** *** Loads and stores *)

Definition load_task (t : ptr) : M DecompositionTask :=
  fun h => match tasks h !! t with Some tk => Done tk h | None => Undefined end.

Definition load_queue (q : ptr) : M DecompositionQueue :=
  fun h => match queues h !! q with Some qu => Done qu h | None => Undefined end.

Definition load_dec (d : ptr) : M CMR_MATROID_DEC :=
  fun h => match decs h !! d with Some nd => Done nd h | None => Undefined end.

Definition load_stats (s : ptr) : M CMR_REGULAR_STATS :=
  fun h => match statss h !! s with Some st => Done st h | None => Undefined end.

Definition put_task (t : ptr) (T : DecompositionTask) (h : heap) : heap :=
  Heap (decs h) (<[t := T]> (tasks h)) (queues h) (statss h) (other h).

Definition put_queue (q : ptr) (qu : DecompositionQueue) (h : heap) : heap :=
  Heap (decs h) (tasks h) (<[q := qu]> (queues h)) (statss h) (other h).

Definition put_dec (d : ptr) (D : CMR_MATROID_DEC) (h : heap) : heap :=
  Heap (<[d := D]> (decs h)) (tasks h) (queues h) (statss h) (other h).

Definition put_stats (s : ptr) (st : CMR_REGULAR_STATS) (h : heap) : heap :=
  Heap (decs h) (tasks h) (queues h) (<[s := st]> (statss h)) (other h).

(** A store through a pointer needs the object to be there. *)
Definition store_task (t : ptr) (T : DecompositionTask) : M unit :=
  fun h => match tasks h !! t with Some _ => Done tt (put_task t T h) | None => Undefined end.

Definition store_queue (q : ptr) (qu : DecompositionQueue) : M unit :=
  fun h => match queues h !! q with Some _ => Done tt (put_queue q qu h) | None => Undefined end.

Definition store_dec (d : ptr) (D : CMR_MATROID_DEC) : M unit :=
  fun h => match decs h !! d with Some _ => Done tt (put_dec d D h) | None => Undefined end.

Definition store_stats (s : ptr) (st : CMR_REGULAR_STATS) : M unit :=
  fun h => match statss h !! s with Some _ => Done tt (put_stats s st h) | None => Undefined end.

(** Field updates. *)
Definition set_next (n : option ptr) (T : DecompositionTask) : DecompositionTask :=
  Task (dec T) n (params T) (stats T) (startClock T) (timeLimit T).

Definition set_head (t : option ptr) (qu : DecompositionQueue) : DecompositionQueue :=
  Queue t (foundIrregularity qu).

Definition set_type (ty : CMR_MATROID_DEC_TYPE) (D : CMR_MATROID_DEC) : CMR_MATROID_DEC :=
  MatroidDec ty (isTernary D) (regularity D) (graphicness D) (cographicness D)
    (matrix D) (parent D) (numChildren D) (children D) (testedTwoConnected D)
    (testedR10 D) (testedSeriesParallel D) (denseMatrix D) (nestedMinorsMatrix D)
    (nestedMinorsLastGraphic D) (nestedMinorsLastCographic D).

Definition set_children (cs : list (option ptr)) (D : CMR_MATROID_DEC) : CMR_MATROID_DEC :=
  MatroidDec (type D) (isTernary D) (regularity D) (graphicness D) (cographicness D)
    (matrix D) (parent D) (numChildren D) cs (testedTwoConnected D)
    (testedR10 D) (testedSeriesParallel D) (denseMatrix D) (nestedMinorsMatrix D)
    (nestedMinorsLastGraphic D) (nestedMinorsLastCographic D).

(** *** The functions of this repository that [regularity.c] calls but does
    not define

    They are the parameters of the embedding: every stage of the pipeline,
    the node store's operations, the allocator and the clock.  A function
    with an out-parameter returns the value it leaves there. *)
Class Collaborators : Type := {
  (** [CMRallocBlock]: the address of a new block, or [None] when memory is
      exhausted ([CMR_ERROR_MEMORY]). *)
  CMRallocBlock : heap -> option ptr;
  (** [clock()]. *)
  clock : heap -> Z;
  CMRchrmatPrintDense : CMR_CHRMAT -> M CMR_ERROR;
  (** [CMRmatroiddecCreateMatrixRoot(cmr, &root, ternary, matrix)]: the error
      and the value left in [root]. *)
  CMRmatroiddecCreateMatrixRoot : bool -> CMR_CHRMAT -> M (CMR_ERROR * option ptr);
  CMRmatroiddecSetAttributes : ptr -> M CMR_ERROR;
  (** [CMRmatroiddecFree(cmr, pdec)]: takes the value of [*pdec], returns the
      error and the value it leaves in [*pdec]. *)
  CMRmatroiddecFree : option ptr -> M (CMR_ERROR * option ptr);
  CMRregularitySearchOneSum : ptr -> ptr -> M CMR_ERROR;
  CMRregularityTestGraphicness : ptr -> ptr -> M CMR_ERROR;
  CMRregularityTestCographicness : ptr -> ptr -> M CMR_ERROR;
  CMRregularityTestR10 : ptr -> ptr -> M CMR_ERROR;
  CMRregularityDecomposeSeriesParallel : ptr -> ptr -> M CMR_ERROR;
  CMRregularityExtendNestedMinorSequence : ptr -> ptr -> M CMR_ERROR;
  CMRregularityNestedMinorSequenceGraphicness : ptr -> ptr -> M CMR_ERROR;
  CMRregularityNestedMinorSequenceCographicness : ptr -> ptr -> M CMR_ERROR;
  CMRregularityNestedMinorSequenceSearchThreeSeparation : ptr -> ptr -> M CMR_ERROR
}.

Section RegularityModel.

Context `{Collaborators}.

(** [CMRregularityTaskCreateRoot]: the error and the value left in [*ptask]. *)
Definition CMRregularityTaskCreateRoot (d : ptr) (prm : CMR_REGULAR_PARAMS)
    (st : option ptr) (startClk : Z) (tl : Q) : M (CMR_ERROR * option ptr) :=
  fun h =>
    match CMRallocBlock h with
    | None => Done (CMR_ERROR_MEMORY, None) h
    | Some task => Done (CMR_OKAY, Some task) (put_task task (Task d None prm st startClk tl) h)
    end.

(** Modelled from the spec: [CMRfreeBlock] on a task ([env_internal.h] is
    not among the sources).  Releasing a block does not fail: running out
    of memory is the only failure of the allocator (section 4.A). *)
Definition free_task (t : ptr) : M unit :=
  fun h =>
    match tasks h !! t with
    | Some _ => Done tt (Heap (decs h) (delete t (tasks h)) (queues h) (statss h) (other h))
    | None => Undefined
    end.

(** Modelled from the spec: [CMRfreeBlock] on a queue, which does not fail
    either. *)
Definition free_queue (q : ptr) : M unit :=
  fun h =>
    match queues h !! q with
    | Some _ => Done tt (Heap (decs h) (tasks h) (delete q (queues h)) (statss h) (other h))
    | None => Undefined
    end.

(** [CMRregularityTaskFree(cmr, ptask)], given the value of [*ptask]. *)
Definition CMRregularityTaskFree (task : option ptr) : M CMR_ERROR :=
  match task with
  | None => ret CMR_OKAY
  | Some t => free_task t;; ret CMR_OKAY
  end.

(** [CMRregularityQueueCreate]: the error and the value left in [*pqueue]. *)
Definition CMRregularityQueueCreate : M (CMR_ERROR * option ptr) :=
  fun h =>
    match CMRallocBlock h with
    | None => Done (CMR_ERROR_MEMORY, None) h
    | Some queue => Done (CMR_OKAY, Some queue) (put_queue queue (Queue None false) h)
    end.

(** The [while (queue->head)] loop of [CMRregularityQueueFree]. *)
Fixpoint QueueFree_loop (fuel : nat) (queue : ptr) : M CMR_ERROR :=
  match fuel with
  | O => fun _ => OutOfFuel
  | S fuel' =>
      do qu <- load_queue queue;
      match head qu with
      | None => ret CMR_OKAY
      | Some task =>
          do T <- load_task task;
          store_queue queue (set_head (next T) qu);;
          CMR_CALL (CMRregularityTaskFree (Some task)) id
            (QueueFree_loop fuel' queue)
      end
  end.

(** [CMRregularityQueueFree(cmr, pqueue)], given the value of [*pqueue]. *)
Definition CMRregularityQueueFree (fuel : nat) (queue : option ptr) : M CMR_ERROR :=
  match queue with
  | None => ret CMR_OKAY
  | Some q =>
      CMR_CALL (QueueFree_loop fuel q) id
        (free_queue q;; ret CMR_OKAY)
  end.

Definition CMRregularityQueueEmpty (queue : ptr) : M bool :=
  do qu <- load_queue queue;
  ret (bool_decide (head qu = None)).

(** [task = queue->head] may be NULL; [task->next] is then undefined. *)
Definition CMRregularityQueueRemove (queue : ptr) : M ptr :=
  do qu <- load_queue queue;
  match head qu with
  | None => fun _ => Undefined
  | Some task =>
      do T <- load_task task;
      store_queue queue (set_head (next T) qu);;
      store_task task (set_next None T);;
      ret task
  end.

Definition CMRregularityQueueAdd (queue : ptr) (task : ptr) : M unit :=
  do qu <- load_queue queue;
  do T <- load_task task;
  store_task task (set_next (head qu) T);;
  store_queue queue (set_head (Some task) qu).

(** The parenthesised disjunction shared by the second and third guard,
    [params->directGraphicness || matrix->numRows <= 3 || matrix->numColumns <= 3];
    the matrix is dereferenced only when the first operand is false. *)
Definition direct_or_small (prm : CMR_REGULAR_PARAMS) (D : CMR_MATROID_DEC) : option bool :=
  if directGraphicness prm then Some true
  else match matrix D with
       | None => None
       | Some m => Some ((numRows m <=? 3)%Z || (numColumns m <=? 3)%Z)
       end.

(** [if (c) ... else ...] on a condition whose evaluation may be undefined. *)
Definition branch {A : Type} (c : option bool) (yes no : M A) : M A :=
  match c with
  | None => fun _ => Undefined
  | Some true => yes
  | Some false => no
  end.

Definition CMRregularityTaskRun (task : ptr) (queue : ptr) : M CMR_ERROR :=
  do T <- load_task task;
  do D <- load_dec (dec T);
  branch (Some (negb (testedTwoConnected D)))
    (CMR_CALL (CMRregularitySearchOneSum task queue) id (ret CMR_OKAY))
  (branch (if (graphicness D =? 0)%Z then direct_or_small (params T) D else Some false)
    (CMR_CALL (CMRregularityTestGraphicness task queue) id (ret CMR_OKAY))
  (branch (if (cographicness D =? 0)%Z then direct_or_small (params T) D else Some false)
    (CMR_CALL (CMRregularityTestCographicness task queue) id (ret CMR_OKAY))
  (branch (Some (negb (testedR10 D)))
    (CMR_CALL (CMRregularityTestR10 task queue) id (ret CMR_OKAY))
  (branch (Some (negb (testedSeriesParallel D)))
    (CMR_CALL (CMRregularityDecomposeSeriesParallel task queue) id (ret CMR_OKAY))
  (branch (Some (bool_decide (denseMatrix D <> None)))
    (CMR_CALL (CMRregularityExtendNestedMinorSequence task queue) id (ret CMR_OKAY))
  (branch (Some (bool_decide (nestedMinorsMatrix D <> None)
                 && (nestedMinorsLastGraphic D =? SIZE_MAX)%Z))
    (CMR_CALL (CMRregularityNestedMinorSequenceGraphicness task queue) id (ret CMR_OKAY))
  (branch (Some (bool_decide (nestedMinorsMatrix D <> None)
                 && (nestedMinorsLastCographic D =? SIZE_MAX)%Z))
    (CMR_CALL (CMRregularityNestedMinorSequenceCographicness task queue) id (ret CMR_OKAY))
    (CMR_CALL (CMRregularityNestedMinorSequenceSearchThreeSeparation task queue) id
       (ret CMR_OKAY))))))))).

(** [CMR_CALL] around a function with an out-parameter: on [CMR_OKAY] the
    enclosing function goes on with the value left in the out-parameter. *)
Definition CMR_CALL_out {V R : Type} (call : M (CMR_ERROR * V))
    (onerr : CMR_ERROR -> R) (k : V -> M R) : M R :=
  do r <- call;
  match fst r with
  | CMR_OKAY => k (snd r)
  | e => ret (onerr e)
  end.

(** A pointer handed to a function that asserts it ([assert(queue)],
    [assert(root)]). *)
Definition asserted (p : option ptr) : M ptr :=
  fun h => match p with Some a => Done a h | None => AssertFailed end.

(** A pointer that is dereferenced without a check. *)
Definition dereferenced (p : option ptr) : M ptr :=
  fun h => match p with Some a => Done a h | None => Undefined end.

(** [if (stats) stats->totalCount++]. *)
Definition count_total (st : option ptr) : M unit :=
  match st with
  | None => ret tt
  | Some s =>
      do r <- load_stats s;
      store_stats s (RegularStats (totalCount r + 1) (totalTime r))
  end.

(** [if (stats) stats->totalTime += (clock() - time) * 1.0 / CLOCKS_PER_SEC]. *)
Definition add_total_time (st : option ptr) (time : Z) : M unit :=
  match st with
  | None => ret tt
  | Some s =>
      do r <- load_stats s;
      fun h =>
        store_stats s
          (RegularStats (totalCount r)
             (double_add (totalTime r)
                (double_div (double_of_Z (clock h - time)) (double_of_Z CLOCKS_PER_SEC)))) h
  end.

(** The condition of the driver loop,
    [!CMRregularityQueueEmpty(queue) && (params->completeTree || !queue->foundIrregularity)]. *)
Definition loop_condition (prm : CMR_REGULAR_PARAMS) (queue : ptr) : M bool :=
  do empty <- CMRregularityQueueEmpty queue;
  if empty then ret false
  else if completeTree prm then ret true
  else do qu <- load_queue queue; ret (negb (foundIrregularity qu)).

(** The driver loop, lines 197-201 of [CMRregularityTest] and, with the same
    text, lines 257-261 of [CMRregularityCompleteDecomposition].
    [CMR_OKAY] means that the loop was left through its condition. *)
Fixpoint regularity_loop (fuel : nat) (prm : CMR_REGULAR_PARAMS) (queue : ptr)
    : M CMR_ERROR :=
  match fuel with
  | O => fun _ => OutOfFuel
  | S fuel' =>
      do go <- loop_condition prm queue;
      if go then
        do task <- CMRregularityQueueRemove queue;
        CMR_CALL (CMRregularityTaskRun task queue) id
          (regularity_loop fuel' prm queue)
      else ret CMR_OKAY
  end.

(** What [CMRregularityTest] hands back: the error, the value written to
    [*pisRegular] and the value written to [*pdec], if written. *)
Definition test_result : Type := CMR_ERROR * option bool * option ptr.

(** [pisRegular], [pdec] and [pminor] say whether the respective pointer is
    non-NULL.  With [CMR_DEBUG] defined the matrix is printed first. *)
Definition CMRregularityTest (fuel : nat) (mat : CMR_CHRMAT) (ternary : bool)
    (pisRegular pdec pminor : bool) (prm : CMR_REGULAR_PARAMS) (st : option ptr)
    (tl : Q) : M test_result :=
  let fail (e : CMR_ERROR) : test_result := (e, None, None) in
  CMR_CALL (CMRchrmatPrintDense mat) fail (
  do time <- (fun h => Done (clock h) h);
  count_total st;;
  CMR_CALL_out (CMRmatroiddecCreateMatrixRoot ternary mat) fail (fun root0 =>
  do root <- asserted root0;
  CMR_CALL_out CMRregularityQueueCreate fail (fun queue0 =>
  CMR_CALL_out (CMRregularityTaskCreateRoot root prm st time tl) fail (fun rootTask0 =>
  do queue <- asserted queue0;
  do rootTask <- dereferenced rootTask0;
  CMRregularityQueueAdd queue rootTask;;
  CMR_CALL (regularity_loop fuel prm queue) fail (
  CMR_CALL (CMRregularityQueueFree fuel (Some queue)) fail (
  CMR_CALL (CMRmatroiddecSetAttributes root) fail (
  do R <- load_dec root;
  assert (negb (regularity R =? 0)%Z);;
  let isRegular := if pisRegular then Some (0 <? regularity R)%Z else None in
  if pdec then
    add_total_time st time;;
    ret (CMR_OKAY, isRegular, Some root)
  else
    CMR_CALL_out (CMRmatroiddecFree (Some root)) (fun e => (e, isRegular, None)) (fun _ =>
    add_total_time st time;;
    ret (CMR_OKAY, isRegular, None))))))))).

(** [while (root->parent != NULL) root = root->parent]. *)
Fixpoint find_root (fuel : nat) (root : ptr) : M ptr :=
  match fuel with
  | O => fun _ => OutOfFuel
  | S fuel' =>
      do R <- load_dec root;
      match parent R with
      | None => ret root
      | Some up => find_root fuel' up
      end
  end.

(** [for (c = 0; c < dec->numChildren; ++c)
      CMR_CALL( CMRmatroiddecFree(cmr, &dec->children[c]) )], from [c] on.
    The callee's write to the slot [dec->children[c]] is the second
    component of its result. *)
Fixpoint free_children (fuel : nat) (c : nat) (d : ptr) : M CMR_ERROR :=
  match fuel with
  | O => fun _ => OutOfFuel
  | S fuel' =>
      do D <- load_dec d;
      if bool_decide (c < numChildren D) then
        match children D !! c with
        | None => fun _ => Undefined
        | Some child =>
            do r <- CMRmatroiddecFree child;
            do D' <- load_dec d;
            store_dec d (set_children (<[c := snd r]> (children D')) D');;
            CMR_CALL (ret (fst r)) id (free_children fuel' (S c) d)
        end
      else ret CMR_OKAY
  end.

(** With [CMR_DEBUG] defined the dimensions of the root's and of the
    sub-root's matrix are printed, and the latter matrix itself. *)
Definition CMRregularityCompleteDecomposition (fuel : nat) (d : ptr)
    (prm : CMR_REGULAR_PARAMS) (st : option ptr) (tl : Q) : M CMR_ERROR :=
  do root <- find_root fuel d;
  do R <- load_dec root;
  do D <- load_dec d;
  match matrix R, matrix D with
  | Some _, Some m =>
      CMR_CALL (CMRchrmatPrintDense m) id (
      do time <- (fun h => Done (clock h) h);
      count_total st;;
      CMR_CALL (free_children fuel 0 d) id (
      do D' <- load_dec d;
      store_dec d (set_type CMR_MATROID_DEC_TYPE_UNKNOWN D');;
      CMR_CALL_out CMRregularityQueueCreate id (fun queue0 =>
      CMR_CALL_out (CMRregularityTaskCreateRoot d prm st time tl) id (fun decTask0 =>
      do queue <- asserted queue0;
      do decTask <- dereferenced decTask0;
      CMRregularityQueueAdd queue decTask;;
      CMR_CALL (regularity_loop fuel prm queue) id (
      CMR_CALL (CMRregularityQueueFree fuel (Some queue)) id (
      CMR_CALL (CMRmatroiddecSetAttributes root) id (
      do R' <- load_dec root;
      assert (negb (regularity R' =? 0)%Z);;
      add_total_time st time;;
      ret CMR_OKAY)))))))
  | _, _ => fun _ => Undefined
  end.

End RegularityModel.

(** *** The decision table of the specification (section 4.C)

    Stated after the specification's words, to be compared with
    [CMRregularityTaskRun]. *)
Inductive Stage : Type :=
| OneSumSearch
| DirectGraphicness
| DirectCographicness
| R10Test
| SeriesParallelDecomposition
| NestedMinorSequenceExtension
| SequenceGraphicness
| SequenceCographicness
| ThreeSeparationSearch.

(** The nine rows: the guard on the node, evaluated, and the stage. *)
Definition decision_table (prm : CMR_REGULAR_PARAMS) (D : CMR_MATROID_DEC)
    (rows cols : Z) : list (bool * Stage) :=
  let small := (directGraphicness prm || (rows <=? 3)%Z || (cols <=? 3)%Z) in
  [ (negb (testedTwoConnected D), OneSumSearch);
    ((graphicness D =? 0)%Z && small, DirectGraphicness);
    ((cographicness D =? 0)%Z && small, DirectCographicness);
    (negb (testedR10 D), R10Test);
    (negb (testedSeriesParallel D), SeriesParallelDecomposition);
    (bool_decide (is_Some (denseMatrix D)), NestedMinorSequenceExtension);
    (bool_decide (is_Some (nestedMinorsMatrix D))
       && (nestedMinorsLastGraphic D =? SIZE_MAX)%Z, SequenceGraphicness);
    (bool_decide (is_Some (nestedMinorsMatrix D))
       && (nestedMinorsLastCographic D =? SIZE_MAX)%Z, SequenceCographicness);
    (true, ThreeSeparationSearch) ].

(** The stage of the first row whose guard holds. *)
Fixpoint first_match (table : list (bool * Stage)) : option Stage :=
  match table with
  | [] => None
  | (guard, s) :: rest => if guard then Some s else first_match rest
  end.

(** One invocation of a stage on a task. *)
Definition run_stage `{Collaborators} (s : Stage) (task queue : ptr) : M CMR_ERROR :=
  match s with
  | OneSumSearch => CMRregularitySearchOneSum task queue
  | DirectGraphicness => CMRregularityTestGraphicness task queue
  | DirectCographicness => CMRregularityTestCographicness task queue
  | R10Test => CMRregularityTestR10 task queue
  | SeriesParallelDecomposition => CMRregularityDecomposeSeriesParallel task queue
  | NestedMinorSequenceExtension => CMRregularityExtendNestedMinorSequence task queue
  | SequenceGraphicness => CMRregularityNestedMinorSequenceGraphicness task queue
  | SequenceCographicness => CMRregularityNestedMinorSequenceCographicness task queue
  | ThreeSeparationSearch => CMRregularityNestedMinorSequenceSearchThreeSeparation task queue
  end.

(** *** Views of the store used to state the properties *)

(** The tasks met from [start] along the [next] links, up to NULL. *)
Inductive chain (h : heap) : option ptr -> list ptr -> Prop :=
| chain_end : chain h None []
| chain_link (t : ptr) (tk : DecompositionTask) (l : list ptr) :
    tasks h !! t = Some tk ->
    chain h (next tk) l ->
    chain h (Some t) (t :: l).

(** The queue at [q] holds exactly the tasks [l], head first. *)
Definition queue_holds (h : heap) (q : ptr) (l : list ptr) : Prop :=
  exists qu, queues h !! q = Some qu /\ chain h (head qu) l.

(** [r] is reached from [d] along the [parent] links. *)
Inductive ancestor_or_self (h : heap) : ptr -> ptr -> Prop :=
| ancestor_self (d : ptr) : ancestor_or_self h d d
| ancestor_up (d up r : ptr) (D : CMR_MATROID_DEC) :
    decs h !! d = Some D ->
    parent D = Some up ->
    ancestor_or_self h up r ->
    ancestor_or_self h d r.

(** [r] is the overall root of the tree that holds [d]. *)
Definition overall_root (h : heap) (d r : ptr) : Prop :=
  ancestor_or_self h d r /\ exists R, decs h !! r = Some R /\ parent R = None.

(** The driver loop, as the sequence of its iterations: from [h], the tasks
    [l] are popped and run one after the other, each run returning
    [CMR_OKAY], and the store is then [h'].  An iteration starts only on a
    queue that is not empty and, unless [completeTree] is set, has not seen
    an irregularity; the stage it runs returns before the queue is looked
    at again. *)
Inductive pumped `{Collaborators} (prm : CMR_REGULAR_PARAMS) (queue : ptr)
    : heap -> list ptr -> heap -> Prop :=
| pumped_stop (h : heap) : pumped prm queue h [] h
| pumped_step (h h1 h2 h3 : heap) (qu : DecompositionQueue) (task : ptr)
    (l : list ptr) :
    queues h !! queue = Some qu ->
    head qu <> None ->
    completeTree prm = true \/ foundIrregularity qu = false ->
    CMRregularityQueueRemove queue h = Done task h1 ->
    CMRregularityTaskRun task queue h1 = Done CMR_OKAY h2 ->
    pumped prm queue h2 l h3 ->
    pumped prm queue h (task :: l) h3.

(** The state of the queue in which the driver loop is left. *)
Definition loop_left (prm : CMR_REGULAR_PARAMS) (queue : ptr) (h : heap) : Prop :=
  exists qu, queues h !! queue = Some qu
    /\ (head qu = None \/ (completeTree prm = false /\ foundIrregularity qu = true)).



(** *** A small pipeline to run the driver on

    Collaborators simple enough to evaluate: the one-sum stage finds nothing,
    marks the node and pushes the task back; the direct graphicness test
    accepts and releases the task; no other stage is reached on a small
    matrix.  The finaliser reads the verdict off [graphicness]. *)

Definition demo_alloc (h : heap) : option ptr :=
  Some (Pos.of_succ_nat (size (decs h) + size (tasks h) + size (queues h) + 100)).

Definition demo_new_node (ternary : bool) (mat : CMR_CHRMAT) : CMR_MATROID_DEC :=
  MatroidDec CMR_MATROID_DEC_TYPE_UNKNOWN ternary 0 0 0 (Some mat) None 0 []
    false false false None None SIZE_MAX SIZE_MAX.

Definition demo_create_root (ternary : bool) (mat : CMR_CHRMAT)
    : M (CMR_ERROR * option ptr) :=
  fun h =>
    match demo_alloc h with
    | None => Done (CMR_ERROR_MEMORY, None) h
    | Some a => Done (CMR_OKAY, Some a) (put_dec a (demo_new_node ternary mat) h)
    end.

Definition demo_set_attributes (root : ptr) : M CMR_ERROR :=
  do R <- load_dec root;
  store_dec root
    (MatroidDec (type R) (isTernary R) (if (0 <? graphicness R)%Z then 1 else (-1))
       (graphicness R) (cographicness R) (matrix R) (parent R) (numChildren R)
       (children R) (testedTwoConnected R) (testedR10 R) (testedSeriesParallel R)
       (denseMatrix R) (nestedMinorsMatrix R) (nestedMinorsLastGraphic R)
       (nestedMinorsLastCographic R));;
  ret CMR_OKAY.

Definition demo_free (p : option ptr) : M (CMR_ERROR * option ptr) :=
  match p with
  | None => ret (CMR_OKAY, None)
  | Some a =>
      fun h => Done (CMR_OKAY, None)
                 (Heap (delete a (decs h)) (tasks h) (queues h) (statss h) (other h))
  end.

Definition demo_one_sum (task queue : ptr) : M CMR_ERROR :=
  do T <- load_task task;
  do D <- load_dec (dec T);
  store_dec (dec T)
    (MatroidDec (type D) (isTernary D) (regularity D) (graphicness D) (cographicness D)
       (matrix D) (parent D) (numChildren D) (children D) true (testedR10 D)
       (testedSeriesParallel D) (denseMatrix D) (nestedMinorsMatrix D)
       (nestedMinorsLastGraphic D) (nestedMinorsLastCographic D));;
  do qu <- load_queue queue;
  store_task task (set_next (head qu) T);;
  store_queue queue (set_head (Some task) qu);;
  ret CMR_OKAY.

Definition demo_graphic (task queue : ptr) : M CMR_ERROR :=
  do T <- load_task task;
  do D <- load_dec (dec T);
  store_dec (dec T)
    (MatroidDec CMR_MATROID_DEC_TYPE_GRAPH (isTernary D) (regularity D) 1
       (cographicness D) (matrix D) (parent D) (numChildren D) (children D)
       (testedTwoConnected D) (testedR10 D) (testedSeriesParallel D) (denseMatrix D)
       (nestedMinorsMatrix D) (nestedMinorsLastGraphic D) (nestedMinorsLastCographic D));;
  fun h => Done CMR_OKAY
             (Heap (decs h) (delete task (tasks h)) (queues h) (statss h) (other h)).

Definition demo_unreached (task queue : ptr) : M CMR_ERROR := ret CMR_ERROR_TIMEOUT.

Definition demo_collaborators : Collaborators := {|
  CMRallocBlock := demo_alloc;
  clock := fun _ => 0%Z;
  CMRchrmatPrintDense := fun _ => ret CMR_OKAY;
  CMRmatroiddecCreateMatrixRoot := demo_create_root;
  CMRmatroiddecSetAttributes := demo_set_attributes;
  CMRmatroiddecFree := demo_free;
  CMRregularitySearchOneSum := demo_one_sum;
  CMRregularityTestGraphicness := demo_graphic;
  CMRregularityTestCographicness := demo_unreached;
  CMRregularityTestR10 := demo_unreached;
  CMRregularityDecomposeSeriesParallel := demo_unreached;
  CMRregularityExtendNestedMinorSequence := demo_unreached;
  CMRregularityNestedMinorSequenceGraphicness := demo_unreached;
  CMRregularityNestedMinorSequenceCographicness := demo_unreached;
  CMRregularityNestedMinorSequenceSearchThreeSeparation := demo_unreached
|}.

Definition demo_heap : heap := Heap ∅ ∅ ∅ ∅ ∅.

(** The 3x3 identity matrix. *)
Definition demo_matrix : CMR_CHRMAT :=
  ChrMat 3 3 [(0, 0, 1); (1, 1, 1); (2, 2, 1)]%Z.

Definition demo_params : CMR_REGULAR_PARAMS := RegularParams false true.

(** A store with a one-sum node at address 1 and its child at address 2,
    a queue at address 7 and a task for node 1 at address 8. *)
Definition demo_node : CMR_MATROID_DEC :=
  MatroidDec CMR_MATROID_DEC_TYPE_ONE_SUM false 0 0 0 (Some demo_matrix) None 1
    [Some 2%positive] false false false None None SIZE_MAX SIZE_MAX.

Definition demo_child : CMR_MATROID_DEC :=
  MatroidDec CMR_MATROID_DEC_TYPE_GRAPH false 1 1 0 (Some demo_matrix)
    (Some 1%positive) 0 [] true false false None None SIZE_MAX SIZE_MAX.

Definition demo_task : DecompositionTask :=
  Task 1%positive None demo_params None 0 0.

Definition demo_tree : heap :=
  Heap (<[1%positive := demo_node]> (<[2%positive := demo_child]> ∅))
    (<[8%positive := demo_task]> ∅)
    (<[7%positive := Queue None false]> ∅)
    ∅ ∅.

(** The calls of [CMRregularityTest] before its outputs are written, any of
    which can make it return the error [e]; [h'] is the store that the call
    left. *)
Inductive test_failure `{Collaborators} (fuel : nat) (mat : CMR_CHRMAT) (ternary : bool)
    (prm : CMR_REGULAR_PARAMS) (st : option ptr) (tl : Q) (e : CMR_ERROR) (h' : heap)
    : Prop :=
| fails_printing (h0 : heap) :
    CMRchrmatPrintDense mat h0 = Done e h' ->
    test_failure fuel mat ternary prm st tl e h'
| fails_creating_root (h0 : heap) (v : option ptr) :
    CMRmatroiddecCreateMatrixRoot ternary mat h0 = Done (e, v) h' ->
    test_failure fuel mat ternary prm st tl e h'
| fails_creating_queue (h0 : heap) (v : option ptr) :
    CMRregularityQueueCreate h0 = Done (e, v) h' ->
    test_failure fuel mat ternary prm st tl e h'
| fails_creating_task (h0 : heap) (root : ptr) (time : Z) (v : option ptr) :
    CMRregularityTaskCreateRoot root prm st time tl h0 = Done (e, v) h' ->
    test_failure fuel mat ternary prm st tl e h'
| fails_in_loop (h0 : heap) (queue : ptr) :
    regularity_loop fuel prm queue h0 = Done e h' ->
    test_failure fuel mat ternary prm st tl e h'
| fails_freeing_queue (h0 : heap) (queue : ptr) :
    CMRregularityQueueFree fuel (Some queue) h0 = Done e h' ->
    test_failure fuel mat ternary prm st tl e h'
| fails_setting_attributes (h0 : heap) (root : ptr) :
    CMRmatroiddecSetAttributes root h0 = Done e h' ->
    test_failure fuel mat ternary prm st tl e h'.

(** A 4x4 matrix, too large for the direct tests of the small pipeline. *)
Definition demo_wide_matrix : CMR_CHRMAT :=
  ChrMat 4 4 [(0, 0, 1); (1, 1, 1); (2, 2, 1); (3, 3, 1)]%Z.

(** A store with a 2-connected node for [demo_wide_matrix] at address 1 and
    its task, at address 8, in the queue at address 7. *)
Definition demo_wide_tree : heap :=
  Heap (<[1%positive :=
            MatroidDec CMR_MATROID_DEC_TYPE_UNKNOWN false 0 0 0 (Some demo_wide_matrix)
              None 0 [] true false false None None SIZE_MAX SIZE_MAX]> ∅)
    (<[8%positive := demo_task]> ∅)
    (<[7%positive := Queue (Some 8%positive) false]> ∅)
    ∅ ∅.

(** [demo_tree] with its task queued, and with a node that has no matrix. *)
Definition demo_queued : heap :=
  put_queue 7%positive (Queue (Some 8%positive) false) demo_tree.

Definition demo_bare : heap :=
  put_dec 1%positive
    (MatroidDec CMR_MATROID_DEC_TYPE_UNKNOWN false 0 0 0 None None 0 []
       true false false None None SIZE_MAX SIZE_MAX) demo_queued.

(* ===================================================================== *)
(** ** Part II: [find_wheel_minor.hpp] *)
(* ===================================================================== *)

(** Modelled from the spec: the permuted views of a matroid and of its
    matrix ([matroid_permuted.hpp] and [matrix_permuted.hpp] are not among
    the sources).  Section 4.D speaks of permuting rows and columns and of
    applying the same permutations to the matroid: a view is an underlying
    object and two permutations, and position [i] of the view is position
    [perm(i)] of the underlying object.  Element names are [int]s. *)
Record matroid_permuted : Type := MatroidPermuted {
  names1 : list Z;
  names2 : list Z;
  md_perm1 : list nat;
  md_perm2 : list nat
}.

Record matrix_permuted : Type := MatrixPermuted {
  data : list (list Z);
  mx_perm1 : list nat;
  mx_perm2 : list nat
}.

(** The pair [(permuted_matroid, permuted_matrix)] that every helper takes. *)
Definition wheel_state : Type := matroid_permuted * matrix_permuted.

(** [perm(i)]. *)
Definition perm_at (perm : list nat) (i : nat) : nat := default 0 (perm !! i).

(** [permuted_matroid.size1()] and [size2()]. *)
Definition matroid_size1 (m : matroid_permuted) : nat := length (md_perm1 m).
Definition matroid_size2 (m : matroid_permuted) : nat := length (md_perm2 m).

(** [permuted_matrix.size1()] and [size2()]. *)
Definition size1 (x : matrix_permuted) : nat := length (mx_perm1 x).
Definition size2 (x : matrix_permuted) : nat := length (mx_perm2 x).

(** [permuted_matrix(i, j)]. *)
Definition matrix_at (x : matrix_permuted) (i j : nat) : Z :=
  match data x !! perm_at (mx_perm1 x) i with
  | Some row => default 0%Z (row !! perm_at (mx_perm2 x) j)
  | None => 0%Z
  end.

(** [permuted_matroid.name1(i)] and [name2(j)]. *)
Definition name1 (m : matroid_permuted) (i : nat) : Z :=
  default 0%Z (names1 m !! perm_at (md_perm1 m) i).
Definition name2 (m : matroid_permuted) (j : nat) : Z :=
  default 0%Z (names2 m !! perm_at (md_perm2 m) j).

(** Exchange of the entries at two positions of a permutation. *)
Definition swap_positions (perm : list nat) (i j : nat) : list nat :=
  <[i := perm_at perm j]> (<[j := perm_at perm i]> perm).

(** Modelled from the spec: [matroid_permute1] and [matroid_permute2] (not
    among the sources), the row and column permutations by which section
    4.D moves rows and columns: rows (columns) [i] and [j] of both views
    change places. *)
Definition matroid_permute1 (st : wheel_state) (i j : nat) : wheel_state :=
  (MatroidPermuted (names1 st.1) (names2 st.1)
     (swap_positions (md_perm1 st.1) i j) (md_perm2 st.1),
   MatrixPermuted (data st.2) (swap_positions (mx_perm1 st.2) i j) (mx_perm2 st.2)).

Definition matroid_permute2 (st : wheel_state) (i j : nat) : wheel_state :=
  (MatroidPermuted (names1 st.1) (names2 st.1)
     (md_perm1 st.1) (swap_positions (md_perm2 st.1) i j),
   MatrixPermuted (data st.2) (mx_perm1 st.2) (swap_positions (mx_perm2 st.2) i j)).

(** [zero_block_matrix_modifier]: the value read at [(i, j)] through the
    modified matrix. *)
Definition zero_block_matrix_modifier (height_ width_ : nat) (i j : nat) (value : Z) : Z :=
  if bool_decide (i < height_) && bool_decide (j < width_) then 0%Z else value.

(** [matrix_modified <matrix_permuted, zero_block_matrix_modifier>]. *)
Definition modified_matrix (x : matrix_permuted) (height_ width_ : nat) (i j : nat) : Z :=
  zero_block_matrix_modifier height_ width_ i j (matrix_at x i j).

(** Modelled from the spec: the bipartite row/column graph of section 4.D
    ([bipartite_graph_bfs.hpp] is not among the sources).  Its nodes are the
    rows followed by the columns. *)
Record bipartite_graph_dimensions : Type := Dimensions {
  dim_height : nat;
  dim_width : nat
}.

Definition is_row (dim : bipartite_graph_dimensions) (index : nat) : bool :=
  bool_decide (index < dim_height dim).
Definition is_column (dim : bipartite_graph_dimensions) (index : nat) : bool :=
  negb (is_row dim index).
Definition row_to_index (dim : bipartite_graph_dimensions) (row : nat) : nat := row.
Definition column_to_index (dim : bipartite_graph_dimensions) (column : nat) : nat :=
  dim_height dim + column.
Definition index_to_row (dim : bipartite_graph_dimensions) (index : nat) : nat := index.
Definition index_to_column (dim : bipartite_graph_dimensions) (index : nat) : nat :=
  index - dim_height dim.

(** The (row, column) of the edge between two nodes, whichever of them is
    the row. *)
Definition indexes_to_coordinates (dim : bipartite_graph_dimensions)
    (first second : nat) : nat * nat :=
  if is_row dim first
  then (index_to_row dim first, index_to_column dim second)
  else (index_to_row dim second, index_to_column dim first).

(** A node of the search result.  [distance] is an [int]: the callers read
    [-2] as "an end node that was not reached" and any other negative value
    as "not reached". *)
Record bipartite_graph_bfs_node : Type := BfsNode {
  distance : Z;
  predecessor : nat
}.

Definition is_reachable (node : bipartite_graph_bfs_node) : bool :=
  (0 <=? distance node)%Z.

(** [bfs_result[index]]. *)
Definition node_at (bfs_result : list bipartite_graph_bfs_node) (index : nat)
    : bipartite_graph_bfs_node :=
  default (BfsNode (-1) 0) (bfs_result !! index).

(** Modelled from the spec: the result of the search, "a separation
    splitting the node into two children" or none ([separation.hpp] is not
    among the sources).  A separation is a split point (rows, columns) and
    the witnessing entries of its off-diagonal blocks; the one built without
    arguments is the empty one. *)
Record separation : Type := Separation {
  sep_split : Z * Z;
  sep_witnesses : list (Z * Z)
}.

(** [separation ()]. *)
Definition separation_none : separation := Separation (0, 0)%Z [].

(** The order of a separation: one more than the number of its witnesses. *)
Definition separation_order (s : separation) : nat := S (length (sep_witnesses s)).

(** Arithmetic in [size_t]. *)
Definition size_t (z : Z) : Z := (z mod 2 ^ 64)%Z.

(** The cast [(int)] of a [size_t], in two's complement on 32 bits. *)
Definition to_int (z : Z) : Z := ((z + 2 ^ 31) mod 2 ^ 32 - 2 ^ 31)%Z.

(** The two predicates passed to the counting helpers. *)
Inductive matrix_property : Type :=
| is_non_zero
| is_all_ones.

(** *** The helpers of this repository that [find_wheel_minor] calls but
    that are not among the sources

    They are the parameters of the embedding.  The comparator of the two
    reordering helpers is always [std::greater <int>] and is left out. *)
Class WheelHelpers : Type := {
  (** [matroid_reorder_columns (matroid, matrix, row_first, row_beyond,
       column_first, column_beyond, std::greater <int> ())]. *)
  matroid_reorder_columns : wheel_state -> nat -> nat -> nat -> nat -> wheel_state;
  matroid_reorder_rows : wheel_state -> nat -> nat -> nat -> nat -> wheel_state;
  (** [matrix_count_property_column_series (matrix, row_first, row_beyond,
       column_first, column_beyond, property)]. *)
  matrix_count_property_column_series :
    matrix_permuted -> nat -> nat -> nat -> nat -> matrix_property -> nat;
  matrix_count_property_row_series :
    matrix_permuted -> nat -> nat -> nat -> nat -> matrix_property -> nat;
  matroid_binary_pivot : wheel_state -> nat -> nat -> wheel_state;
  (** [bipartite_graph_bfs (matrix, dim, start_nodes, end_nodes, reach_all,
       result)]: whether a path was found, and [result]. *)
  bipartite_graph_bfs :
    (nat -> nat -> Z) -> bipartite_graph_dimensions -> list nat -> list nat -> bool ->
    bool * list bipartite_graph_bfs_node;
  (** [sort (permutation, less)]. *)
  sort : list nat -> (nat -> nat -> bool) -> list nat
}.

(** The assertions of [find_wheel_minor], by what they require. *)
Inductive assertion : Type :=
| at_least_3_by_3
| corner_ones
| block_2_by_2
| nearest_end_reachable
| nearest_distance_even
| zero_column_in_block
| distance_one_is_column
| distance_zero_is_row
| zero_row_in_block
| w3_entry (row column : nat).

(** How a call ends: it returns, an [assert] aborts it, or the embedding's
    loop budget is used up. *)
Inductive wheel_outcome (A : Type) : Type :=
| Returned (a : A)
| Failed (a : assertion)
| Diverged.

Arguments Returned {A} a.
Arguments Failed {A} a.
Arguments Diverged {A}.

Definition wheel_bind {A B : Type} (m : wheel_outcome A) (k : A -> wheel_outcome B)
    : wheel_outcome B :=
  match m with
  | Returned a => k a
  | Failed a => Failed a
  | Diverged => Diverged
  end.

Definition asserting {A : Type} (b : bool) (a : assertion) (k : wheel_outcome A)
    : wheel_outcome A :=
  if b then k else Failed a.

(** [matroid_element_set]. *)
Abbreviation matroid_element_set := (gset Z).

(** What [find_wheel_minor] leaves: its result and its three in-out
    arguments. *)
Record wheel_result : Type := WheelResult {
  wr_separation : separation;
  wr_state : wheel_state;
  wr_extra : matroid_element_set
}.

Section WheelModel.

Context `{WheelHelpers}.

(** After lines 51-115: either an early return with a 1- or 2-separation,
    or the all-ones block at the top left, [block_height] by [block_width]. *)
Inductive block_result : Type :=
| Early (r : wheel_result)
| Grown (st : wheel_state) (extra : matroid_element_set) (block_width block_height : nat).

(** Lines 51-115 of [find_wheel_minor]. *)
Definition grow_block (st : wheel_state) (extra_elements : matroid_element_set)
    : wheel_outcome block_result :=
  asserting (bool_decide (3 <= size1 st.2) && bool_decide (3 <= matroid_size2 st.1))
    at_least_3_by_3 (
  let st := matroid_reorder_columns st 0 1 0 (matroid_size2 st.1) in
  let count_first_row_ones :=
    matrix_count_property_column_series st.2 0 1 0 (size2 st.2) is_non_zero in
  if bool_decide (count_first_row_ones = 0) then
    Returned (Early (WheelResult (Separation (1, 0)%Z []) st extra_elements))
  else
  let st := matroid_reorder_rows st 1 (matroid_size1 st.1) 0 1 in
  let count_first_column_ones :=
    matrix_count_property_row_series st.2 0 (matroid_size1 st.1) 0 1 is_non_zero in
  if bool_decide (count_first_row_ones = 1) then
    if bool_decide (count_first_column_ones = 0) then
      Returned (Early (WheelResult (Separation (1, 1)%Z []) st extra_elements))
    else
      Returned (Early (WheelResult (Separation (1, 1)%Z [(1, 0)%Z]) st extra_elements))
  else if bool_decide (count_first_column_ones = 1) then
    Returned (Early (WheelResult (Separation (1, 1)%Z [(0, 1)%Z]) st extra_elements))
  else
  asserting ((matrix_at st.2 0 0 =? 1)%Z && (matrix_at st.2 1 0 =? 1)%Z
             && (matrix_at st.2 0 1 =? 1)%Z) corner_ones (
  let '(st, extra_elements) :=
    if negb (matrix_at st.2 1 1 =? 1)%Z then
      let st := matroid_binary_pivot st 0 0 in
      (st, extra_elements ∪ {[name1 st.1 0]} ∪ {[name2 st.1 0]})
    else (st, extra_elements) in
  asserting ((matrix_at st.2 0 0 =? 1)%Z && (matrix_at st.2 1 0 =? 1)%Z
             && (matrix_at st.2 0 1 =? 1)%Z && (matrix_at st.2 1 1 =? 1)%Z)
    block_2_by_2 (
  let st := matroid_reorder_columns st 0 2 2 (matroid_size2 st.1) in
  let block_width :=
    2 + matrix_count_property_column_series st.2 0 2 2 (size2 st.2) is_all_ones in
  let st := matroid_reorder_rows st 2 (matroid_size1 st.1) 0 block_width in
  let block_height :=
    2 + matrix_count_property_row_series st.2 2 (size1 st.2) 0 block_width is_all_ones in
  Returned (Grown st extra_elements block_width block_height)))).

(** Lines 122-136: the search in the bipartite graph of the matrix with the
    block masked, from the block's rows to the block's columns. *)
Definition search_dimensions (st : wheel_state) : bipartite_graph_dimensions :=
  Dimensions (size1 st.2) (size2 st.2).

Definition start_nodes (st : wheel_state) (block_height : nat) : list nat :=
  map (row_to_index (search_dimensions st)) (seq 0 block_height).

Definition end_nodes (st : wheel_state) (block_width : nat) : list nat :=
  map (column_to_index (search_dimensions st)) (seq 0 block_width).

Definition search_path (st : wheel_state) (block_width block_height : nat)
    : bool * list bipartite_graph_bfs_node :=
  bipartite_graph_bfs (modified_matrix st.2 block_height block_width)
    (search_dimensions st) (start_nodes st block_height) (end_nodes st block_width) false.

(** Line 161: [0] for a row that was not reached, [1] for a start row,
    [2] for any other reached row. *)
Definition row_value (node : bipartite_graph_bfs_node) : Z :=
  if is_reachable node then (if (0 <? distance node)%Z then 2 else 1)%Z else 0%Z.

(** Line 177: [2] for a reached column, [1] for an end column that was not
    reached, [0] for any other column. *)
Definition column_value (node : bipartite_graph_bfs_node) : Z :=
  if is_reachable node then 2%Z
  else if (distance node =? -2)%Z then 1%Z else 0%Z.

(** The loop of lines 158-165: the array [reachable] and [split.first]. *)
Definition mark_rows (st : wheel_state) (bfs_result : list bipartite_graph_bfs_node)
    (reachable : list Z) : list Z * Z :=
  fold_left
    (fun '(reachable, first) i =>
       let value := row_value (node_at bfs_result (row_to_index (search_dimensions st) i)) in
       (<[perm_at (mx_perm1 st.2) i := value]> reachable,
        if (value =? 0)%Z then size_t (first + 1) else first))
    (seq 0 (size1 st.2)) (reachable, 0%Z).

(** The loop of lines 174-181: the array [reachable] and [split.second]. *)
Definition mark_columns (st : wheel_state) (bfs_result : list bipartite_graph_bfs_node)
    (reachable : list Z) : list Z * Z :=
  fold_left
    (fun '(reachable, second) i =>
       let value :=
         column_value (node_at bfs_result (column_to_index (search_dimensions st) i)) in
       (<[perm_at (mx_perm2 st.2) i := value]> reachable,
        if (value <? 2)%Z then size_t (second + 1) else second))
    (seq 0 (size2 st.2)) (reachable, 0%Z).

(** [vector_less <int, std::less <int> >]: compares two indices by the
    values the array holds for them. *)
Definition vector_less (reachable : list Z) (a b : nat) : bool :=
  (default 0 (reachable !! a) <? default 0 (reachable !! b))%Z.

(** Lines 151-187: no path was found. *)
Definition separate (st : wheel_state) (extra_elements : matroid_element_set)
    (bfs_result : list bipartite_graph_bfs_node) : wheel_result :=
  let '(reachable, first) := mark_rows st bfs_result (replicate (size1 st.2) 0%Z) in
  let perm1 := sort (mx_perm1 st.2) (vector_less reachable) in
  let st : wheel_state :=
    (MatroidPermuted (names1 st.1) (names2 st.1) perm1 (md_perm2 st.1),
     MatrixPermuted (data st.2) perm1 (mx_perm2 st.2)) in
  let '(reachable, second) :=
    mark_columns st bfs_result (resize (size2 st.2) 0%Z reachable) in
  let perm2 := sort (mx_perm2 st.2) (vector_less reachable) in
  let st : wheel_state :=
    (MatroidPermuted (names1 st.1) (names2 st.1) (md_perm1 st.1) perm2,
     MatrixPermuted (data st.2) (mx_perm1 st.2) perm2) in
  WheelResult (Separation (first, second) [(first, size_t (second - 1))]) st
    extra_elements.

(** Lines 191-195: the last reached end node, [0] if there is none. *)
Definition find_nearest_end (bfs_result : list bipartite_graph_bfs_node)
    (ends : list nat) : nat :=
  fold_left (fun nearest_end e => if is_reachable (node_at bfs_result e) then e else nearest_end)
    ends 0.

(** The loops of lines 215-219 and 251-255: the first [k], counted up from
    the given one, where [read k] is zero; each increment is followed by
    [assert (k < bound)].  [None] when that assertion fails. *)
Fixpoint search_zero (read : nat -> Z) (bound : nat) (k : nat) (fuel : nat) : option nat :=
  if (read k =? 0)%Z then Some k
  else match fuel with
       | O => None
       | S fuel' =>
           if bool_decide (S k < bound) then search_zero read bound (S k) fuel' else None
       end.

(** The variables of the loop of lines 221-248. *)
Record walk_state : Type := WalkState {
  ws_state : wheel_state;
  ws_extra : matroid_element_set;
  last_index : nat;
  current_index : nat;
  w3_one_row : nat;
  w3_path_column : nat
}.

(** Line 225: whether the walk pivots at a node of that distance.  The sum
    [distance + 2] is the one of the integers: the distances of a search
    result are far below [INT_MAX]. *)
Definition pivots_at (d nearest_distance : Z) : bool :=
  (Z.rem d 2 =? 0)%Z && (2 <=? d)%Z && (d + 2 <? to_int nearest_distance)%Z.

(** The loop of lines 221-248. *)
Fixpoint walk (fuel : nat) (dim : bipartite_graph_dimensions)
    (bfs_result : list bipartite_graph_bfs_node) (nearest_distance : Z)
    (w : walk_state) : wheel_outcome walk_state :=
  if bool_decide (last_index w = current_index w) then Returned w
  else
    match fuel with
    | O => Diverged
    | S fuel' =>
        let coords := indexes_to_coordinates dim (current_index w) (last_index w) in
        let d := distance (node_at bfs_result (current_index w)) in
        let '(st, extra_elements) :=
          if pivots_at d nearest_distance then
            let st := matroid_binary_pivot (ws_state w) coords.1 coords.2 in
            (st, ws_extra w ∪ {[name1 st.1 coords.1]} ∪ {[name2 st.1 coords.2]})
          else (ws_state w, ws_extra w) in
        let continue (one_row path_column : nat) :=
          walk fuel' dim bfs_result nearest_distance
            (WalkState st extra_elements (current_index w)
               (predecessor (node_at bfs_result (current_index w))) one_row path_column) in
        if (d =? 1)%Z then
          asserting (is_column dim (current_index w)) distance_one_is_column
            (continue (w3_one_row w) (index_to_column dim (current_index w)))
        else if (d =? 0)%Z then
          asserting (is_row dim (current_index w)) distance_zero_is_row
            (continue (index_to_row dim (current_index w)) (w3_path_column w))
        else continue (w3_one_row w) (w3_path_column w)
    end.

(** The three rows and three columns of the W3, as recorded. *)
Record w3_indices : Type := W3 {
  zero_row : nat;
  one_row : nat;
  path_row : nat;
  zero_column : nat;
  one_column : nat;
  path_column : nat
}.

(** Lines 257-265. *)
Definition check_w3 {A : Type} (x : matrix_permuted) (w : w3_indices)
    (k : wheel_outcome A) : wheel_outcome A :=
  asserting (matrix_at x (one_row w) (one_column w) =? 1)%Z (w3_entry 1 1) (
  asserting (matrix_at x (one_row w) (zero_column w) =? 1)%Z (w3_entry 1 0) (
  asserting (matrix_at x (one_row w) (path_column w) =? 1)%Z (w3_entry 1 2) (
  asserting (matrix_at x (zero_row w) (one_column w) =? 1)%Z (w3_entry 0 1) (
  asserting (matrix_at x (zero_row w) (zero_column w) =? 1)%Z (w3_entry 0 0) (
  asserting (matrix_at x (zero_row w) (path_column w) =? 0)%Z (w3_entry 0 2) (
  asserting (matrix_at x (path_row w) (one_column w) =? 1)%Z (w3_entry 2 1) (
  asserting (matrix_at x (path_row w) (zero_column w) =? 0)%Z (w3_entry 2 0) (
  asserting (matrix_at x (path_row w) (path_column w) =? 1)%Z (w3_entry 2 2) k)))))))).

(** Lines 267-276 and 289-291: the rows go to positions 0, 1, 2. *)
Definition place_rows (st : wheel_state) (w : w3_indices) : wheel_state :=
  let '(st, w3_one_row, w3_zero_row) :=
    if bool_decide (one_row w < zero_row w)
    then (matroid_permute1 st (one_row w) (zero_row w), zero_row w, one_row w)
    else (st, one_row w, zero_row w) in
  let '(st, w3_path_row, w3_one_row) :=
    if bool_decide (path_row w < w3_one_row)
    then (matroid_permute1 st (path_row w) w3_one_row, w3_one_row, path_row w)
    else (st, path_row w, w3_one_row) in
  let st := matroid_permute1 st 0 w3_zero_row in
  let st := matroid_permute1 st 1 w3_one_row in
  matroid_permute1 st 2 w3_path_row.

(** Lines 278-287 and 293-295: the columns go to positions 0, 1, 2. *)
Definition place_columns (st : wheel_state) (w : w3_indices) : wheel_state :=
  let '(st, w3_one_column, w3_zero_column) :=
    if bool_decide (one_column w < zero_column w)
    then (matroid_permute2 st (one_column w) (zero_column w), zero_column w, one_column w)
    else (st, one_column w, zero_column w) in
  let '(st, w3_path_column, w3_one_column) :=
    if bool_decide (path_column w < w3_one_column)
    then (matroid_permute2 st (path_column w) w3_one_column, w3_one_column, path_column w)
    else (st, path_column w, w3_one_column) in
  let st := matroid_permute2 st 0 w3_zero_column in
  let st := matroid_permute2 st 1 w3_one_column in
  matroid_permute2 st 2 w3_path_column.

(** Lines 189-255: the end of the path, the zero column, the walk and the
    zero row.  Returns the state after the walk and the six indices. *)
Definition trace_path (st : wheel_state) (extra_elements : matroid_element_set)
    (block_width block_height : nat) (bfs_result : list bipartite_graph_bfs_node)
    : wheel_outcome (walk_state * w3_indices) :=
  let dim := search_dimensions st in
  let nearest_end := find_nearest_end bfs_result (end_nodes st block_width) in
  asserting (is_reachable (node_at bfs_result nearest_end)) nearest_end_reachable (
  let w3_one_column := index_to_column dim nearest_end in
  let nearest_distance := size_t (distance (node_at bfs_result nearest_end) + 1) in
  asserting (nearest_distance mod 2 =? 0)%Z nearest_distance_even (
  let last_index := nearest_end in
  let current_index := predecessor (node_at bfs_result last_index) in
  let w3_path_row := index_to_row dim current_index in
  match search_zero (matrix_at st.2 w3_path_row) block_width 0 block_width with
  | None => Failed zero_column_in_block
  | Some w3_zero_column =>
      wheel_bind
        (walk (2 + length bfs_result) dim bfs_result nearest_distance
           (WalkState st extra_elements last_index current_index 0 0))
        (fun w =>
           match search_zero (fun r => matrix_at (ws_state w).2 r (w3_path_column w))
                   block_height 0 block_height with
           | None => Failed zero_row_in_block
           | Some w3_zero_row =>
               Returned (w, W3 w3_zero_row (w3_one_row w) w3_path_row
                               w3_zero_column w3_one_column (w3_path_column w))
           end)
  end)).

(** Lines 189-298: a path was found. *)
Definition extract_w3 (st : wheel_state) (extra_elements : matroid_element_set)
    (block_width block_height : nat) (bfs_result : list bipartite_graph_bfs_node)
    : wheel_outcome wheel_result :=
  wheel_bind (trace_path st extra_elements block_width block_height bfs_result)
    (fun '(w, ix) =>
       check_w3 (ws_state w).2 ix
         (Returned (WheelResult separation_none
                      (place_columns (place_rows (ws_state w) ix) ix) (ws_extra w)))).

Definition find_wheel_minor (st : wheel_state) (extra_elements : matroid_element_set)
    : wheel_outcome wheel_result :=
  wheel_bind (grow_block st extra_elements)
    (fun b =>
       match b with
       | Early r => Returned r
       | Grown st extra_elements block_width block_height =>
           let '(found_path, bfs_result) := search_path st block_width block_height in
           if negb found_path then Returned (separate st extra_elements bfs_result)
           else extract_w3 st extra_elements block_width block_height bfs_result
       end).

End WheelModel.

(** *** Reference helpers, to run the search on concrete matrices

    Plain implementations of the seven helpers: stable insertion sorts for
    the reorderings and for [sort], a count of the leading series, the
    pivot over GF(2), and a level-by-level breadth-first search that stops
    at the first end node it reaches. *)

Fixpoint insert_sorted {A : Type} (less : A -> A -> bool) (a : A) (l : list A) : list A :=
  match l with
  | [] => [a]
  | b :: l' => if less b a then b :: insert_sorted less a l' else a :: l
  end.

Definition insertion_sort {A : Type} (less : A -> A -> bool) (l : list A) : list A :=
  fold_right (insert_sorted less) [] l.

(** Lexicographic [>] on lists of entries. *)
Fixpoint lex_greater (u v : list Z) : bool :=
  match u, v with
  | a :: u', b :: v' => (b <? a)%Z || ((a =? b)%Z && lex_greater u' v')
  | _, _ => false
  end.

(** The part of a list from position [first] up to, not including, [beyond],
    replaced by its image under [f]. *)
Definition on_range {A : Type} (first beyond : nat) (f : list A -> list A) (l : list A)
    : list A :=
  take first l ++ f (take (beyond - first) (drop first l)) ++ drop beyond l.

Definition underlying_at (rows : list (list Z)) (r c : nat) : Z :=
  match rows !! r with
  | Some row => default 0%Z (row !! c)
  | None => 0%Z
  end.

Definition demo_reorder_columns (st : wheel_state) (row_first row_beyond
    column_first column_beyond : nat) : wheel_state :=
  let key (c : nat) :=
    map (fun i => underlying_at (data st.2) (perm_at (mx_perm1 st.2) i) c)
      (seq row_first (row_beyond - row_first)) in
  let perm2 :=
    on_range column_first column_beyond
      (insertion_sort (fun a b => lex_greater (key a) (key b))) (mx_perm2 st.2) in
  (MatroidPermuted (names1 st.1) (names2 st.1) (md_perm1 st.1) perm2,
   MatrixPermuted (data st.2) (mx_perm1 st.2) perm2).

Definition demo_reorder_rows (st : wheel_state) (row_first row_beyond
    column_first column_beyond : nat) : wheel_state :=
  let key (r : nat) :=
    map (fun j => underlying_at (data st.2) r (perm_at (mx_perm2 st.2) j))
      (seq column_first (column_beyond - column_first)) in
  let perm1 :=
    on_range row_first row_beyond
      (insertion_sort (fun a b => lex_greater (key a) (key b))) (mx_perm1 st.2) in
  (MatroidPermuted (names1 st.1) (names2 st.1) perm1 (md_perm2 st.1),
   MatrixPermuted (data st.2) perm1 (mx_perm2 st.2)).

Definition holds_on (p : matrix_property) (values : list Z) : bool :=
  match p with
  | is_non_zero => existsb (fun v => negb (v =? 0)%Z) values
  | is_all_ones => forallb (fun v => (v =? 1)%Z) values
  end.

(** The length of the longest prefix whose members satisfy [p]. *)
Fixpoint leading {A : Type} (p : A -> bool) (l : list A) : nat :=
  match l with
  | a :: l' => if p a then S (leading p l') else 0
  | [] => 0
  end.

Definition demo_count_column_series (x : matrix_permuted) (row_first row_beyond
    column_first column_beyond : nat) (p : matrix_property) : nat :=
  leading
    (fun c => holds_on p (map (fun r => matrix_at x r c) (seq row_first (row_beyond - row_first))))
    (seq column_first (column_beyond - column_first)).

Definition demo_count_row_series (x : matrix_permuted) (row_first row_beyond
    column_first column_beyond : nat) (p : matrix_property) : nat :=
  leading
    (fun r => holds_on p (map (fun c => matrix_at x r c)
                            (seq column_first (column_beyond - column_first))))
    (seq row_first (row_beyond - row_first)).

(** The pivot over GF(2) on the entry at view position [(i, j)]: every
    entry [(r, c)] off the pivot row and the pivot column changes when both
    [(r, j)] and [(i, c)] are non-zero; the two names change places. *)
Definition demo_binary_pivot (st : wheel_state) (i j : nat) : wheel_state :=
  let ui := perm_at (mx_perm1 st.2) i in
  let uj := perm_at (mx_perm2 st.2) j in
  let rows := data st.2 in
  let pivoted :=
    imap (fun r row =>
            imap (fun c v =>
                    if negb (bool_decide (r = ui)) && negb (bool_decide (c = uj))
                       && negb (underlying_at rows r uj =? 0)%Z
                       && negb (underlying_at rows ui c =? 0)%Z
                    then (1 - v)%Z else v) row) rows in
  let ni := perm_at (md_perm1 st.1) i in
  let nj := perm_at (md_perm2 st.1) j in
  (MatroidPermuted (<[ni := default 0%Z (names2 st.1 !! nj)]> (names1 st.1))
     (<[nj := default 0%Z (names1 st.1 !! ni)]> (names2 st.1))
     (md_perm1 st.1) (md_perm2 st.1),
   MatrixPermuted pivoted (mx_perm1 st.2) (mx_perm2 st.2)).

(** The neighbours of a node: the columns (rows) with a non-zero entry in
    its row (column). *)
Definition demo_neighbours (m : nat -> nat -> Z) (dim : bipartite_graph_dimensions)
    (u : nat) : list nat :=
  if is_row dim u
  then map (column_to_index dim)
         (filter (fun j => m (index_to_row dim u) j <> 0%Z) (seq 0 (dim_width dim)))
  else map (row_to_index dim)
         (filter (fun i => m i (index_to_column dim u) <> 0%Z) (seq 0 (dim_height dim))).

(** One node [u] of the current level looks at its neighbours [vs].  The
    result is the search result so far, the next level so far, and whether
    an end node was reached. *)
Fixpoint demo_visit (u : nat) (d : Z) (vs : list nat)
    (acc : list bipartite_graph_bfs_node * list nat) : list bipartite_graph_bfs_node * list nat * bool :=
  match vs with
  | [] => (acc, false)
  | v :: vs' =>
      let dv := distance (node_at acc.1 v) in
      if (dv <? 0)%Z then
        let acc' := (<[v := BfsNode (d + 1) u]> acc.1, acc.2 ++ [v]) in
        if (dv =? -2)%Z then (acc', true) else demo_visit u d vs' acc'
      else demo_visit u d vs' acc
  end.

Fixpoint demo_level (m : nat -> nat -> Z) (dim : bipartite_graph_dimensions) (d : Z)
    (current : list nat) (acc : list bipartite_graph_bfs_node * list nat)
    : list bipartite_graph_bfs_node * list nat * bool :=
  match current with
  | [] => (acc, false)
  | u :: current' =>
      let '(acc', found) := demo_visit u d (demo_neighbours m dim u) acc in
      if found then (acc', true) else demo_level m dim d current' acc'
  end.

Fixpoint demo_levels (fuel : nat) (m : nat -> nat -> Z) (dim : bipartite_graph_dimensions)
    (d : Z) (current : list nat) (result : list bipartite_graph_bfs_node)
    : bool * list bipartite_graph_bfs_node :=
  match fuel, current with
  | S fuel', _ :: _ =>
      let '(acc, found) := demo_level m dim d current (result, []) in
      if found then (true, acc.1) else demo_levels fuel' m dim (d + 1) acc.2 acc.1
  | _, _ => (false, result)
  end.

Definition demo_bfs (m : nat -> nat -> Z) (dim : bipartite_graph_dimensions)
    (starts ends : list nat) (reach_all : bool) : bool * list bipartite_graph_bfs_node :=
  let size := dim_height dim + dim_width dim in
  let result := replicate size (BfsNode (-1) 0) in
  let result := fold_left (fun r s => <[s := BfsNode 0 s]> r) starts result in
  let result := fold_left (fun r e => <[e := BfsNode (-2) 0]> r) ends result in
  demo_levels size m dim 0 starts result.

Definition demo_helpers : WheelHelpers := {|
  matroid_reorder_columns := demo_reorder_columns;
  matroid_reorder_rows := demo_reorder_rows;
  matrix_count_property_column_series := demo_count_column_series;
  matrix_count_property_row_series := demo_count_row_series;
  matroid_binary_pivot := demo_binary_pivot;
  bipartite_graph_bfs := demo_bfs;
  sort := fun perm less => insertion_sort less perm
|}.

(** The view of a matrix with identity permutations; rows are named
    [-1, -2, ...] and columns [1, 2, ...]. *)
Definition initial_view (rows : list (list Z)) (columns : nat) : wheel_state :=
  (MatroidPermuted (map (fun i => (- Z.of_nat (S i))%Z) (seq 0 (length rows)))
     (map (fun j => Z.of_nat (S j)) (seq 0 columns))
     (seq 0 (length rows)) (seq 0 columns),
   MatrixPermuted rows (seq 0 (length rows)) (seq 0 columns)).

(** A 4x4 matrix with a W3 minor that takes one pivot to uncover. *)
Definition demo_wheel : wheel_state :=
  initial_view [[1; 1; 0; 0]; [1; 1; 1; 0]; [0; 0; 1; 1]; [0; 1; 0; 1]]%Z 4.

(** [demo_wheel] with its block of ones grown: rows 2 and 3 have changed
    places and the block is 2 by 2. *)
Definition demo_wheel_block : wheel_state :=
  (MatroidPermuted (names1 demo_wheel.1) (names2 demo_wheel.1) [0; 1; 3; 2] [0; 1; 2; 3],
   MatrixPermuted (data demo_wheel.2) [0; 1; 3; 2] [0; 1; 2; 3]).

(** The search on [demo_wheel_block]: the path from row 1 over column 2,
    row 3, column 3 and row 2 to column 1. *)
Definition demo_wheel_search : list bipartite_graph_bfs_node :=
  [BfsNode 0 0; BfsNode 0 1; BfsNode 4 7; BfsNode 2 6;
   BfsNode (-2) 0; BfsNode 5 2; BfsNode 1 1; BfsNode 3 3].

(** A 4x4 matrix that is the direct sum of two blocks of ones. *)
Definition demo_blocks : wheel_state :=
  initial_view [[1; 1; 0; 0]; [1; 1; 0; 0]; [0; 0; 1; 1]; [0; 0; 1; 1]]%Z 4.

(** The search on [demo_blocks]: no column of the block is reached. *)
Definition demo_blocks_search : list bipartite_graph_bfs_node :=
  [BfsNode 0 0; BfsNode 0 1; BfsNode (-1) 0; BfsNode (-1) 0;
   BfsNode (-2) 0; BfsNode (-2) 0; BfsNode (-1) 0; BfsNode (-1) 0].

(** A 4x3 matrix with entries -1: the rows below its 2 by 2 block of ones
    have no 1 in both columns of the block, and the last has no zero
    there. *)
Definition demo_ternary : wheel_state :=
  initial_view [[1; 1; 1]; [1; 1; -1]; [1; -1; 0]; [-1; 1; -1]]%Z 3.

(** The search on [demo_ternary]: the path from row 0 over column 2 and
    row 3 to column 0. *)
Definition demo_ternary_search : list bipartite_graph_bfs_node :=
  [BfsNode 0 0; BfsNode 0 1; BfsNode (-1) 0; BfsNode 2 6;
   BfsNode 3 3; BfsNode (-2) 0; BfsNode 1 0].

(** *** What [find_wheel_minor] relies on from its helpers *)

(** [perm] is a permutation of [0, ..., length perm - 1]. *)
Definition is_permutation (perm : list nat) : Prop := perm ≡ₚ seq 0 (length perm).

(** The contract of one call [sort (permutation, less)]: [output] is a
    rearrangement of [input] in which no entry is [less] than an earlier
    one. *)
Definition sorted_by (less : nat -> nat -> bool) (input output : list nat) : Prop :=
  output ≡ₚ input /\ StronglySorted (fun a b => less b a = false) output.

(** The array [reachable] when the row permutation is sorted (line 168) and
    when the column permutation is sorted (line 183). *)
Definition row_marks (st : wheel_state) (bfs_result : list bipartite_graph_bfs_node)
    : list Z :=
  (mark_rows st bfs_result (replicate (size1 st.2) 0%Z)).1.

Definition column_marks (st : wheel_state) (bfs_result : list bipartite_graph_bfs_node)
    : list Z :=
  (mark_columns st bfs_result (resize (size2 st.2) 0%Z (row_marks st bfs_result))).1.

(** The two calls of [sort] in [separate] meet the contract. *)
Definition sorts_as_specified `{WheelHelpers} (st : wheel_state)
    (bfs_result : list bipartite_graph_bfs_node) : Prop :=
  sorted_by (vector_less (row_marks st bfs_result)) (mx_perm1 st.2)
    (sort (mx_perm1 st.2) (vector_less (row_marks st bfs_result)))
  /\ sorted_by (vector_less (column_marks st bfs_result)) (mx_perm2 st.2)
       (sort (mx_perm2 st.2) (vector_less (column_marks st bfs_result))).

(** Whether the search reached the row (column) at view position [i]. *)
Definition row_reached (st : wheel_state) (bfs_result : list bipartite_graph_bfs_node)
    (i : nat) : bool :=
  is_reachable (node_at bfs_result (row_to_index (search_dimensions st) i)).

Definition column_reached (st : wheel_state) (bfs_result : list bipartite_graph_bfs_node)
    (j : nat) : bool :=
  is_reachable (node_at bfs_result (column_to_index (search_dimensions st) j)).

(** The contract of [bipartite_graph_bfs] that the walk back relies on: the
    result has one node per row and per column; distances are [int]s below
    [INT_MAX]; a node at distance 0 is a start node and its own
    predecessor; a node at a positive distance has a predecessor one step
    nearer, on the other side of the graph, joined to it by a non-zero
    entry of the searched matrix. *)
Definition search_tree (st : wheel_state) (block_width block_height : nat)
    (bfs_result : list bipartite_graph_bfs_node) : Prop :=
  let dim := search_dimensions st in
  length bfs_result = size1 st.2 + size2 st.2
  /\ forall v, v < length bfs_result ->
       (distance (node_at bfs_result v) < 2 ^ 31 - 1)%Z
       /\ (distance (node_at bfs_result v) = 0%Z ->
             v < block_height /\ predecessor (node_at bfs_result v) = v)
       /\ ((0 < distance (node_at bfs_result v))%Z ->
             let u := predecessor (node_at bfs_result v) in
             u < length bfs_result
             /\ distance (node_at bfs_result u) = (distance (node_at bfs_result v) - 1)%Z
             /\ is_row dim u = negb (is_row dim v)
             /\ modified_matrix st.2 block_height block_width
                  (indexes_to_coordinates dim u v).1 (indexes_to_coordinates dim u v).2
                <> 0%Z).

(** The contract of a [true] result: an end node was reached. *)
Definition search_found (st : wheel_state) (block_width : nat)
    (bfs_result : list bipartite_graph_bfs_node) : Prop :=
  exists e, e ∈ end_nodes st block_width /\ is_reachable (node_at bfs_result e) = true.

(** A pivot leaves the four permutations as they are. *)
Definition pivot_keeps_permutations `{WheelHelpers} : Prop :=
  forall (st : wheel_state) (i j : nat),
    mx_perm1 (matroid_binary_pivot st i j).2 = mx_perm1 st.2
    /\ mx_perm2 (matroid_binary_pivot st i j).2 = mx_perm2 st.2
    /\ md_perm1 (matroid_binary_pivot st i j).1 = md_perm1 st.1
    /\ md_perm2 (matroid_binary_pivot st i j).1 = md_perm2 st.1.

(** The [m] steps back from node [v]: the pairs (current, last) of the
    iterations of the walk, the node nearest to [v] first. *)
Fixpoint walk_steps (bfs_result : list bipartite_graph_bfs_node) (m : nat) (v : nat)
    : list (nat * nat) :=
  match m with
  | O => []
  | S m' =>
      (predecessor (node_at bfs_result v), v)
        :: walk_steps bfs_result m' (predecessor (node_at bfs_result v))
  end.

(** One pivot of the walk with its two insertions into [extra_elements]. *)
Definition pivot_and_record `{WheelHelpers} (acc : wheel_state * matroid_element_set)
    (coords : nat * nat) : wheel_state * matroid_element_set :=
  let st := matroid_binary_pivot acc.1 coords.1 coords.2 in
  (st, acc.2 ∪ {[name1 st.1 coords.1]} ∪ {[name2 st.1 coords.2]}).

(** The places where the walk back from [nearest_end] pivots: the edges
    (current, last) whose node [current] has an even distance that is at
    least 2 and, plus 2, below [nearest_distance]. *)
Definition pivot_places (st : wheel_state) (bfs_result : list bipartite_graph_bfs_node)
    (nearest_end : nat) : list (nat * nat) :=
  let d := distance (node_at bfs_result nearest_end) in
  map (fun step => indexes_to_coordinates (search_dimensions st) step.1 step.2)
    (filter (fun step => pivots_at (distance (node_at bfs_result step.1)) (d + 1) = true)
       (walk_steps bfs_result (Z.to_nat d) nearest_end)).

(** The node [k] steps back from [v] along the predecessors. *)
Fixpoint ancestor (bfs_result : list bipartite_graph_bfs_node) (k : nat) (v : nat) : nat :=
  match k with
  | O => v
  | S k' => ancestor bfs_result k' (predecessor (node_at bfs_result v))
  end.

(** The transposition of positions [i] and [j]. *)
Definition transpose (i j k : nat) : nat :=
  if decide (k = i) then j else if decide (k = j) then i else k.

(** The contract of the block-growing helpers (reorderings and counts of
    [is_all_ones]): the block cannot be grown.  Every row below it has an
    entry other than 1 in one of the block's columns, and every column right
    of it has one in one of the block's rows. *)
Definition block_grown (st : wheel_state) (block_width block_height : nat) : Prop :=
  (forall i, block_height <= i < size1 st.2 ->
     exists j, j < block_width /\ matrix_at st.2 i j <> 1%Z)
  /\ (forall j, block_width <= j < size2 st.2 ->
        exists i, i < block_height /\ matrix_at st.2 i j <> 1%Z).

(** A restriction on the matrix, beyond what the block-growing helpers
    establish: every row below the block has a zero in one of the block's
    columns, and every column right of it has a zero in one of the block's
    rows.  On a matrix of zeros and ones this is [block_grown]; on a matrix
    with another entry, such as -1, a grown block need not have it. *)
Definition block_maximal (st : wheel_state) (block_width block_height : nat) : Prop :=
  (forall i, block_height <= i < size1 st.2 ->
     exists j, j < block_width /\ matrix_at st.2 i j = 0%Z)
  /\ (forall j, block_width <= j < size2 st.2 ->
        exists i, i < block_height /\ matrix_at st.2 i j = 0%Z).

(** The contract of [bipartite_graph_bfs] for a breadth-first search that
    stops at the nearest end node: start nodes are at distance 0, their
    neighbours in the searched matrix at distance 1, and all end nodes that
    were reached are equally far. *)
Definition search_nearest (st : wheel_state) (block_width block_height : nat)
    (bfs_result : list bipartite_graph_bfs_node) : Prop :=
  (forall i, i < block_height -> distance (node_at bfs_result i) = 0%Z)
  /\ (forall i j, i < block_height -> j < size2 st.2 ->
        modified_matrix st.2 block_height block_width i j <> 0%Z ->
        distance (node_at bfs_result (size1 st.2 + j)) = 1%Z)
  /\ (forall e e', e ∈ end_nodes st block_width -> e' ∈ end_nodes st block_width ->
        is_reachable (node_at bfs_result e) = true ->
        is_reachable (node_at bfs_result e') = true ->
        distance (node_at bfs_result e) = distance (node_at bfs_result e')).

(** A pivot at [(r, c)] leaves every other row with a zero in column [c]
    as it is. *)
Definition pivot_keeps_rows `{WheelHelpers} : Prop :=
  forall (st : wheel_state) (r c i j : nat),
    i <> r -> matrix_at st.2 i c = 0%Z ->
    matrix_at (matroid_binary_pivot st r c).2 i j = matrix_at st.2 i j.

(** The contract of [bipartite_graph_bfs] for a search that found no path:
    the rows at distance 0 are the start rows; the columns that carry [-2]
    are the end columns, none of which was reached; and a non-zero entry of
    the searched matrix joins two nodes that were both reached or both not
    reached. *)
Definition search_exhausted (st : wheel_state) (block_width block_height : nat)
    (bfs_result : list bipartite_graph_bfs_node) : Prop :=
  (forall i, i < size1 st.2 ->
     distance (node_at bfs_result (row_to_index (search_dimensions st) i)) = 0%Z
     <-> i < block_height)
  /\ (forall j, j < size2 st.2 ->
        distance (node_at bfs_result (column_to_index (search_dimensions st) j)) = (-2)%Z
        <-> j < block_width)
  /\ (forall i j, i < size1 st.2 -> j < size2 st.2 ->
        modified_matrix st.2 block_height block_width i j <> 0%Z ->
        row_reached st bfs_result i = column_reached st bfs_result j).

(** The contract of the block-growing helpers (reorderings, counts and the
    pivot at the corner): the block lies within the matrix and holds ones. *)
Definition block_of_ones (st : wheel_state) (block_width block_height : nat) : Prop :=
  block_height <= size1 st.2
  /\ block_width <= size2 st.2
  /\ forall i j, i < block_height -> j < block_width -> matrix_at st.2 i j = 1%Z.

(** *** The loops of [find_wheel_minor], seen apart *)

(** The two marking loops of lines 158-165 and 174-181 are instances of one
    loop, here after [k] iterations. *)
Definition mark (perm : list nat) (value : nat -> Z) (hit : Z -> bool) (k : nat)
    (acc : list Z * Z) : list Z * Z :=
  fold_left
    (fun '(reachable, count) i =>
       (<[perm_at perm i := value i]> reachable,
        if hit (value i) then size_t (count + 1) else count))
    (seq 0 k) acc.

(** The loop of lines 191-195 from any initial value. *)
Definition find_nearest_end_from (bfs_result : list bipartite_graph_bfs_node)
    (ends : list nat) (start : nat) : nat :=
  fold_left
    (fun nearest_end e => if is_reachable (node_at bfs_result e) then e else nearest_end)
    ends start.

(** The six exchanges of lines 267-276 and 289-291 on a permutation. *)
Definition front_three (perm : list nat) (z o p : nat) : list nat :=
  let '(perm, o, z) :=
    if bool_decide (o < z) then (swap_positions perm o z, z, o) else (perm, o, z) in
  let '(perm, p, o) :=
    if bool_decide (p < o) then (swap_positions perm p o, o, p) else (perm, p, o) in
  swap_positions (swap_positions (swap_positions perm 0 z) 1 o) 2 p.

(** *** What the walk back relies on to end with a W3 *)

(** The view is a binary matrix: every position holds an entry, 0 or 1. *)
Definition is_binary (x : matrix_permuted) : Prop :=
  forall i j, i < size1 x -> j < size2 x ->
    exists row v,
      data x !! perm_at (mx_perm1 x) i = Some row
      /\ row !! perm_at (mx_perm2 x) j = Some v
      /\ (v = 0%Z \/ v = 1%Z).

(** The contract of [bipartite_graph_bfs] for a breadth-first search that
    stops at the first end node it reaches: a node that is two steps or
    more nearer than that end node has seen all its neighbours in the
    searched matrix, which are therefore at most one step farther. *)
Definition search_layered (st : wheel_state) (block_width block_height : nat)
    (bfs_result : list bipartite_graph_bfs_node) : Prop :=
  let dim := search_dimensions st in
  forall e i j,
    e ∈ end_nodes st block_width ->
    is_reachable (node_at bfs_result e) = true ->
    i < size1 st.2 -> j < size2 st.2 ->
    modified_matrix st.2 block_height block_width i j <> 0%Z ->
    let dr := distance (node_at bfs_result (row_to_index dim i)) in
    let dc := distance (node_at bfs_result (column_to_index dim j)) in
    let far := distance (node_at bfs_result e) in
    ((0 <= dr)%Z -> (dr + 2 <= far)%Z -> (0 <= dc <= dr + 1)%Z)
    /\ ((0 <= dc)%Z -> (dc + 2 <= far)%Z -> (0 <= dr <= dc + 1)%Z).

(** The contract of [matroid_binary_pivot] on a binary matrix, at a one:
    the result is binary, and an entry off the pivot row and the pivot
    column changes exactly when its row has a one in the pivot column and
    its column has a one in the pivot row. *)
Definition pivot_is_binary `{WheelHelpers} : Prop :=
  forall (st : wheel_state) (r c : nat),
    is_permutation (mx_perm1 st.2) -> is_permutation (mx_perm2 st.2) ->
    is_binary st.2 ->
    r < size1 st.2 -> c < size2 st.2 ->
    matrix_at st.2 r c = 1%Z ->
    is_binary (matroid_binary_pivot st r c).2
    /\ forall i j, i < size1 st.2 -> j < size2 st.2 -> i <> r -> j <> c ->
         matrix_at (matroid_binary_pivot st r c).2 i j
         = ((matrix_at st.2 i j + matrix_at st.2 i c * matrix_at st.2 r j) mod 2)%Z.

(** The node of the path to [e], which is [D] steps long, at distance [d]. *)
Definition path_node (bfs_result : list bipartite_graph_bfs_node) (e D d : nat) : nat :=
  ancestor bfs_result (D - d) e.

(** The distance of the column of the path to which the path row is
    joined when the walk, [D] steps long, has [m] steps to go: each pivot
    moves it two steps nearer to the start. *)
Definition attachment (D m : nat) : nat :=
  Nat.max 1 (Nat.min (D - 2) (if Z.even (Z.of_nat m) then m - 1 else m)).

(** What holds of the matrix [s] when the walk back from the column [j],
    [D] steps long, has [m] steps to go: the permutations are those of
    [st]; the matrix is binary; the rows at a distance below [m] are those
    of [st]; the path row has a one in the column it is joined to, zeros
    in the reached columns that are two steps or more nearer than that
    one, a one in column [j] and a zero in column [zc]. *)
Definition walk_invariant (st : wheel_state) (bfs_result : list bipartite_graph_bfs_node)
    (j D zc : nat) (m : nat) (s : wheel_state) : Prop :=
  let e := size1 st.2 + j in
  let p := path_node bfs_result e D (D - 1) in
  mx_perm1 s.2 = mx_perm1 st.2
  /\ mx_perm2 s.2 = mx_perm2 st.2
  /\ is_binary s.2
  /\ (forall i c, i < size1 st.2 -> c < size2 st.2 ->
        (0 <= distance (node_at bfs_result i) <= Z.of_nat m - 1)%Z ->
        matrix_at s.2 i c = matrix_at st.2 i c)
  /\ matrix_at s.2 p (path_node bfs_result e D (attachment D m) - size1 st.2) = 1%Z
  /\ (forall c, c < size2 st.2 ->
        (0 <= distance (node_at bfs_result (size1 st.2 + c))
         <= Z.of_nat (attachment D m) - 2)%Z ->
        matrix_at s.2 p c = 0%Z)
  /\ matrix_at s.2 p j = 1%Z
  /\ matrix_at s.2 p zc = 0%Z.

(* ===================================================================== *)
(** ** Properties of [regularity.c] *)
(* ===================================================================== *)

(** *** Reasoning about runs *)

Lemma bind_Done {A B : Type} (m : M A) (k : A -> M B) (h h' : heap) (b : B) :
  bind m k h = Done b h' <-> exists a h1, m h = Done a h1 /\ k a h1 = Done b h'.
Proof.
  unfold bind. split.
  - destruct (m h) as [a h1| | |] eqn:E; try discriminate. eauto.
  - intros (a & h1 & -> & Hk). exact Hk.
Qed.

Lemma CMR_CALL_Done {R : Type} (call : M CMR_ERROR) (onerr : CMR_ERROR -> R)
    (k : M R) (h h' : heap) (r : R) :
  CMR_CALL call onerr k h = Done r h' <->
  (exists h1, call h = Done CMR_OKAY h1 /\ k h1 = Done r h') \/
  (exists e, e <> CMR_OKAY /\ call h = Done e h' /\ r = onerr e).
Proof.
  unfold CMR_CALL. rewrite bind_Done. split.
  - intros (e & h1 & Hc & Hk). destruct e; [left; eauto | right ..];
      inversion Hk; subst; eexists; (split; [|split]); eauto; discriminate.
  - intros [(h1 & Hc & Hk) | (e & Hne & Hc & ->)].
    + exists CMR_OKAY, h1. auto.
    + exists e, h'. split; [exact Hc|]. destruct e; [congruence | reflexivity ..].
Qed.

Lemma CMR_CALL_out_Done {V R : Type} (call : M (CMR_ERROR * V))
    (onerr : CMR_ERROR -> R) (k : V -> M R) (h h' : heap) (r : R) :
  CMR_CALL_out call onerr k h = Done r h' <->
  (exists v h1, call h = Done (CMR_OKAY, v) h1 /\ k v h1 = Done r h') \/
  (exists e v, e <> CMR_OKAY /\ call h = Done (e, v) h' /\ r = onerr e).
Proof.
  unfold CMR_CALL_out. rewrite bind_Done. split.
  - intros ([e v] & h1 & Hc & Hk). simpl in Hk.
    destruct e; [left; eauto | right ..];
      inversion Hk; subst; do 2 eexists; (split; [|split]); eauto; discriminate.
  - intros [(v & h1 & Hc & Hk) | (e & v & Hne & Hc & ->)].
    + exists (CMR_OKAY, v), h1. auto.
    + exists (e, v), h'. split; [exact Hc|]. simpl.
      destruct e; [congruence | reflexivity ..].
Qed.

(** A stage wrapped in [CMR_CALL] and followed by [return CMR_OKAY] returns
    what the stage returns. *)
Lemma CMR_CALL_tail (call : M CMR_ERROR) (h : heap) :
  CMR_CALL call id (ret CMR_OKAY) h = call h.
Proof.
  unfold CMR_CALL, bind, ret. destruct (call h) as [e h1| | |]; try reflexivity.
  destruct e; reflexivity.
Qed.

(** *** The queue *)

Lemma QueueAdd_run (h : heap) (q t : ptr) (qu : DecompositionQueue)
    (tk : DecompositionTask) :
  queues h !! q = Some qu ->
  tasks h !! t = Some tk ->
  CMRregularityQueueAdd q t h =
    Done tt (put_queue q (set_head (Some t) qu) (put_task t (set_next (head qu) tk) h)).
Proof.
  intros Hq Ht.
  unfold CMRregularityQueueAdd, bind, load_queue, load_task, store_task, store_queue.
  rewrite Hq, Ht. simpl. rewrite Ht. simpl. rewrite Hq. reflexivity.
Qed.

Lemma QueueRemove_run (h : heap) (q t : ptr) (qu : DecompositionQueue)
    (tk : DecompositionTask) :
  queues h !! q = Some qu ->
  head qu = Some t ->
  tasks h !! t = Some tk ->
  CMRregularityQueueRemove q h =
    Done t (put_task t (set_next None tk) (put_queue q (set_head (next tk) qu) h)).
Proof.
  intros Hq Hh Ht.
  unfold CMRregularityQueueRemove, bind, load_queue.
  rewrite Hq, Hh. unfold load_task. rewrite Ht.
  unfold store_queue. rewrite Hq. unfold store_task. simpl. rewrite Ht.
  reflexivity.
Qed.

Lemma QueueRemove_empty (h : heap) (q : ptr) (qu : DecompositionQueue) :
  queues h !! q = Some qu ->
  head qu = None ->
  CMRregularityQueueRemove q h = Undefined.
Proof.
  intros Hq Hh. unfold CMRregularityQueueRemove, bind, load_queue.
  rewrite Hq, Hh. reflexivity.
Qed.

Lemma QueueEmpty_run (h : heap) (q : ptr) (qu : DecompositionQueue) :
  queues h !! q = Some qu ->
  CMRregularityQueueEmpty q h = Done (bool_decide (head qu = None)) h.
Proof.
  intros Hq. unfold CMRregularityQueueEmpty, bind, load_queue. rewrite Hq.
  reflexivity.
Qed.

Lemma chain_functional (h : heap) (s : option ptr) (l1 l2 : list ptr) :
  chain h s l1 -> chain h s l2 -> l1 = l2.
Proof.
  intros H1. revert l2. induction H1 as [|t tk l Ht _ IH]; intros l2 H2.
  - inversion H2. reflexivity.
  - inversion H2 as [|t' tk' l' Ht' Hl']; subst.
    rewrite Ht in Ht'. injection Ht' as <-. f_equal. apply IH. exact Hl'.
Qed.

Lemma chain_from_member (h : heap) (s : option ptr) (l : list ptr) (x : ptr) :
  chain h s l -> x ∈ l ->
  exists l2, chain h (Some x) (x :: l2) /\ length (x :: l2) <= length l.
Proof.
  induction 1 as [|t tk l Ht Hl IH]; intros Hx.
  - inversion Hx.
  - apply elem_of_cons in Hx as [->|Hx].
    + exists l. split; [econstructor; eauto | lia].
    + destruct (IH Hx) as (l2 & Hc & Hlen). exists l2. split; [exact Hc|].
      simpl in *. lia.
Qed.

(** A chain that ends never passes twice through a task. *)
Lemma chain_head_fresh (h : heap) (t : ptr) (l : list ptr) :
  chain h (Some t) (t :: l) -> t ∉ l.
Proof.
  intros Hc Hin. inversion Hc as [|t' tk l' Ht Hl]; subst.
  destruct (chain_from_member _ _ _ _ Hl Hin) as (l2 & Hc2 & Hlen).
  pose proof (chain_functional _ _ _ _ Hc Hc2) as Heq.
  injection Heq as ->. simpl in Hlen. lia.
Qed.

Lemma chain_put_task (h : heap) (s : option ptr) (l : list ptr) (t : ptr)
    (tk : DecompositionTask) :
  chain h s l -> t ∉ l -> chain (put_task t tk h) s l.
Proof.
  induction 1 as [|x xk l Hx Hl IH]; intros Hnot.
  - constructor.
  - apply not_elem_of_cons in Hnot as [Hne Hnot].
    econstructor; [|apply IH; exact Hnot].
    simpl. rewrite lookup_insert_ne by congruence. exact Hx.
Qed.

Lemma chain_put_queue (h : heap) (s : option ptr) (l : list ptr) (q : ptr)
    (qu : DecompositionQueue) :
  chain h s l -> chain (put_queue q qu h) s l.
Proof.
  induction 1; econstructor; eauto.
Qed.

(** Pushing onto a queue that holds [l] gives a queue that holds [t :: l]. *)
Lemma QueueAdd_holds (h : heap) (q t : ptr) (l : list ptr) (tk : DecompositionTask) :
  queue_holds h q l ->
  tasks h !! t = Some tk ->
  t ∉ l ->
  exists h1, CMRregularityQueueAdd q t h = Done tt h1 /\ queue_holds h1 q (t :: l)
    /\ decs h1 = decs h.
Proof.
  intros (qu & Hq & Hc) Ht Hnot.
  eexists. split; [apply QueueAdd_run; eauto|]. split; [|reflexivity].
  exists (set_head (Some t) qu). split.
  - simpl. apply lookup_insert_eq.
  - simpl. apply chain_put_queue. econstructor.
    + simpl. apply lookup_insert_eq.
    + simpl. apply chain_put_task; assumption.
Qed.

(** Popping from a queue that holds [t :: l] returns [t], whose [next] link
    is cleared, and leaves a queue that holds [l]. *)
Lemma QueueRemove_holds (h : heap) (q t : ptr) (l : list ptr) :
  queue_holds h q (t :: l) ->
  exists h1 tk, CMRregularityQueueRemove q h = Done t h1 /\ queue_holds h1 q l
    /\ tasks h1 !! t = Some tk /\ next tk = None /\ decs h1 = decs h.
Proof.
  intros (qu & Hq & Hc).
  assert (Hhead : head qu = Some t) by (inversion Hc; reflexivity).
  rewrite Hhead in Hc.
  pose proof (chain_head_fresh _ _ _ Hc) as Hfresh.
  inversion Hc as [|t' tk l' Ht Hl]; subst.
  exists (put_task t (set_next None tk) (put_queue q (set_head (next tk) qu) h)),
    (set_next None tk).
  split; [apply QueueRemove_run; auto|].
  split; [|split; [|split]].
  - exists (set_head (next tk) qu). split.
    + simpl. apply lookup_insert_eq.
    + simpl. apply chain_put_task; [|exact Hfresh]. apply chain_put_queue. exact Hl.
  - simpl. apply lookup_insert_eq.
  - reflexivity.
  - reflexivity.
Qed.

(** C5. The task queue is LIFO.  For every queue and every task of the
    store, [CMRregularityQueueAdd] makes the task the head (its [next] link
    is the old head), so that the queue is not empty afterwards, and a
    [CMRregularityQueueRemove] right after it returns that very task with
    its [next] link cleared and puts the old head back; on any non-empty
    queue [CMRregularityQueueRemove] returns the head, cleared, and makes the
    head's successor the new head; on an empty queue its result is
    undefined.  In terms of contents: a push onto a queue holding [l] gives
    [t :: l], a pop from [t :: l] gives [t] and leaves [l]. *)
Theorem queue_is_lifo (h : heap) (q t : ptr) (qu : DecompositionQueue)
    (tk : DecompositionTask) :
  queues h !! q = Some qu ->
  tasks h !! t = Some tk ->
  (exists h1,
     CMRregularityQueueAdd q t h = Done tt h1
     /\ queues h1 !! q = Some (Queue (Some t) (foundIrregularity qu))
     /\ tasks h1 !! t = Some (set_next (head qu) tk)
     /\ CMRregularityQueueEmpty q h1 = Done false h1
     /\ exists h2,
          CMRregularityQueueRemove q h1 = Done t h2
          /\ queues h2 !! q = Some qu
          /\ tasks h2 !! t = Some (set_next None tk)
          /\ (forall l, queue_holds h q l -> t ∉ l ->
                queue_holds h1 q (t :: l) /\ queue_holds h2 q l))
  /\ (forall t0 tk0, head qu = Some t0 -> tasks h !! t0 = Some tk0 ->
        exists h3,
          CMRregularityQueueRemove q h = Done t0 h3
          /\ queues h3 !! q = Some (Queue (next tk0) (foundIrregularity qu))
          /\ tasks h3 !! t0 = Some (set_next None tk0)
          /\ (forall l, queue_holds h q (t0 :: l) -> queue_holds h3 q l))
  /\ (head qu = None -> CMRregularityQueueRemove q h = Undefined).
Proof.
  intros Hq Ht. split; [|split].
  - set (h1 := put_queue q (set_head (Some t) qu) (put_task t (set_next (head qu) tk) h)).
    assert (Hq1 : queues h1 !! q = Some (set_head (Some t) qu))
      by (simpl; apply lookup_insert_eq).
    assert (Ht1 : tasks h1 !! t = Some (set_next (head qu) tk))
      by (simpl; apply lookup_insert_eq).
    exists h1. split; [apply QueueAdd_run; assumption|].
    split; [exact Hq1|]. split; [exact Ht1|].
    split; [rewrite (QueueEmpty_run _ _ _ Hq1); reflexivity|].
    eexists. split; [eapply QueueRemove_run; eauto|].
    split; [|split].
    + simpl. rewrite lookup_insert_eq. destruct qu; reflexivity.
    + simpl. rewrite lookup_insert_eq. reflexivity.
    + intros l Hl Hnot.
      destruct (QueueAdd_holds _ _ _ _ _ Hl Ht Hnot) as (h1' & Hrun & Hholds & _).
      rewrite (QueueAdd_run _ _ _ _ _ Hq Ht) in Hrun. injection Hrun as <-.
      split; [exact Hholds|].
      destruct (QueueRemove_holds _ _ _ _ Hholds) as (h2' & tk2 & Hrun2 & Hholds2 & _).
      erewrite QueueRemove_run in Hrun2 by eauto. injection Hrun2 as <-.
      exact Hholds2.
  - intros t0 tk0 Hh Ht0. eexists. split; [eapply QueueRemove_run; eauto|].
    split; [|split].
    + simpl. apply lookup_insert_eq.
    + simpl. apply lookup_insert_eq.
    + intros l Hl.
      destruct (QueueRemove_holds _ _ _ _ Hl) as (h3' & tk3 & Hrun & Hholds & _).
      erewrite QueueRemove_run in Hrun by eauto. injection Hrun as <-.
      exact Hholds.
  - intros Hh. eapply QueueRemove_empty; eauto.
Qed.

(** *** The dispatcher *)

Lemma direct_or_small_some (prm : CMR_REGULAR_PARAMS) (D : CMR_MATROID_DEC)
    (m : CMR_CHRMAT) :
  matrix D = Some m ->
  direct_or_small prm D =
    Some (directGraphicness prm || (numRows m <=? 3)%Z || (numColumns m <=? 3)%Z).
Proof.
  intros Hm. unfold direct_or_small. rewrite Hm.
  destruct (directGraphicness prm); reflexivity.
Qed.

(** C1. For every task of the store whose node carries a matrix,
    [CMRregularityTaskRun] is one invocation of one stage: the stage of the
    first row of the specification's decision table whose guard holds on
    the node.  The result and the store it returns are those of that single
    invocation. *)
Theorem task_run_first_matching_rule `{Collaborators} (h : heap) (task queue : ptr)
    (T : DecompositionTask) (D : CMR_MATROID_DEC) (m : CMR_CHRMAT) :
  tasks h !! task = Some T ->
  decs h !! dec T = Some D ->
  matrix D = Some m ->
  exists s : Stage,
    first_match (decision_table (params T) D (numRows m) (numColumns m)) = Some s
    /\ CMRregularityTaskRun task queue h = run_stage s task queue h.
Proof.
  intros HT HD Hm.
  unfold CMRregularityTaskRun, bind, load_task, load_dec. rewrite HT, HD.
  rewrite (direct_or_small_some _ _ _ Hm).
  unfold decision_table, first_match.
  destruct (testedTwoConnected D); simpl;
    [|eexists; split; [reflexivity | apply CMR_CALL_tail]].
  destruct (graphicness D =? 0)%Z, (cographicness D =? 0)%Z;
    destruct (directGraphicness (params T) || (numRows m <=? 3)%Z
              || (numColumns m <=? 3)%Z); simpl;
    try (eexists; split; [reflexivity | apply CMR_CALL_tail]).
  all: destruct (testedR10 D); simpl;
    [|eexists; split; [reflexivity | apply CMR_CALL_tail]].
  all: destruct (testedSeriesParallel D); simpl;
    [|eexists; split; [reflexivity | apply CMR_CALL_tail]].
  all: destruct (denseMatrix D); simpl;
    [eexists; split; [reflexivity | apply CMR_CALL_tail]|].
  all: destruct (nestedMinorsMatrix D); simpl;
    [|eexists; split; [reflexivity | apply CMR_CALL_tail]].
  all: destruct (nestedMinorsLastGraphic D =? SIZE_MAX)%Z; simpl;
    [eexists; split; [reflexivity | apply CMR_CALL_tail]|].
  all: destruct (nestedMinorsLastCographic D =? SIZE_MAX)%Z; simpl;
    eexists; (split; [reflexivity | apply CMR_CALL_tail]).
Qed.

(** *** The driver loop *)

Lemma loop_condition_run (prm : CMR_REGULAR_PARAMS) (h : heap) (q : ptr)
    (qu : DecompositionQueue) :
  queues h !! q = Some qu ->
  loop_condition prm q h =
    Done (negb (bool_decide (head qu = None))
          && (completeTree prm || negb (foundIrregularity qu))) h.
Proof.
  intros Hq. unfold loop_condition, bind.
  rewrite (QueueEmpty_run _ _ _ Hq).
  destruct (bool_decide (head qu = None)); [reflexivity|].
  destruct (completeTree prm); [reflexivity|].
  unfold load_queue. rewrite Hq. reflexivity.
Qed.

Lemma loop_condition_pure (prm : CMR_REGULAR_PARAMS) (h h' : heap) (q : ptr) (b : bool) :
  loop_condition prm q h = Done b h' ->
  h' = h /\ exists qu, queues h !! q = Some qu.
Proof.
  intros Hrun. destruct (queues h !! q) as [qu|] eqn:Hq.
  - rewrite (loop_condition_run _ _ _ _ Hq) in Hrun. injection Hrun as _ <-. eauto.
  - unfold loop_condition, CMRregularityQueueEmpty, bind, load_queue in Hrun.
    rewrite Hq in Hrun. discriminate.
Qed.

Lemma loop_condition_true (prm : CMR_REGULAR_PARAMS) (h : heap) (q : ptr)
    (qu : DecompositionQueue) :
  queues h !! q = Some qu ->
  loop_condition prm q h = Done true h <->
  head qu <> None /\ (completeTree prm = true \/ foundIrregularity qu = false).
Proof.
  intros Hq. rewrite (loop_condition_run _ _ _ _ Hq).
  destruct (head qu), (completeTree prm), (foundIrregularity qu); simpl;
    split; intros Hx; try discriminate; try reflexivity;
    try (split; [congruence | auto]); destruct Hx as [? [?|?]]; congruence.
Qed.

Lemma loop_condition_false (prm : CMR_REGULAR_PARAMS) (h : heap) (q : ptr) :
  loop_condition prm q h = Done false h <-> loop_left prm q h.
Proof.
  unfold loop_left. split.
  - intros Hrun. destruct (loop_condition_pure _ _ _ _ _ Hrun) as [_ [qu Hq]].
    exists qu. split; [exact Hq|].
    rewrite (loop_condition_run _ _ _ _ Hq) in Hrun. injection Hrun as Hrun.
    destruct (head qu), (completeTree prm), (foundIrregularity qu);
      simpl in Hrun; try discriminate; auto.
  - intros (qu & Hq & Hx). rewrite (loop_condition_run _ _ _ _ Hq).
    destruct Hx as [-> | [-> ->]]; [reflexivity|].
    destruct (bool_decide (head qu = None)); reflexivity.
Qed.

Lemma regularity_loop_pumped `{Collaborators} (fuel : nat) (prm : CMR_REGULAR_PARAMS)
    (q : ptr) (h h' : heap) :
  regularity_loop fuel prm q h = Done CMR_OKAY h' ->
  exists l, length l < fuel /\ pumped prm q h l h' /\ loop_left prm q h'.
Proof.
  revert h. induction fuel as [|fuel IH]; intros h Hrun; [discriminate|].
  simpl in Hrun. apply bind_Done in Hrun as (go & h0 & Hcond & Hrun).
  destruct (loop_condition_pure _ _ _ _ _ Hcond) as [-> [qu Hq]].
  destruct go.
  - apply bind_Done in Hrun as (task & h1 & Hpop & Hrun).
    apply CMR_CALL_Done in Hrun as [(h2 & Hstage & Hrest) | (e & Hne & _ & He)];
      [|unfold id in He; congruence].
    destruct (IH _ Hrest) as (l & Hlen & Hp & Hexit).
    destruct (proj1 (loop_condition_true prm _ _ _ Hq) Hcond) as [Hnn Hgo].
    exists (task :: l). split; [simpl; lia|]. split; [|exact Hexit].
    econstructor; eauto.
  - injection Hrun as <-. exists []. split; [simpl; lia|].
    split; [constructor | apply loop_condition_false; exact Hcond].
Qed.

Lemma pumped_regularity_loop `{Collaborators} (prm : CMR_REGULAR_PARAMS) (q : ptr)
    (h h' : heap) (l : list ptr) (fuel : nat) :
  pumped prm q h l h' ->
  loop_left prm q h' ->
  length l < fuel ->
  regularity_loop fuel prm q h = Done CMR_OKAY h'.
Proof.
  intros Hp Hexit. apply loop_condition_false in Hexit. revert fuel.
  induction Hp as [h|h h1 h2 h3 qu task l Hq Hne Hgo Hpop Hstage _ IH];
    intros fuel Hlen.
  - destruct fuel; [simpl in Hlen; lia|]. simpl. unfold bind.
    rewrite Hexit. reflexivity.
  - destruct fuel; [simpl in Hlen; lia|]. simpl. unfold bind at 1.
    rewrite (proj2 (loop_condition_true prm _ _ _ Hq) (conj Hne Hgo)).
    unfold bind at 1. rewrite Hpop.
    apply CMR_CALL_Done. left. exists h2. split; [exact Hstage|].
    apply IH; [exact Hexit | simpl in Hlen; lia].
Qed.

(** Once the flag is up and [completeTree] is off, no further task is
    popped. *)
Lemma pumped_after_irregularity `{Collaborators} (prm : CMR_REGULAR_PARAMS) (q : ptr)
    (h h' : heap) (l : list ptr) (qu : DecompositionQueue) :
  pumped prm q h l h' ->
  queues h !! q = Some qu ->
  foundIrregularity qu = true ->
  completeTree prm = false ->
  l = [] /\ h' = h.
Proof.
  intros Hp Hq Hfound Hct. destruct Hp as [h|h h1 h2 h3 qu' task l Hq' _ Hgo]; [auto|].
  rewrite Hq in Hq'. injection Hq' as <-. destruct Hgo; congruence.
Qed.

(** *** The entry points, step by step *)

Lemma asserted_Done (p : option ptr) (h h' : heap) (a : ptr) :
  asserted p h = Done a h' -> p = Some a /\ h' = h.
Proof. unfold asserted. destruct p; intros Heq; inversion Heq; auto. Qed.

Lemma dereferenced_Done (p : option ptr) (h h' : heap) (a : ptr) :
  dereferenced p h = Done a h' -> p = Some a /\ h' = h.
Proof. unfold dereferenced. destruct p; intros Heq; inversion Heq; auto. Qed.

Lemma load_dec_Done (d : ptr) (h h' : heap) (D : CMR_MATROID_DEC) :
  load_dec d h = Done D h' -> decs h !! d = Some D /\ h' = h.
Proof.
  unfold load_dec. destruct (decs h !! d); intros Heq; inversion Heq; auto.
Qed.

Lemma assert_Done (b : bool) (h h' : heap) (u : unit) :
  assert b h = Done u h' -> b = true /\ h' = h.
Proof. unfold assert. destruct b; intros Heq; inversion Heq; auto. Qed.

(** Every step of a call of [CMRregularityTest] that returns [CMR_OKAY]. *)
Lemma CMRregularityTest_steps `{Collaborators} (fuel : nat) (mat : CMR_CHRMAT)
    (ternary pisRegular pdec pminor : bool) (prm : CMR_REGULAR_PARAMS)
    (st : option ptr) (tl : Q) (h h' : heap) (ob : option bool) (od : option ptr) :
  CMRregularityTest fuel mat ternary pisRegular pdec pminor prm st tl h
    = Done (CMR_OKAY, ob, od) h' ->
  exists (h1 h2 h3 h4 h5 h6 h7 h8 h9 : heap) (root queue rootTask : ptr)
         (R : CMR_MATROID_DEC),
    CMRchrmatPrintDense mat h = Done CMR_OKAY h1
    /\ count_total st h1 = Done tt h2
    /\ CMRmatroiddecCreateMatrixRoot ternary mat h2 = Done (CMR_OKAY, Some root) h3
    /\ CMRregularityQueueCreate h3 = Done (CMR_OKAY, Some queue) h4
    /\ CMRregularityTaskCreateRoot root prm st (clock h1) tl h4
         = Done (CMR_OKAY, Some rootTask) h5
    /\ CMRregularityQueueAdd queue rootTask h5 = Done tt h6
    /\ regularity_loop fuel prm queue h6 = Done CMR_OKAY h7
    /\ CMRregularityQueueFree fuel (Some queue) h7 = Done CMR_OKAY h8
    /\ CMRmatroiddecSetAttributes root h8 = Done CMR_OKAY h9
    /\ decs h9 !! root = Some R
    /\ regularity R <> 0%Z
    /\ ob = (if pisRegular then Some (0 <? regularity R)%Z else None)
    /\ ((pdec = true /\ od = Some root
         /\ add_total_time st (clock h1) h9 = Done tt h')
        \/ (pdec = false /\ od = None
            /\ exists left h10,
                 CMRmatroiddecFree (Some root) h9 = Done (CMR_OKAY, left) h10
                 /\ add_total_time st (clock h1) h10 = Done tt h')).
Proof.
  unfold CMRregularityTest. intros Hrun.
  apply CMR_CALL_Done in Hrun as [(h1 & Hprint & Hrun) | (e & Hne & _ & He)];
    [|congruence].
  apply bind_Done in Hrun as (time & h1' & Hclock & Hrun).
  injection Hclock as <- <-.
  apply bind_Done in Hrun as ([] & h2 & Hcount & Hrun).
  apply CMR_CALL_out_Done in Hrun as [(root0 & h3 & Hroot & Hrun) | (e & v & Hne & _ & He)];
    [|congruence].
  apply bind_Done in Hrun as (root & h3' & Hasr & Hrun).
  apply asserted_Done in Hasr as [-> ->].
  apply CMR_CALL_out_Done in Hrun as [(queue0 & h4 & Hqc & Hrun) | (e & v & Hne & _ & He)];
    [|congruence].
  apply CMR_CALL_out_Done in Hrun as [(task0 & h5 & Htc & Hrun) | (e & v & Hne & _ & He)];
    [|congruence].
  apply bind_Done in Hrun as (queue & h5' & Hasq & Hrun).
  apply asserted_Done in Hasq as [-> ->].
  apply bind_Done in Hrun as (rootTask & h5' & Hdt & Hrun).
  apply dereferenced_Done in Hdt as [-> ->].
  apply bind_Done in Hrun as ([] & h6 & Hadd & Hrun).
  apply CMR_CALL_Done in Hrun as [(h7 & Hloop & Hrun) | (e & Hne & _ & He)];
    [|congruence].
  apply CMR_CALL_Done in Hrun as [(h8 & Hfree & Hrun) | (e & Hne & _ & He)];
    [|congruence].
  apply CMR_CALL_Done in Hrun as [(h9 & Hattr & Hrun) | (e & Hne & _ & He)];
    [|congruence].
  apply bind_Done in Hrun as (R & h9' & Hload & Hrun).
  apply load_dec_Done in Hload as [HR ->].
  apply bind_Done in Hrun as ([] & h9' & Hassert & Hrun).
  apply assert_Done in Hassert as [Hreg ->].
  apply negb_true_iff, Z.eqb_neq in Hreg.
  exists h1, h2, h3, h4, h5, h6, h7, h8, h9, root, queue, rootTask, R.
  do 11 (split; [assumption|]).
  destruct pdec.
  - apply bind_Done in Hrun as ([] & h10 & Htime & Hrun).
    injection Hrun as <- <- <-. split; [reflexivity|]. left. auto.
  - apply CMR_CALL_out_Done in Hrun as [(left & h10 & Hfr & Hrun) | (e & v & Hne & _ & He)];
      [|congruence].
    apply bind_Done in Hrun as ([] & h11 & Htime & Hrun).
    injection Hrun as <- <- <-. split; [reflexivity|]. right. eauto 10.
Qed.

Lemma find_root_overall (fuel : nat) (d r : ptr) (h h' : heap) :
  find_root fuel d h = Done r h' -> h' = h /\ overall_root h d r.
Proof.
  revert d. induction fuel as [|fuel IH]; intros d Hrun; [discriminate|].
  simpl in Hrun. apply bind_Done in Hrun as (D & h0 & Hload & Hrun).
  apply load_dec_Done in Hload as [HD ->].
  destruct (parent D) as [up|] eqn:Hup.
  - destruct (IH _ Hrun) as [-> [Hanc Hr]]. split; [reflexivity|].
    split; [econstructor; eauto | exact Hr].
  - injection Hrun as <- <-. split; [reflexivity|].
    split; [constructor | eauto].
Qed.


(** Every step of a call of [CMRregularityCompleteDecomposition] that
    returns [CMR_OKAY]. *)
Lemma CMRregularityCompleteDecomposition_steps `{Collaborators} (fuel : nat)
    (d : ptr) (prm : CMR_REGULAR_PARAMS) (st : option ptr) (tl : Q) (h h' : heap) :
  CMRregularityCompleteDecomposition fuel d prm st tl h = Done CMR_OKAY h' ->
  exists (h1 h2 h3 h4 h5 h6 h7 h8 h9 : heap) (root queue decTask : ptr)
         (D D' R' : CMR_MATROID_DEC) (m : CMR_CHRMAT),
    find_root fuel d h = Done root h
    /\ decs h !! d = Some D
    /\ matrix D = Some m
    /\ CMRchrmatPrintDense m h = Done CMR_OKAY h1
    /\ count_total st h1 = Done tt h2
    /\ free_children fuel 0 d h2 = Done CMR_OKAY h3
    /\ decs h3 !! d = Some D'
    /\ CMRregularityQueueCreate (put_dec d (set_type CMR_MATROID_DEC_TYPE_UNKNOWN D') h3)
         = Done (CMR_OKAY, Some queue) h4
    /\ CMRregularityTaskCreateRoot d prm st (clock h1) tl h4
         = Done (CMR_OKAY, Some decTask) h5
    /\ CMRregularityQueueAdd queue decTask h5 = Done tt h6
    /\ regularity_loop fuel prm queue h6 = Done CMR_OKAY h7
    /\ CMRregularityQueueFree fuel (Some queue) h7 = Done CMR_OKAY h8
    /\ CMRmatroiddecSetAttributes root h8 = Done CMR_OKAY h9
    /\ decs h9 !! root = Some R'
    /\ regularity R' <> 0%Z
    /\ add_total_time st (clock h1) h9 = Done tt h'.
Proof.
  unfold CMRregularityCompleteDecomposition. intros Hrun.
  apply bind_Done in Hrun as (root & h0 & Hroot & Hrun).
  destruct (find_root_overall _ _ _ _ _ Hroot) as [-> _].
  apply bind_Done in Hrun as (R & h0 & Hload & Hrun).
  apply load_dec_Done in Hload as [HR ->].
  apply bind_Done in Hrun as (D & h0 & Hload & Hrun).
  apply load_dec_Done in Hload as [HD ->].
  destruct (matrix R) as [mr|]; [|discriminate].
  destruct (matrix D) as [m|] eqn:Hm; [|discriminate].
  apply CMR_CALL_Done in Hrun as [(h1 & Hprint & Hrun) | (e & Hne & _ & He)];
    [|unfold id in He; congruence].
  apply bind_Done in Hrun as (time & h1' & Hclock & Hrun).
  injection Hclock as <- <-.
  apply bind_Done in Hrun as ([] & h2 & Hcount & Hrun).
  apply CMR_CALL_Done in Hrun as [(h3 & Hfree & Hrun) | (e & Hne & _ & He)];
    [|unfold id in He; congruence].
  apply bind_Done in Hrun as (D' & h3' & Hload & Hrun).
  apply load_dec_Done in Hload as [HD' ->].
  apply bind_Done in Hrun as ([] & h3' & Hstore & Hrun).
  unfold store_dec in Hstore. rewrite HD' in Hstore. injection Hstore as <-.
  apply CMR_CALL_out_Done in Hrun as [(queue0 & h4 & Hqc & Hrun) | (e & v & Hne & _ & He)];
    [|unfold id in He; congruence].
  apply CMR_CALL_out_Done in Hrun as [(task0 & h5 & Htc & Hrun) | (e & v & Hne & _ & He)];
    [|unfold id in He; congruence].
  apply bind_Done in Hrun as (queue & h5' & Hasq & Hrun).
  apply asserted_Done in Hasq as [-> ->].
  apply bind_Done in Hrun as (decTask & h5' & Hdt & Hrun).
  apply dereferenced_Done in Hdt as [-> ->].
  apply bind_Done in Hrun as ([] & h6 & Hadd & Hrun).
  apply CMR_CALL_Done in Hrun as [(h7 & Hloop & Hrun) | (e & Hne & _ & He)];
    [|unfold id in He; congruence].
  apply CMR_CALL_Done in Hrun as [(h8 & Hqf & Hrun) | (e & Hne & _ & He)];
    [|unfold id in He; congruence].
  apply CMR_CALL_Done in Hrun as [(h9 & Hattr & Hrun) | (e & Hne & _ & He)];
    [|unfold id in He; congruence].
  apply bind_Done in Hrun as (R' & h9' & Hload & Hrun).
  apply load_dec_Done in Hload as [HR' ->].
  apply bind_Done in Hrun as ([] & h9' & Hassert & Hrun).
  apply assert_Done in Hassert as [Hreg ->].
  apply negb_true_iff, Z.eqb_neq in Hreg.
  apply bind_Done in Hrun as ([] & h10 & Htime & Hrun).
  injection Hrun as <-.
  exists h1, h2, h3, h4, h5, h6, h7, h8, h9, root, queue, decTask, D, D', R', m.
  do 15 (split; [assumption|]). assumption.
Qed.

Lemma add_total_time_frame `{Collaborators} (st : option ptr) (time : Z) (h h' : heap) :
  add_total_time st time h = Done tt h' ->
  decs h' = decs h /\ tasks h' = tasks h /\ queues h' = queues h.
Proof.
  unfold add_total_time. destruct st as [s|]; intros Hrun.
  - apply bind_Done in Hrun as (r & h0 & Hload & Hrun).
    unfold load_stats in Hload. destruct (statss h !! s) eqn:Hs; [|discriminate].
    injection Hload as -> ->. unfold store_stats in Hrun. rewrite Hs in Hrun.
    injection Hrun as <-. auto.
  - injection Hrun as <-. auto.
Qed.

(** A queue that was just created and given one new task holds that task
    and nothing else, and its flag is down. *)
Lemma queue_seeded `{Collaborators} (d : ptr) (prm : CMR_REGULAR_PARAMS)
    (st : option ptr) (time : Z) (tl : Q) (h3 h4 h5 h6 : heap) (queue task : ptr) :
  CMRregularityQueueCreate h3 = Done (CMR_OKAY, Some queue) h4 ->
  CMRregularityTaskCreateRoot d prm st time tl h4 = Done (CMR_OKAY, Some task) h5 ->
  CMRregularityQueueAdd queue task h5 = Done tt h6 ->
  queue_holds h6 queue [task]
  /\ queues h6 !! queue = Some (Queue (Some task) false)
  /\ tasks h6 !! task = Some (Task d None prm st time tl)
  /\ decs h6 = decs h3.
Proof.
  unfold CMRregularityQueueCreate, CMRregularityTaskCreateRoot.
  intros Hqc Htc Hadd.
  destruct (CMRallocBlock h3) as [q|]; [|discriminate]. injection Hqc as -> <-.
  destruct (CMRallocBlock (put_queue queue (Queue None false) h3)) as [t|];
    [|discriminate].
  injection Htc as -> <-.
  erewrite QueueAdd_run in Hadd;
    [| simpl; apply lookup_insert_eq | simpl; apply lookup_insert_eq].
  injection Hadd as <-. simpl.
  split; [|split; [|split]].
  - eexists. split; [simpl; apply lookup_insert_eq|]. simpl.
    econstructor; [simpl; apply lookup_insert_eq|]. simpl. constructor.
  - apply lookup_insert_eq.
  - apply lookup_insert_eq.
  - reflexivity.
Qed.

(** The run of [CMRregularityTest] that returns [CMR_OKAY], rebuilt from
    its steps. *)
Lemma CMRregularityTest_runs `{Collaborators} (fuel : nat) (mat : CMR_CHRMAT)
    (ternary pisRegular pdec pminor : bool) (prm : CMR_REGULAR_PARAMS)
    (st : option ptr) (tl : Q) (h h' : heap) (ob : option bool) (od : option ptr)
    (h1 h2 h3 h4 h5 h6 h7 h8 h9 : heap) (root queue rootTask : ptr)
    (R : CMR_MATROID_DEC) :
  CMRchrmatPrintDense mat h = Done CMR_OKAY h1 ->
  count_total st h1 = Done tt h2 ->
  CMRmatroiddecCreateMatrixRoot ternary mat h2 = Done (CMR_OKAY, Some root) h3 ->
  CMRregularityQueueCreate h3 = Done (CMR_OKAY, Some queue) h4 ->
  CMRregularityTaskCreateRoot root prm st (clock h1) tl h4
    = Done (CMR_OKAY, Some rootTask) h5 ->
  CMRregularityQueueAdd queue rootTask h5 = Done tt h6 ->
  regularity_loop fuel prm queue h6 = Done CMR_OKAY h7 ->
  CMRregularityQueueFree fuel (Some queue) h7 = Done CMR_OKAY h8 ->
  CMRmatroiddecSetAttributes root h8 = Done CMR_OKAY h9 ->
  decs h9 !! root = Some R ->
  regularity R <> 0%Z ->
  ob = (if pisRegular then Some (0 <? regularity R)%Z else None) ->
  (if pdec
   then od = Some root /\ add_total_time st (clock h1) h9 = Done tt h'
   else od = None
        /\ exists left h10,
             CMRmatroiddecFree (Some root) h9 = Done (CMR_OKAY, left) h10
             /\ add_total_time st (clock h1) h10 = Done tt h') ->
  CMRregularityTest fuel mat ternary pisRegular pdec pminor prm st tl h
    = Done (CMR_OKAY, ob, od) h'.
Proof.
  intros Hprint Hcount Hroot Hqc Htc Hadd Hloop Hqf Hattr HR Hreg -> Hod.
  unfold CMRregularityTest.
  apply CMR_CALL_Done. left. exists h1. split; [exact Hprint|].
  apply bind_Done. exists (clock h1), h1. split; [reflexivity|].
  apply bind_Done. exists tt, h2. split; [exact Hcount|].
  apply CMR_CALL_out_Done. left. exists (Some root), h3. split; [exact Hroot|].
  apply bind_Done. exists root, h3. split; [reflexivity|].
  apply CMR_CALL_out_Done. left. exists (Some queue), h4. split; [exact Hqc|].
  apply CMR_CALL_out_Done. left. exists (Some rootTask), h5. split; [exact Htc|].
  apply bind_Done. exists queue, h5. split; [reflexivity|].
  apply bind_Done. exists rootTask, h5. split; [reflexivity|].
  apply bind_Done. exists tt, h6. split; [exact Hadd|].
  apply CMR_CALL_Done. left. exists h7. split; [exact Hloop|].
  apply CMR_CALL_Done. left. exists h8. split; [exact Hqf|].
  apply CMR_CALL_Done. left. exists h9. split; [exact Hattr|].
  apply bind_Done. exists R, h9. split; [unfold load_dec; rewrite HR; reflexivity|].
  apply bind_Done. exists tt, h9. split.
  { unfold assert. apply Z.eqb_neq in Hreg. rewrite Hreg. reflexivity. }
  destruct pdec.
  - destruct Hod as [-> Htime].
    apply bind_Done. exists tt, h'. split; [exact Htime | reflexivity].
  - destruct Hod as (-> & left & h10 & Hfree & Htime).
    apply CMR_CALL_out_Done. left. exists left, h10. split; [exact Hfree|].
    apply bind_Done. exists tt, h'. split; [exact Htime | reflexivity].
Qed.

(** The run of [CMRregularityCompleteDecomposition] that returns
    [CMR_OKAY], and its steps. *)
Lemma CMRregularityCompleteDecomposition_runs `{Collaborators} (fuel : nat)
    (d : ptr) (prm : CMR_REGULAR_PARAMS) (st : option ptr) (tl : Q) (h h' : heap) :
  CMRregularityCompleteDecomposition fuel d prm st tl h = Done CMR_OKAY h' <->
  exists (h1 h2 h3 h4 h5 h6 h7 h8 h9 : heap) (root queue decTask : ptr)
         (R D D' R' : CMR_MATROID_DEC) (m : CMR_CHRMAT),
    find_root fuel d h = Done root h
    /\ decs h !! root = Some R
    /\ matrix R <> None
    /\ decs h !! d = Some D
    /\ matrix D = Some m
    /\ CMRchrmatPrintDense m h = Done CMR_OKAY h1
    /\ count_total st h1 = Done tt h2
    /\ free_children fuel 0 d h2 = Done CMR_OKAY h3
    /\ decs h3 !! d = Some D'
    /\ CMRregularityQueueCreate (put_dec d (set_type CMR_MATROID_DEC_TYPE_UNKNOWN D') h3)
         = Done (CMR_OKAY, Some queue) h4
    /\ CMRregularityTaskCreateRoot d prm st (clock h1) tl h4
         = Done (CMR_OKAY, Some decTask) h5
    /\ CMRregularityQueueAdd queue decTask h5 = Done tt h6
    /\ regularity_loop fuel prm queue h6 = Done CMR_OKAY h7
    /\ CMRregularityQueueFree fuel (Some queue) h7 = Done CMR_OKAY h8
    /\ CMRmatroiddecSetAttributes root h8 = Done CMR_OKAY h9
    /\ decs h9 !! root = Some R'
    /\ regularity R' <> 0%Z
    /\ add_total_time st (clock h1) h9 = Done tt h'.
Proof.
  split.
  - intros Hrun. pose proof Hrun as Hsteps.
    apply CMRregularityCompleteDecomposition_steps in Hsteps
      as (h1 & h2 & h3 & h4 & h5 & h6 & h7 & h8 & h9 & root & queue & task & D & D'
          & R' & m & Hroot & HD & Hm & Hrest).
    unfold CMRregularityCompleteDecomposition in Hrun.
    apply bind_Done in Hrun as (root0 & h0 & Hroot0 & Hrun).
    rewrite Hroot in Hroot0. injection Hroot0 as <- <-.
    apply bind_Done in Hrun as (R & h0 & Hload & Hrun).
    apply load_dec_Done in Hload as [HR ->].
    apply bind_Done in Hrun as (D0 & h0 & Hload & Hrun).
    apply load_dec_Done in Hload as [HD0 ->].
    assert (HmR : matrix R <> None) by (destruct (matrix R); [discriminate | discriminate]).
    exists h1, h2, h3, h4, h5, h6, h7, h8, h9, root, queue, task, R, D, D', R', m.
    split; [exact Hroot|]. split; [exact HR|]. split; [exact HmR|].
    split; [exact HD|]. split; [exact Hm|]. exact Hrest.
  - intros (h1 & h2 & h3 & h4 & h5 & h6 & h7 & h8 & h9 & root & queue & task & R & D & D'
            & R' & m & Hroot & HR & HmR & HD & Hm & Hprint & Hcount & Hfree & HD' & Hqc
            & Htc & Hadd & Hloop & Hqf & Hattr & HR' & Hreg & Htime).
    unfold CMRregularityCompleteDecomposition.
    apply bind_Done. exists root, h. split; [exact Hroot|].
    apply bind_Done. exists R, h. split; [unfold load_dec; rewrite HR; reflexivity|].
    apply bind_Done. exists D, h. split; [unfold load_dec; rewrite HD; reflexivity|].
    destruct (matrix R) as [mr|]; [|congruence]. rewrite Hm.
    apply CMR_CALL_Done. left. exists h1. split; [exact Hprint|].
    apply bind_Done. exists (clock h1), h1. split; [reflexivity|].
    apply bind_Done. exists tt, h2. split; [exact Hcount|].
    apply CMR_CALL_Done. left. exists h3. split; [exact Hfree|].
    apply bind_Done. exists D', h3. split; [unfold load_dec; rewrite HD'; reflexivity|].
    apply bind_Done. exists tt, (put_dec d (set_type CMR_MATROID_DEC_TYPE_UNKNOWN D') h3).
    split; [unfold store_dec; rewrite HD'; reflexivity|].
    apply CMR_CALL_out_Done. left. exists (Some queue), h4. split; [exact Hqc|].
    apply CMR_CALL_out_Done. left. exists (Some task), h5. split; [exact Htc|].
    apply bind_Done. exists queue, h5. split; [reflexivity|].
    apply bind_Done. exists task, h5. split; [reflexivity|].
    apply bind_Done. exists tt, h6. split; [exact Hadd|].
    apply CMR_CALL_Done. left. exists h7. split; [exact Hloop|].
    apply CMR_CALL_Done. left. exists h8. split; [exact Hqf|].
    apply CMR_CALL_Done. left. exists h9. split; [exact Hattr|].
    apply bind_Done. exists R', h9. split; [unfold load_dec; rewrite HR'; reflexivity|].
    apply bind_Done. exists tt, h9. split.
    { unfold assert. apply Z.eqb_neq in Hreg. rewrite Hreg. reflexivity. }
    apply bind_Done. exists tt, h'. split; [exact Htime | reflexivity].
Qed.

(** C2. Both entry points pump the queue exactly while it is not empty and
    ([completeTree] is set or [foundIrregularity] is down).
    [CMRregularityTest] returns [CMR_OKAY] from the store [h] in the store
    [h'] exactly when: the calls before the loop lead from [h] to a store
    [h_in] whose new queue holds the one new task; from [h_in] a sequence
    of iterations, each begun with the condition true and each running its
    stage to its return, leads to a store [h_out] in which the queue is
    empty or ([completeTree] is off and the flag is up); and the calls
    after the loop lead from [h_out] to [h'].  The same holds of
    [CMRregularityCompleteDecomposition].  Such a sequence is what the loop
    does.  Consequently, from a state where the flag is up and
    [completeTree] is off no further task is popped: the loop is left with
    the store unchanged. *)
Theorem drivers_pump_while_condition `{Collaborators} (prm : CMR_REGULAR_PARAMS) :
  (forall fuel mat ternary pisRegular pdec pminor st tl h h' ob od,
     CMRregularityTest fuel mat ternary pisRegular pdec pminor prm st tl h
       = Done (CMR_OKAY, ob, od) h' <->
     exists (root queue task : ptr)
            (h_printed h_counted h_root h_queue h_task h_in h_out h_drained h_final : heap)
            (R : CMR_MATROID_DEC) (l : list ptr),
       CMRchrmatPrintDense mat h = Done CMR_OKAY h_printed
       /\ count_total st h_printed = Done tt h_counted
       /\ CMRmatroiddecCreateMatrixRoot ternary mat h_counted
          = Done (CMR_OKAY, Some root) h_root
       /\ CMRregularityQueueCreate h_root = Done (CMR_OKAY, Some queue) h_queue
       /\ CMRregularityTaskCreateRoot root prm st (clock h_printed) tl h_queue
          = Done (CMR_OKAY, Some task) h_task
       /\ CMRregularityQueueAdd queue task h_task = Done tt h_in
       /\ queue_holds h_in queue [task]
       /\ length l < fuel
       /\ pumped prm queue h_in l h_out
       /\ loop_left prm queue h_out
       /\ CMRregularityQueueFree fuel (Some queue) h_out = Done CMR_OKAY h_drained
       /\ CMRmatroiddecSetAttributes root h_drained = Done CMR_OKAY h_final
       /\ decs h_final !! root = Some R
       /\ regularity R <> 0%Z
       /\ ob = (if pisRegular then Some (0 <? regularity R)%Z else None)
       /\ (if pdec
           then od = Some root
                /\ add_total_time st (clock h_printed) h_final = Done tt h'
           else od = None
                /\ exists left h_freed,
                     CMRmatroiddecFree (Some root) h_final = Done (CMR_OKAY, left) h_freed
                     /\ add_total_time st (clock h_printed) h_freed = Done tt h'))
  /\ (forall fuel d st tl h h',
        CMRregularityCompleteDecomposition fuel d prm st tl h = Done CMR_OKAY h' <->
        exists (root queue task : ptr)
               (h_printed h_counted h_freed h_queue h_task h_in h_out h_drained
                h_final : heap)
               (R D D' R' : CMR_MATROID_DEC) (m : CMR_CHRMAT) (l : list ptr),
          find_root fuel d h = Done root h
          /\ decs h !! root = Some R
          /\ matrix R <> None
          /\ decs h !! d = Some D
          /\ matrix D = Some m
          /\ CMRchrmatPrintDense m h = Done CMR_OKAY h_printed
          /\ count_total st h_printed = Done tt h_counted
          /\ free_children fuel 0 d h_counted = Done CMR_OKAY h_freed
          /\ decs h_freed !! d = Some D'
          /\ CMRregularityQueueCreate
               (put_dec d (set_type CMR_MATROID_DEC_TYPE_UNKNOWN D') h_freed)
             = Done (CMR_OKAY, Some queue) h_queue
          /\ CMRregularityTaskCreateRoot d prm st (clock h_printed) tl h_queue
             = Done (CMR_OKAY, Some task) h_task
          /\ CMRregularityQueueAdd queue task h_task = Done tt h_in
          /\ queue_holds h_in queue [task]
          /\ length l < fuel
          /\ pumped prm queue h_in l h_out
          /\ loop_left prm queue h_out
          /\ CMRregularityQueueFree fuel (Some queue) h_out = Done CMR_OKAY h_drained
          /\ CMRmatroiddecSetAttributes root h_drained = Done CMR_OKAY h_final
          /\ decs h_final !! root = Some R'
          /\ regularity R' <> 0%Z
          /\ add_total_time st (clock h_printed) h_final = Done tt h')
  /\ (forall fuel queue h h',
        regularity_loop fuel prm queue h = Done CMR_OKAY h' <->
        exists l, length l < fuel /\ pumped prm queue h l h' /\ loop_left prm queue h')
  /\ (forall fuel queue h qu,
        queues h !! queue = Some qu ->
        foundIrregularity qu = true ->
        completeTree prm = false ->
        regularity_loop (S fuel) prm queue h = Done CMR_OKAY h
        /\ forall l h', pumped prm queue h l h' -> l = [] /\ h' = h).
Proof.
  split; [|split; [|split]].
  - intros fuel mat ternary pisRegular pdec pminor st tl h h' ob od. split.
    + intros Hrun.
      apply CMRregularityTest_steps in Hrun
        as (h1 & h2 & h3 & h4 & h5 & h6 & h7 & h8 & h9 & root & queue & task & R
            & Hprint & Hcount & Hroot & Hqc & Htc & Hadd & Hloop & Hqf & Hattr & HR
            & Hreg & Hob & Hod).
      destruct (queue_seeded _ _ _ _ _ _ _ _ _ _ _ Hqc Htc Hadd) as (Hholds & _).
      destruct (regularity_loop_pumped _ _ _ _ _ Hloop) as (l & Hlen & Hp & Hexit).
      exists root, queue, task, h1, h2, h3, h4, h5, h6, h7, h8, h9, R, l.
      do 15 (split; [assumption|]).
      destruct Hod as [(-> & -> & Htime) | (-> & -> & Hfree)]; auto.
    + intros (root & queue & task & h1 & h2 & h3 & h4 & h5 & h6 & h7 & h8 & h9 & R & l
              & Hprint & Hcount & Hroot & Hqc & Htc & Hadd & _ & Hlen & Hp & Hexit
              & Hqf & Hattr & HR & Hreg & Hob & Hod).
      eapply CMRregularityTest_runs; eauto.
      eapply pumped_regularity_loop; eauto.
  - intros fuel d st tl h h'. rewrite CMRregularityCompleteDecomposition_runs. split.
    + intros (h1 & h2 & h3 & h4 & h5 & h6 & h7 & h8 & h9 & root & queue & task & R & D
              & D' & R' & m & Hroot & HR & HmR & HD & Hm & Hprint & Hcount & Hfree & HD'
              & Hqc & Htc & Hadd & Hloop & Hrest).
      destruct (queue_seeded _ _ _ _ _ _ _ _ _ _ _ Hqc Htc Hadd) as (Hholds & _).
      destruct (regularity_loop_pumped _ _ _ _ _ Hloop) as (l & Hlen & Hp & Hexit).
      exists root, queue, task, h1, h2, h3, h4, h5, h6, h7, h8, h9, R, D, D', R', m, l.
      do 16 (split; [assumption|]). exact Hrest.
    + intros (root & queue & task & h1 & h2 & h3 & h4 & h5 & h6 & h7 & h8 & h9 & R & D
              & D' & R' & m & l & Hroot & HR & HmR & HD & Hm & Hprint & Hcount & Hfree
              & HD' & Hqc & Htc & Hadd & _ & Hlen & Hp & Hexit & Hrest).
      exists h1, h2, h3, h4, h5, h6, h7, h8, h9, root, queue, task, R, D, D', R', m.
      do 12 (split; [assumption|]).
      split; [eapply pumped_regularity_loop; eauto | exact Hrest].
  - intros fuel queue h h'. split.
    + apply regularity_loop_pumped.
    + intros (l & Hlen & Hp & Hexit). eapply pumped_regularity_loop; eauto.
  - intros fuel queue h qu Hq Hfound Hct. split.
    + apply (pumped_regularity_loop prm queue h h []); [constructor | | simpl; lia].
      exists qu. auto.
    + intros l h' Hp. eapply pumped_after_irregularity; eauto.
Qed.

(** C3. When [CMRregularityTest] returns [CMR_OKAY], the value stored through
    [pisRegular], when that pointer is given, is [true] exactly when the
    [regularity] of the root is strictly positive in the store the
    finaliser [CMRmatroiddecSetAttributes] returned; when [pdec] is given the
    root is stored through it and the nodes are as the finaliser left them;
    otherwise nothing is stored through it and [CMRmatroiddecFree] has been
    applied to the root of that store before the return. *)
Theorem test_reports_root_and_hands_over_tree `{Collaborators} (fuel : nat)
    (mat : CMR_CHRMAT) (ternary pisRegular pdec pminor : bool)
    (prm : CMR_REGULAR_PARAMS) (st : option ptr) (tl : Q) (h h' : heap)
    (ob : option bool) (od : option ptr) :
  CMRregularityTest fuel mat ternary pisRegular pdec pminor prm st tl h
    = Done (CMR_OKAY, ob, od) h' ->
  exists (root : ptr) (h_made h_drained h_final : heap) (R : CMR_MATROID_DEC),
    (exists h0, CMRmatroiddecCreateMatrixRoot ternary mat h0
                  = Done (CMR_OKAY, Some root) h_made)
    /\ CMRmatroiddecSetAttributes root h_drained = Done CMR_OKAY h_final
    /\ decs h_final !! root = Some R
    /\ (if pisRegular
        then exists b, ob = Some b /\ (b = true <-> (0 < regularity R)%Z)
        else ob = None)
    /\ (if pdec
        then od = Some root /\ decs h' = decs h_final
        else od = None
             /\ exists left h_freed,
                  CMRmatroiddecFree (Some root) h_final = Done (CMR_OKAY, left) h_freed
                  /\ decs h' = decs h_freed).
Proof.
  intros Hrun.
  apply CMRregularityTest_steps in Hrun
    as (h1 & h2 & h3 & h4 & h5 & h6 & h7 & h8 & h9 & root & queue & task & R
        & _ & _ & Hroot & _ & _ & _ & _ & _ & Hattr & HR & _ & Hob & Hod).
  exists root, h3, h8, h9, R.
  split; [eauto|]. split; [exact Hattr|]. split; [exact HR|]. split.
  - destruct pisRegular; [|exact Hob].
    eexists. split; [exact Hob|]. apply Z.ltb_lt.
  - destruct Hod as [(-> & -> & Htime) | (-> & -> & left & h10 & Hfree & Htime)].
    + split; [reflexivity|]. apply add_total_time_frame in Htime as [-> _].
      reflexivity.
    + split; [reflexivity|]. exists left, h10. split; [exact Hfree|].
      apply add_total_time_frame in Htime as [-> _]. reflexivity.
Qed.

(** C4. Whenever [CMRregularityTest] returns [CMR_OKAY], the [regularity] of
    the root is not unset in the store the finaliser returned: it is
    positive (regular) or negative (irregular).  Whenever
    [CMRregularityCompleteDecomposition] returns [CMR_OKAY], the same holds
    of the overall root, both in the store the finaliser returned and in
    the final store. *)
Theorem root_regularity_is_set `{Collaborators} (fuel : nat)
    (prm : CMR_REGULAR_PARAMS) (st : option ptr) (tl : Q) (h h' : heap) :
  (forall mat ternary pisRegular pdec pminor ob od,
     CMRregularityTest fuel mat ternary pisRegular pdec pminor prm st tl h
       = Done (CMR_OKAY, ob, od) h' ->
     exists root h_drained h_final R,
       CMRmatroiddecSetAttributes root h_drained = Done CMR_OKAY h_final
       /\ decs h_final !! root = Some R
       /\ ((0 < regularity R)%Z \/ (regularity R < 0)%Z)
       /\ (pdec = true -> od = Some root /\ decs h' !! root = Some R))
  /\ (forall d,
        CMRregularityCompleteDecomposition fuel d prm st tl h = Done CMR_OKAY h' ->
        exists root h_drained h_final R,
          overall_root h d root
          /\ CMRmatroiddecSetAttributes root h_drained = Done CMR_OKAY h_final
          /\ decs h_final !! root = Some R
          /\ decs h' !! root = Some R
          /\ ((0 < regularity R)%Z \/ (regularity R < 0)%Z)).
Proof.
  split.
  - intros mat ternary pisRegular pdec pminor ob od Hrun.
    apply CMRregularityTest_steps in Hrun
      as (h1 & h2 & h3 & h4 & h5 & h6 & h7 & h8 & h9 & root & queue & task & R
          & _ & _ & _ & _ & _ & _ & _ & _ & Hattr & HR & Hreg & _ & Hod).
    exists root, h8, h9, R. split; [exact Hattr|]. split; [exact HR|].
    split; [lia|]. intros ->.
    destruct Hod as [(_ & -> & Htime) | (Hx & _)]; [|discriminate].
    apply add_total_time_frame in Htime as [-> _]. auto.
  - intros d Hrun.
    apply CMRregularityCompleteDecomposition_steps in Hrun
      as (h1 & h2 & h3 & h4 & h5 & h6 & h7 & h8 & h9 & root & queue & task & D & D'
          & R' & m & Hroot & _ & _ & _ & _ & _ & _ & _ & _ & _ & _ & _ & Hattr & HR
          & Hreg & Htime).
    apply find_root_overall in Hroot as [_ Hroot].
    apply add_total_time_frame in Htime as [Hdecs _].
    exists root, h8, h9, R'. rewrite Hdecs.
    split; [exact Hroot|]. split; [exact Hattr|]. split; [exact HR|].
    split; [exact HR | lia].
Qed.

(** *** What the driver itself writes *)











(** *** The properties at work on the small pipeline *)

Lemma queue_is_lifo_witness :
  exists h1,
    CMRregularityQueueAdd 7%positive 8%positive demo_tree = Done tt h1
    /\ CMRregularityQueueEmpty 7%positive h1 = Done false h1
    /\ exists h2, CMRregularityQueueRemove 7%positive h1 = Done 8%positive h2
         /\ queues h2 !! 7%positive = Some (Queue None false).
Proof.
  destruct (queue_is_lifo demo_tree 7%positive 8%positive (Queue None false) demo_task)
    as [(h1 & Hadd & _ & _ & Hne & h2 & Hpop & Hq & _) _];
    [vm_compute; reflexivity | vm_compute; reflexivity |].
  exists h1. split; [exact Hadd|]. split; [exact Hne|].
  exists h2. split; [exact Hpop | exact Hq].
Defined.

Lemma task_run_first_matching_rule_witness :
  exists s : Stage,
    first_match (decision_table demo_params demo_node 3 3) = Some s
    /\ CMRregularityTaskRun (H := demo_collaborators) 8%positive 7%positive demo_tree
        = run_stage (H := demo_collaborators) s 8%positive 7%positive demo_tree.
Proof.
  apply (task_run_first_matching_rule (H := demo_collaborators) demo_tree
           8%positive 7%positive demo_task demo_node demo_matrix);
    vm_compute; reflexivity.
Defined.

Lemma drivers_pump_while_condition_witness :
  exists (root queue task : ptr) (h_in h_out h' : heap) (l : list ptr),
    CMRregularityTest (H := demo_collaborators) 10 demo_matrix false true true false
      demo_params None 0 demo_heap = Done (CMR_OKAY, Some true, Some root) h'
    /\ queue_holds h_in queue [task]
    /\ pumped (H := demo_collaborators) demo_params queue h_in l h_out
    /\ loop_left demo_params queue h_out
    /\ decs h' !! root <> None.
Proof.
  assert (Hrun : exists root h',
             CMRregularityTest (H := demo_collaborators) 10 demo_matrix false true true
               false demo_params None 0 demo_heap = Done (CMR_OKAY, Some true, Some root) h')
    by (do 2 eexists; vm_compute; reflexivity).
  destruct Hrun as (root0 & h' & Hrun).
  destruct (drivers_pump_while_condition (H := demo_collaborators) demo_params)
    as [Htest _].
  destruct (proj1 (Htest 10 demo_matrix false true true false None 0%Q demo_heap h'
                     (Some true) (Some root0)) Hrun)
    as (root & queue & task & h1 & h2 & h3 & h4 & h5 & h_in & h_out & h8 & h9 & R & l
        & _ & _ & _ & _ & _ & _ & Hholds & _ & Hp & Hleft & _ & _ & HR & _ & _ & Hod
        & Htime).
  injection Hod as <-.
  exists root0, queue, task, h_in, h_out, h', l.
  split; [exact Hrun|]. split; [exact Hholds|]. split; [exact Hp|].
  split; [exact Hleft|].
  apply add_total_time_frame in Htime as [-> _]. rewrite HR. discriminate.
Defined.

Lemma test_reports_root_and_hands_over_tree_witness :
  exists (root : ptr) (h_made h_drained h_final : heap) (R : CMR_MATROID_DEC) (h' : heap),
    CMRregularityTest (H := demo_collaborators) 10 demo_matrix false true true false
      demo_params None 0 demo_heap = Done (CMR_OKAY, Some true, Some root) h'
    /\ CMRmatroiddecSetAttributes (Collaborators := demo_collaborators) root h_drained
       = Done CMR_OKAY h_final
    /\ decs h_final !! root = Some R
    /\ (0 < regularity R)%Z
    /\ decs h' = decs h_final.
Proof.
  assert (Hrun : exists root h',
             CMRregularityTest (H := demo_collaborators) 10 demo_matrix false true true
               false demo_params None 0 demo_heap = Done (CMR_OKAY, Some true, Some root) h')
    by (do 2 eexists; vm_compute; reflexivity).
  destruct Hrun as (root0 & h' & Hrun).
  destruct (test_reports_root_and_hands_over_tree (H := demo_collaborators) _ _ _ _ _ _
              _ _ _ _ _ _ _ Hrun)
    as (root & h_made & h_drained & h_final & R & _ & Hattr & HR & (b & Hb & Hreg)
        & Hod & Hdecs).
  injection Hod as <-. injection Hb as <-.
  exists root0, h_made, h_drained, h_final, R, h'.
  split; [exact Hrun|]. split; [exact Hattr|]. split; [exact HR|].
  split; [apply Hreg; reflexivity | exact Hdecs].
Defined.

Lemma root_regularity_is_set_witness :
  exists root h_drained h_final R,
    overall_root demo_tree 1%positive root
    /\ CMRmatroiddecSetAttributes (Collaborators := demo_collaborators) root h_drained
       = Done CMR_OKAY h_final
    /\ decs h_final !! root = Some R
    /\ ((0 < regularity R)%Z \/ (regularity R < 0)%Z).
Proof.
  assert (Hrun : exists h',
             CMRregularityCompleteDecomposition (H := demo_collaborators) 10 1%positive
               demo_params None 0 demo_tree = Done CMR_OKAY h')
    by (eexists; vm_compute; reflexivity).
  destruct Hrun as (h' & Hrun).
  destruct (root_regularity_is_set (H := demo_collaborators) 10 demo_params None 0
              demo_tree h') as [_ Hcd].
  destruct (Hcd _ Hrun) as (root & h_drained & h_final & R & Hroot & Hattr & HR & _ & Hreg).
  exists root, h_drained, h_final, R. auto.
Defined.


(* ===================================================================== *)
(** ** Properties of [find_wheel_minor] *)
(* ===================================================================== *)

(** *** Permutations and positions *)

Lemma is_permutation_NoDup (perm : list nat) : is_permutation perm -> NoDup perm.
Proof.
  unfold is_permutation. intros Hp. rewrite Hp. apply NoDup_seq.
Qed.

Lemma is_permutation_bound (perm : list nat) (u : nat) :
  is_permutation perm -> u ∈ perm <-> u < length perm.
Proof.
  unfold is_permutation. intros Hp. rewrite Hp at 1. rewrite elem_of_seq. lia.
Qed.

Lemma perm_at_lookup (perm : list nat) (i : nat) :
  i < length perm -> perm !! i = Some (perm_at perm i).
Proof.
  intros Hi. unfold perm_at. destruct (lookup_lt_is_Some_2 perm i Hi) as [u ->].
  reflexivity.
Qed.

Lemma perm_at_elem (perm : list nat) (i : nat) :
  i < length perm -> perm_at perm i ∈ perm.
Proof.
  intros Hi. eapply list_elem_of_lookup_2. apply perm_at_lookup. exact Hi.
Qed.

Lemma perm_at_inj (perm : list nat) (i j : nat) :
  NoDup perm -> i < length perm -> j < length perm ->
  perm_at perm i = perm_at perm j -> i = j.
Proof.
  intros Hnd Hi Hj Heq.
  eapply NoDup_lookup; [exact Hnd | apply perm_at_lookup; exact Hi |].
  rewrite Heq. apply perm_at_lookup. exact Hj.
Qed.

Lemma perm_as_map (perm : list nat) :
  perm = map (perm_at perm) (seq 0 (length perm)).
Proof.
  apply list_eq. intros i. rewrite list_lookup_fmap.
  destruct (decide (i < length perm)) as [Hi|Hi].
  - rewrite (perm_at_lookup _ _ Hi).
    assert (Hs : seq 0 (length perm) !! i = Some i) by (apply lookup_seq; lia).
    rewrite Hs. reflexivity.
  - rewrite lookup_ge_None_2 by lia.
    rewrite (lookup_ge_None_2 (seq 0 (length perm))) by (rewrite length_seq; lia).
    reflexivity.
Qed.

(** *** Matrices of zeros and ones *)

Lemma binary_entry (x : matrix_permuted) (i j : nat) :
  is_binary x -> i < size1 x -> j < size2 x ->
  matrix_at x i j = 0%Z \/ matrix_at x i j = 1%Z.
Proof.
  intros Hb Hi Hj. destruct (Hb i j Hi Hj) as (row & v & Hrow & Hv & Hbit).
  unfold matrix_at. rewrite Hrow, Hv. exact Hbit.
Qed.

(** On a matrix of zeros and ones, a grown block has a zero in every row
    below it and in every column right of it. *)
Lemma binary_block_maximal (st : wheel_state) (bw bh : nat) :
  is_binary st.2 -> bw <= size2 st.2 -> bh <= size1 st.2 ->
  block_grown st bw bh -> block_maximal st bw bh.
Proof.
  intros Hb Hbw Hbh [Hrows Hcols]. split.
  - intros i Hi. destruct (Hrows i Hi) as (j & Hj & Hne). exists j. split; [exact Hj|].
    destruct (binary_entry _ i j Hb) as [Hz|Ho]; [lia | lia | exact Hz | congruence].
  - intros j Hj. destruct (Hcols j Hj) as (i & Hi & Hne). exists i. split; [exact Hi|].
    destruct (binary_entry _ i j Hb) as [Hz|Ho]; [lia | lia | exact Hz | congruence].
Qed.

(** *** Marking the reached rows and columns *)

Lemma mark_step (perm : list nat) (value : nat -> Z) (hit : Z -> bool) (k : nat)
    (acc : list Z * Z) :
  mark perm value hit (S k) acc =
    (<[perm_at perm k := value k]> (mark perm value hit k acc).1,
     if hit (value k) then size_t ((mark perm value hit k acc).2 + 1)
     else (mark perm value hit k acc).2).
Proof.
  unfold mark. rewrite seq_S, fold_left_app. simpl.
  destruct (fold_left _ (seq 0 k) acc) as [r c]. reflexivity.
Qed.

Lemma mark_spec (perm : list nat) (value : nat -> Z) (hit : Z -> bool) (k : nat)
    (reach0 : list Z) :
  NoDup perm ->
  (forall u, u ∈ perm -> u < length reach0) ->
  k <= length perm ->
  (Z.of_nat k < 2 ^ 64)%Z ->
  length (mark perm value hit k (reach0, 0%Z)).1 = length reach0
  /\ (forall i, i < k ->
        (mark perm value hit k (reach0, 0%Z)).1 !! perm_at perm i = Some (value i))
  /\ (mark perm value hit k (reach0, 0%Z)).2
     = Z.of_nat (length (filter (fun i => hit (value i) = true) (seq 0 k))).
Proof.
  intros Hnd Hbound. induction k as [|k IH]; intros Hk Hsize.
  - split; [reflexivity|]. split; [intros i Hi; lia | reflexivity].
  - destruct IH as (Hlen & Hval & Hcnt); [lia | lia |].
    rewrite mark_step. cbn [fst snd]. split; [rewrite length_insert; exact Hlen|]. split.
    + intros i Hi. destruct (decide (i = k)) as [->|Hne].
      * apply list_lookup_insert_eq. rewrite Hlen. apply Hbound, perm_at_elem. lia.
      * rewrite list_lookup_insert_ne; [apply Hval; lia|].
        intros Heq. apply Hne. symmetry.
        eapply perm_at_inj; [exact Hnd | lia | lia | exact Heq].
    + rewrite seq_S, filter_app, length_app. rewrite Hcnt.
      pose proof (length_filter (fun i => hit (value i) = true) (seq 0 k)) as Hle.
      rewrite length_seq in Hle.
      rewrite filter_cons, filter_nil. cbn [Nat.add]. destruct (hit (value k)) eqn:Hhit.
      * rewrite decide_True by reflexivity. simpl length. unfold size_t.
        rewrite Z.mod_small by lia. lia.
      * rewrite decide_False by discriminate. simpl length. lia.
Qed.

Lemma mark_rows_mark (st : wheel_state) (bfs_result : list bipartite_graph_bfs_node)
    (reach0 : list Z) :
  mark_rows st bfs_result reach0 =
    mark (mx_perm1 st.2) (fun i => row_value (node_at bfs_result
                                     (row_to_index (search_dimensions st) i)))
      (fun v => (v =? 0)%Z) (size1 st.2) (reach0, 0%Z).
Proof. reflexivity. Qed.

Lemma mark_columns_mark (st : wheel_state) (bfs_result : list bipartite_graph_bfs_node)
    (reach0 : list Z) :
  mark_columns st bfs_result reach0 =
    mark (mx_perm2 st.2) (fun j => column_value (node_at bfs_result
                                     (column_to_index (search_dimensions st) j)))
      (fun v => (v <? 2)%Z) (size2 st.2) (reach0, 0%Z).
Proof. reflexivity. Qed.

Lemma row_value_zero (node : bipartite_graph_bfs_node) :
  (row_value node = 0 <-> is_reachable node = false)%Z
  /\ (0 <= row_value node)%Z.
Proof.
  unfold row_value. destruct (is_reachable node); [|split; [tauto | lia]].
  destruct (0 <? distance node)%Z; split; try lia; split; intros; discriminate.
Qed.

Lemma column_value_small (node : bipartite_graph_bfs_node) :
  (column_value node < 2)%Z <-> is_reachable node = false.
Proof.
  unfold column_value. destruct (is_reachable node); [split; [lia | discriminate]|].
  destruct (distance node =? -2)%Z; split; intros; try reflexivity; lia.
Qed.

(** *** Sorted permutations *)

(** In a list sorted by [key], the entries with a key below [t] are exactly
    those at the first positions, as many as there are such entries. *)
Lemma sorted_threshold (key : nat -> Z) (t : Z) (l : list nat) :
  StronglySorted (fun a b => (key a <= key b)%Z) l ->
  forall k x, l !! k = Some x ->
    (k < length (filter (fun u => (key u < t)%Z) l) <-> (key x < t)%Z).
Proof.
  induction 1 as [|a l Hs IH Hall]; intros k x Hk; [discriminate|].
  rewrite filter_cons. destruct (decide (key a < t)%Z) as [Ha|Ha].
  - destruct k as [|k]; simpl in *.
    + injection Hk as <-. split; [intros _; exact Ha | lia].
    + rewrite <- (IH k x Hk). lia.
  - assert (Hnone : filter (fun u => (key u < t)%Z) l = []).
    { clear IH Hs Hk. induction Hall as [|y l Hy _ IHl]; [reflexivity|].
      rewrite filter_cons, decide_False by lia. exact IHl. }
    rewrite Hnone. simpl. split; [lia|]. intros Hx. exfalso.
    destruct k as [|k]; simpl in Hk.
    + injection Hk as <-. lia.
    + rewrite Forall_forall in Hall.
      specialize (Hall x (list_elem_of_lookup_2 _ _ _ Hk)). lia.
Qed.

Lemma StronglySorted_weaken (R R' : nat -> nat -> Prop) (l : list nat) :
  (forall a b, R a b -> R' a b) -> StronglySorted R l -> StronglySorted R' l.
Proof.
  intros Himp. induction 1 as [|a l _ IH Hall]; constructor; [exact IH|].
  eapply Forall_impl; [exact Hall | apply Himp].
Qed.

Lemma sorted_by_vector_less (reachable : list Z) (input output : list nat) :
  sorted_by (vector_less reachable) input output ->
  output ≡ₚ input
  /\ StronglySorted (fun a b => (default 0 (reachable !! a) <= default 0 (reachable !! b))%Z)
       output.
Proof.
  intros [Hp Hs]. split; [exact Hp|].
  eapply StronglySorted_weaken; [|exact Hs].
  intros a b Hless. unfold vector_less in Hless. apply Z.ltb_ge in Hless. exact Hless.
Qed.

Lemma length_filter_map {A B : Type} (f : A -> B) (P : B -> Prop)
    `{forall b, Decision (P b)} (l : list A) :
  length (filter P (map f l)) = length (filter (fun a => P (f a)) l).
Proof.
  induction l as [|a l IH]; [reflexivity|].
  simpl map. rewrite !filter_cons. destruct (decide (P (f a))); simpl; lia.
Qed.

Lemma filter_ext_elem {A : Type} (P Q : A -> Prop) `{forall a, Decision (P a)}
    `{forall a, Decision (Q a)} (l : list A) :
  (forall a, a ∈ l -> (P a <-> Q a)) -> filter P l = filter Q l.
Proof.
  induction l as [|a l IH]; intros Hext; [reflexivity|].
  rewrite !filter_cons.
  assert (Ha : P a <-> Q a) by (apply Hext; left).
  rewrite IH by (intros b Hb; apply Hext; right; exact Hb).
  destruct (decide (P a)), (decide (Q a)); tauto.
Qed.

(** One marking loop followed by the sort it feeds: the count is the number
    of positions whose value is below [t], and in the sorted permutation
    exactly the first so many entries come from such positions. *)
Lemma sorted_marking (perm perm' : list nat) (value : nat -> Z) (hit : Z -> bool)
    (t : Z) (reach0 : list Z) :
  is_permutation perm ->
  length reach0 = length perm ->
  (Z.of_nat (length perm) < 2 ^ 64)%Z ->
  (forall i, hit (value i) = true <-> (value i < t)%Z) ->
  sorted_by (vector_less (mark perm value hit (length perm) (reach0, 0%Z)).1) perm perm' ->
  perm' ≡ₚ perm
  /\ (mark perm value hit (length perm) (reach0, 0%Z)).2
     = Z.of_nat (length (filter (fun i => (value i < t)%Z) (seq 0 (length perm))))
  /\ forall k x, perm' !! k = Some x ->
       exists i, perm !! i = Some x
         /\ ((Z.of_nat k < (mark perm value hit (length perm) (reach0, 0%Z)).2)%Z
             <-> (value i < t)%Z).
Proof.
  intros Hperm Hlen Hsize Hhit Hsorted.
  pose proof (is_permutation_NoDup _ Hperm) as Hnd.
  destruct (mark_spec perm value hit (length perm) reach0 Hnd) as (_ & Hval & Hcnt);
    [intros u Hu; rewrite Hlen; apply is_permutation_bound; assumption | lia | exact Hsize |].
  set (m := mark perm value hit (length perm) (reach0, 0%Z)) in *.
  apply sorted_by_vector_less in Hsorted as [Hp Hs].
  set (key := fun u => default 0%Z (m.1 !! u)) in *.
  assert (Hkey : forall i, i < length perm -> key (perm_at perm i) = value i).
  { intros i Hi. unfold key. rewrite (Hval i Hi). reflexivity. }
  assert (Hcount : length (filter (fun u => (key u < t)%Z) perm')
                   = length (filter (fun i => (value i < t)%Z) (seq 0 (length perm)))).
  { rewrite Hp. rewrite (perm_as_map perm) at 1.
    rewrite (length_filter_map (perm_at perm) (fun u => (key u < t)%Z)).
    f_equal. apply filter_ext_elem. intros i Hi. apply elem_of_seq in Hi.
    rewrite Hkey by lia. reflexivity. }
  split; [exact Hp|]. split.
  - rewrite Hcnt. f_equal. f_equal. apply filter_ext_elem. intros i _. apply Hhit.
  - intros k x Hk.
    assert (Hx : x ∈ perm) by (rewrite <- Hp; eapply list_elem_of_lookup_2; exact Hk).
    apply list_elem_of_lookup_1 in Hx as [i Hi]. exists i. split; [exact Hi|].
    pose proof (lookup_lt_Some _ _ _ Hi) as Hlt.
    assert (Hxi : x = perm_at perm i) by (unfold perm_at; rewrite Hi; reflexivity).
    rewrite <- (Hkey i Hlt), <- Hxi.
    rewrite <- (sorted_threshold key t perm' Hs k x Hk).
    rewrite Hcnt, Hcount.
    replace (filter (fun i0 => hit (value i0) = true) (seq 0 (length perm)))
      with (filter (fun i0 => (value i0 < t)%Z) (seq 0 (length perm)))
      by (apply filter_ext_elem; intros j _; symmetry; apply Hhit).
    lia.
Qed.

(** *** No path: the separation *)

Lemma separate_unfold `{WheelHelpers} (st : wheel_state) (extra : matroid_element_set)
    (bfs_result : list bipartite_graph_bfs_node) :
  length (sort (mx_perm1 st.2) (vector_less (row_marks st bfs_result)))
    = length (mx_perm1 st.2) ->
  separate st extra bfs_result =
    let first := (mark_rows st bfs_result (replicate (size1 st.2) 0%Z)).2 in
    let second :=
      (mark_columns st bfs_result (resize (size2 st.2) 0%Z (row_marks st bfs_result))).2 in
    let perm1 := sort (mx_perm1 st.2) (vector_less (row_marks st bfs_result)) in
    let perm2 := sort (mx_perm2 st.2) (vector_less (column_marks st bfs_result)) in
    WheelResult (Separation (first, second) [(first, size_t (second - 1))])
      (MatroidPermuted (names1 st.1) (names2 st.1) perm1 perm2,
       MatrixPermuted (data st.2) perm1 perm2) extra.
Proof.
  intros Hlen. unfold separate, column_marks, row_marks in *.
  destruct (mark_rows st bfs_result (replicate (size1 st.2) 0%Z)) as [reach1 first] eqn:E1.
  cbn [fst snd] in *.
  match goal with
  | |- context [mark_columns ?s1 bfs_result ?r] =>
      assert (E : mark_columns s1 bfs_result r = mark_columns st bfs_result r)
  end.
  { unfold mark_columns, search_dimensions, size1, size2. cbn [fst snd mx_perm1 mx_perm2].
    rewrite Hlen. reflexivity. }
  unfold size2 in E |- *. cbn [fst snd mx_perm1 mx_perm2] in E |- *. rewrite E.
  destruct (mark_columns st bfs_result _) as [reach2 second]. reflexivity.
Qed.

(** The block that [grow_block] leaves is at least 2 by 2. *)
Lemma grow_block_at_least_2 `{WheelHelpers} (st0 st : wheel_state)
    (extra0 extra : matroid_element_set) (bw bh : nat) :
  grow_block st0 extra0 = Returned (Grown st extra bw bh) -> 2 <= bw /\ 2 <= bh.
Proof.
  unfold grow_block, asserting. intros Hgrow.
  repeat (case_match; try discriminate).
  all: injection Hgrow as <- <- <- <-; lia.
Qed.

(** *** No path: what the separation certifies *)

(** Entries read through two views of the same data. *)
Lemma matrix_at_through (x y : matrix_permuted) (i j i' j' : nat) :
  data x = data y ->
  perm_at (mx_perm1 x) i = perm_at (mx_perm1 y) i' ->
  perm_at (mx_perm2 x) j = perm_at (mx_perm2 y) j' ->
  matrix_at x i j = matrix_at y i' j'.
Proof.
  intros Hd H1 H2. unfold matrix_at. rewrite Hd, H1, H2. reflexivity.
Qed.

Lemma sorted_lookup_le (R : nat -> nat -> Prop) (l : list nat) :
  StronglySorted R l ->
  forall a b x y, a < b -> l !! a = Some x -> l !! b = Some y -> R x y.
Proof.
  induction 1 as [|u l _ IH Hall]; intros a b x y Hab Ha Hb; [discriminate|].
  destruct b as [|b]; [lia|]. destruct a as [|a]; simpl in Ha, Hb.
  - injection Ha as <-. rewrite Forall_forall in Hall. apply Hall.
    eapply list_elem_of_lookup_2. exact Hb.
  - apply (IH a b); [lia | assumption | assumption].
Qed.

(** The sorted permutation lists the positions by values that do not
    decrease. *)
Lemma sorted_marking_order (perm perm' : list nat) (value : nat -> Z) (hit : Z -> bool)
    (reach0 : list Z) :
  is_permutation perm ->
  length reach0 = length perm ->
  (Z.of_nat (length perm) < 2 ^ 64)%Z ->
  sorted_by (vector_less (mark perm value hit (length perm) (reach0, 0%Z)).1) perm perm' ->
  forall k k' x x' i i',
    k <= k' -> perm' !! k = Some x -> perm' !! k' = Some x' ->
    perm !! i = Some x -> perm !! i' = Some x' ->
    (value i <= value i')%Z.
Proof.
  intros Hperm Hlen Hsize Hsorted k k' x x' i i' Hkk Hk Hk' Hi Hi'.
  pose proof (is_permutation_NoDup _ Hperm) as Hnd.
  destruct (mark_spec perm value hit (length perm) reach0 Hnd) as (_ & Hval & _);
    [intros u Hu; rewrite Hlen; apply is_permutation_bound; assumption | lia | exact Hsize |].
  apply sorted_by_vector_less in Hsorted as [_ Hs].
  pose proof (lookup_lt_Some _ _ _ Hi) as Hlt.
  pose proof (lookup_lt_Some _ _ _ Hi') as Hlt'.
  assert (Hx : x = perm_at perm i) by (unfold perm_at; rewrite Hi; reflexivity).
  assert (Hx' : x' = perm_at perm i') by (unfold perm_at; rewrite Hi'; reflexivity).
  destruct (decide (k = k')) as [->|Hne].
  - assert (Hxx : x = x') by congruence.
    assert (Hii : i = i').
    { eapply NoDup_lookup; [exact Hnd | exact Hi | rewrite Hi', Hxx; reflexivity]. }
    rewrite Hii. lia.
  - pose proof (sorted_lookup_le _ _ Hs k k' x x' ltac:(lia) Hk Hk') as Hle.
    cbn beta in Hle. rewrite Hx, Hx' in Hle.
    rewrite (Hval i Hlt), (Hval i' Hlt') in Hle. exact Hle.
Qed.

Section Certificate.

Variables (st : wheel_state) (y : matrix_permuted) (bw bh : nat).
Variables (res : list bipartite_graph_bfs_node) (F G : nat).

Hypothesis Hp1 : is_permutation (mx_perm1 st.2).
Hypothesis Hp2 : is_permutation (mx_perm2 st.2).
Hypothesis Hdata : data y = data st.2.
Hypothesis Hperm1 : mx_perm1 y ≡ₚ mx_perm1 st.2.
Hypothesis Hperm2 : mx_perm2 y ≡ₚ mx_perm2 st.2.
Hypothesis Hrows : forall k x, mx_perm1 y !! k = Some x ->
  exists i, mx_perm1 st.2 !! i = Some x /\ (k < F <-> row_reached st res i = false).
Hypothesis Hcols : forall l x, mx_perm2 y !! l = Some x ->
  exists j, mx_perm2 st.2 !! j = Some x /\ (l < G <-> column_reached st res j = false).
Hypothesis Hsearch : search_exhausted st bw bh res.
Hypothesis Hblock : block_of_ones st bw bh.

Lemma row_origin (k : nat) :
  k < size1 st.2 ->
  exists i, i < size1 st.2
    /\ mx_perm1 y !! k = Some (perm_at (mx_perm1 st.2) i)
    /\ perm_at (mx_perm1 y) k = perm_at (mx_perm1 st.2) i
    /\ (k < F <-> row_reached st res i = false).
Proof.
  intros Hk. unfold size1 in *.
  destruct (lookup_lt_is_Some_2 (mx_perm1 y) k) as [x Hx];
    [rewrite (Permutation_length Hperm1); exact Hk|].
  destruct (Hrows k x Hx) as (i & Hi & Hiff). exists i.
  assert (Hxi : x = perm_at (mx_perm1 st.2) i) by (unfold perm_at; rewrite Hi; reflexivity).
  split; [eapply lookup_lt_Some; exact Hi|].
  split; [rewrite Hx, Hxi; reflexivity|].
  split; [unfold perm_at at 1; rewrite Hx; exact Hxi | exact Hiff].
Qed.

Lemma column_origin (l : nat) :
  l < size2 st.2 ->
  exists j, j < size2 st.2
    /\ mx_perm2 y !! l = Some (perm_at (mx_perm2 st.2) j)
    /\ perm_at (mx_perm2 y) l = perm_at (mx_perm2 st.2) j
    /\ (l < G <-> column_reached st res j = false).
Proof.
  intros Hl. unfold size2 in *.
  destruct (lookup_lt_is_Some_2 (mx_perm2 y) l) as [x Hx];
    [rewrite (Permutation_length Hperm2); exact Hl|].
  destruct (Hcols l x Hx) as (j & Hj & Hiff). exists j.
  assert (Hxj : x = perm_at (mx_perm2 st.2) j) by (unfold perm_at; rewrite Hj; reflexivity).
  split; [eapply lookup_lt_Some; exact Hj|].
  split; [rewrite Hx, Hxj; reflexivity|].
  split; [unfold perm_at at 1; rewrite Hx; exact Hxj | exact Hiff].
Qed.

Lemma row_position (i : nat) :
  i < size1 st.2 ->
  exists k, k < size1 st.2
    /\ mx_perm1 y !! k = Some (perm_at (mx_perm1 st.2) i)
    /\ (k < F <-> row_reached st res i = false).
Proof.
  intros Hi. unfold size1 in *.
  assert (Hin : perm_at (mx_perm1 st.2) i ∈ mx_perm1 y).
  { generalize (perm_at_elem _ _ Hi). generalize (perm_at (mx_perm1 st.2) i).
    intros x Hx. rewrite Hperm1. exact Hx. }
  apply list_elem_of_lookup_1 in Hin as [k Hk]. exists k.
  split; [rewrite <- (Permutation_length Hperm1); eapply lookup_lt_Some; exact Hk|].
  split; [exact Hk|].
  destruct (Hrows k _ Hk) as (i' & Hi' & Hiff).
  assert (i' = i) as ->; [|exact Hiff].
  eapply NoDup_lookup; [apply is_permutation_NoDup, Hp1 | exact Hi' |].
  apply perm_at_lookup. exact Hi.
Qed.

Lemma column_position (j : nat) :
  j < size2 st.2 ->
  exists l, l < size2 st.2
    /\ mx_perm2 y !! l = Some (perm_at (mx_perm2 st.2) j)
    /\ (l < G <-> column_reached st res j = false).
Proof.
  intros Hj. unfold size2 in *.
  assert (Hin : perm_at (mx_perm2 st.2) j ∈ mx_perm2 y).
  { generalize (perm_at_elem _ _ Hj). generalize (perm_at (mx_perm2 st.2) j).
    intros x Hx. rewrite Hperm2. exact Hx. }
  apply list_elem_of_lookup_1 in Hin as [l Hl]. exists l.
  split; [rewrite <- (Permutation_length Hperm2); eapply lookup_lt_Some; exact Hl|].
  split; [exact Hl|].
  destruct (Hcols l _ Hl) as (j' & Hj' & Hiff).
  assert (j' = j) as ->; [|exact Hiff].
  eapply NoDup_lookup; [apply is_permutation_NoDup, Hp2 | exact Hj' |].
  apply perm_at_lookup. exact Hj.
Qed.

(** A row that was not reached has zeros in the columns that were. *)
Lemma entry_outside (i j : nat) :
  i < size1 st.2 -> j < size2 st.2 ->
  row_reached st res i = false -> column_reached st res j = true ->
  matrix_at st.2 i j = 0%Z.
Proof.
  intros Hi Hj Hr Hc. destruct Hsearch as (Hstart & _ & Hclosed).
  destruct (decide (matrix_at st.2 i j = 0%Z)) as [|Hnz]; [assumption|]. exfalso.
  assert (Hlow : ~ i < bh).
  { intros Hlt. apply (Hstart i Hi) in Hlt. unfold row_reached, is_reachable in Hr.
    rewrite Hlt in Hr. discriminate. }
  assert (Hm : modified_matrix st.2 bh bw i j <> 0%Z).
  { unfold modified_matrix, zero_block_matrix_modifier.
    rewrite (bool_decide_eq_false_2 _ Hlow). exact Hnz. }
  specialize (Hclosed i j Hi Hj Hm). congruence.
Qed.

(** A row that was reached has, in the columns that were not, ones inside
    the block and zeros outside. *)
Lemma entry_inside (i j : nat) :
  i < size1 st.2 -> j < size2 st.2 ->
  row_reached st res i = true -> column_reached st res j = false ->
  matrix_at st.2 i j
  = if bool_decide (i < bh) && bool_decide (j < bw) then 1%Z else 0%Z.
Proof.
  intros Hi Hj Hr Hc. destruct Hsearch as (_ & _ & Hclosed).
  destruct Hblock as (_ & _ & Hones).
  destruct (bool_decide (i < bh) && bool_decide (j < bw)) eqn:E.
  - apply andb_true_iff in E as [E1 E2].
    apply bool_decide_eq_true in E1, E2. apply Hones; assumption.
  - destruct (decide (matrix_at st.2 i j = 0%Z)) as [|Hnz]; [assumption|]. exfalso.
    assert (Hm : modified_matrix st.2 bh bw i j <> 0%Z).
    { unfold modified_matrix, zero_block_matrix_modifier. rewrite E. exact Hnz. }
    specialize (Hclosed i j Hi Hj Hm). congruence.
Qed.

Hypothesis Hrow_order : forall k k' x x' i i',
  k <= k' -> mx_perm1 y !! k = Some x -> mx_perm1 y !! k' = Some x' ->
  mx_perm1 st.2 !! i = Some x -> mx_perm1 st.2 !! i' = Some x' ->
  (row_value (node_at res (row_to_index (search_dimensions st) i))
   <= row_value (node_at res (row_to_index (search_dimensions st) i')))%Z.
Hypothesis Hcolumn_order : forall l l' x x' j j',
  l <= l' -> mx_perm2 y !! l = Some x -> mx_perm2 y !! l' = Some x' ->
  mx_perm2 st.2 !! j = Some x -> mx_perm2 st.2 !! j' = Some x' ->
  (column_value (node_at res (column_to_index (search_dimensions st) j))
   <= column_value (node_at res (column_to_index (search_dimensions st) j')))%Z.
Hypothesis Hbw1 : 1 <= bw.
Hypothesis Hbh1 : 1 <= bh.
Hypothesis HGsize : G <= size2 st.2.

(** The first row after those not reached is a row of the block. *)
Lemma first_reached_row :
  F < size1 st.2
  /\ exists i, i < bh /\ perm_at (mx_perm1 y) F = perm_at (mx_perm1 st.2) i.
Proof.
  destruct Hsearch as (Hstart & _ & _). destruct Hblock as (Hbh & _ & _).
  assert (H0 : 0 < size1 st.2) by lia.
  assert (Hd0 : distance (node_at res (row_to_index (search_dimensions st) 0)) = 0%Z)
    by (apply (Hstart 0 H0); lia).
  destruct (row_position 0 H0) as (k0 & Hk0 & Hx0 & Hiff0).
  assert (HF : F <= k0).
  { destruct (decide (k0 < F)) as [Hlt|]; [|lia].
    apply Hiff0 in Hlt. unfold row_reached, is_reachable in Hlt.
    rewrite Hd0 in Hlt. discriminate. }
  split; [lia|].
  destruct (row_origin F ltac:(lia)) as (i & Hi & Hx & Hat & Hiff).
  exists i. split; [|exact Hat].
  assert (Hr : row_reached st res i = true).
  { apply not_false_iff_true. intros E. apply Hiff in E. lia. }
  pose proof (Hrow_order F k0 _ _ i 0 HF Hx Hx0
                (perm_at_lookup _ _ Hi) (perm_at_lookup _ _ H0)) as Hle.
  unfold row_reached in Hr. unfold row_value in Hle. rewrite Hr in Hle.
  unfold is_reachable in Hr, Hle. rewrite Hd0 in Hle. simpl in Hle.
  apply Z.leb_le in Hr.
  apply (Hstart i Hi).
  destruct (0 <? distance (node_at res (row_to_index (search_dimensions st) i)))%Z eqn:E;
    [simpl in Hle; lia|].
  apply Z.ltb_ge in E. lia.
Qed.

(** The last column of those not reached is a column of the block. *)
Lemma last_unreached_column :
  1 <= G
  /\ exists j, j < bw /\ perm_at (mx_perm2 y) (G - 1) = perm_at (mx_perm2 st.2) j.
Proof.
  destruct Hsearch as (_ & Hend & _). destruct Hblock as (_ & Hbw & _).
  assert (H0 : 0 < size2 st.2) by lia.
  assert (Hd0 : distance (node_at res (column_to_index (search_dimensions st) 0))
                = (-2)%Z) by (apply (Hend 0 H0); lia).
  destruct (column_position 0 H0) as (l0 & Hl0 & Hx0 & Hiff0).
  assert (HG : l0 < G).
  { apply Hiff0. unfold column_reached, is_reachable. rewrite Hd0. reflexivity. }
  split; [lia|].
  assert (HGs : G - 1 < size2 st.2) by lia.
  destruct (column_origin (G - 1) HGs) as (j & Hj & Hx & Hat & Hiff).
  exists j. split; [|exact Hat].
  assert (Hr : column_reached st res j = false) by (apply Hiff; lia).
  pose proof (Hcolumn_order l0 (G - 1) _ _ 0 j ltac:(lia) Hx0 Hx
                (perm_at_lookup _ _ H0) (perm_at_lookup _ _ Hj)) as Hle.
  unfold column_reached in Hr. unfold column_value in Hle. rewrite Hr in Hle.
  unfold is_reachable in Hle. rewrite Hd0 in Hle. simpl in Hle.
  apply (Hend j Hj).
  destruct (distance (node_at res (column_to_index (search_dimensions st) j)) =? -2)%Z
    eqn:E; [apply Z.eqb_eq in E; exact E | simpl in Hle; lia].
Qed.

(** The two off-diagonal blocks and the witness of the separation: the
    block of the rows not reached and the columns reached is zero; the
    2 by 2 minors of the block of the rows reached and the columns not
    reached vanish; and the witness is a one of the latter block. *)
Lemma certified_blocks :
  (forall k l, k < F -> G <= l < size2 st.2 -> matrix_at y k l = 0%Z)
  /\ (forall k k' l l',
        F <= k < size1 st.2 -> F <= k' < size1 st.2 -> l < G -> l' < G ->
        (matrix_at y k l * matrix_at y k' l' = matrix_at y k l' * matrix_at y k' l)%Z)
  /\ F < size1 st.2
  /\ 1 <= G <= size2 st.2
  /\ matrix_at y F (G - 1) = 1%Z.
Proof.
  destruct first_reached_row as (HF & i0 & Hi0 & Hat0).
  destruct last_unreached_column as (HG & j0 & Hj0 & Hatj0).
  split; [|split; [|split; [exact HF|split; [lia|]]]].
  - intros k l Hk Hl.
    destruct (row_origin k ltac:(lia)) as (i & Hi & _ & Hat & Hiff).
    destruct (column_origin l ltac:(lia)) as (j & Hj & _ & Hatj & Hiffj).
    rewrite (matrix_at_through y st.2 k l i j Hdata Hat Hatj).
    apply entry_outside; [assumption | assumption | apply Hiff; lia |].
    apply not_false_iff_true. intros E. apply Hiffj in E. lia.
  - intros k k' l l' Hk Hk' Hl Hl'.
    destruct (row_origin k ltac:(lia)) as (i & Hi & _ & Hat & Hiff).
    destruct (row_origin k' ltac:(lia)) as (i' & Hi' & _ & Hat' & Hiff').
    destruct (column_origin l ltac:(lia)) as (j & Hj & _ & Hatj & Hiffj).
    destruct (column_origin l' ltac:(lia)) as (j' & Hj' & _ & Hatj' & Hiffj').
    assert (Hr : row_reached st res i = true).
    { apply not_false_iff_true. intros E. apply Hiff in E. lia. }
    assert (Hr' : row_reached st res i' = true).
    { apply not_false_iff_true. intros E. apply Hiff' in E. lia. }
    assert (Hc : column_reached st res j = false) by (apply Hiffj; lia).
    assert (Hc' : column_reached st res j' = false) by (apply Hiffj'; lia).
    rewrite (matrix_at_through y st.2 k l i j Hdata Hat Hatj).
    rewrite (matrix_at_through y st.2 k' l' i' j' Hdata Hat' Hatj').
    rewrite (matrix_at_through y st.2 k l' i j' Hdata Hat Hatj').
    rewrite (matrix_at_through y st.2 k' l i' j Hdata Hat' Hatj).
    rewrite !entry_inside by assumption.
    destruct (bool_decide (i < bh)), (bool_decide (i' < bh)),
      (bool_decide (j < bw)), (bool_decide (j' < bw)); reflexivity.
  - rewrite (matrix_at_through y st.2 F (G - 1) i0 j0 Hdata Hat0 Hatj0).
    destruct Hblock as (_ & _ & Hones). apply Hones; assumption.
Qed.

End Certificate.

(** What is returned when the search finds no path: the separation, the
    two permutations and the order in which they list the rows and the
    columns. *)
Lemma separation_returned `{WheelHelpers} (st0 st : wheel_state)
    (extra0 extra : matroid_element_set) (block_width block_height : nat)
    (bfs_result : list bipartite_graph_bfs_node) :
  grow_block st0 extra0 = Returned (Grown st extra block_width block_height) ->
  search_path st block_width block_height = (false, bfs_result) ->
  is_permutation (mx_perm1 st.2) ->
  is_permutation (mx_perm2 st.2) ->
  (Z.of_nat (size1 st.2) < 2 ^ 64)%Z ->
  (Z.of_nat (size2 st.2) < 2 ^ 64)%Z ->
  sorts_as_specified st bfs_result ->
  exists (r : wheel_result) (first second : Z),
    find_wheel_minor st0 extra0 = Returned r
    /\ wr_separation r = Separation (first, second) [(first, size_t (second - 1))]
    /\ wr_separation r <> separation_none
    /\ separation_order (wr_separation r) = 2
    /\ first = Z.of_nat (length (filter (fun i => row_reached st bfs_result i = false)
                                   (seq 0 (size1 st.2))))
    /\ second = Z.of_nat (length (filter (fun j => column_reached st bfs_result j = false)
                                    (seq 0 (size2 st.2))))
    /\ data (wr_state r).2 = data st.2
    /\ mx_perm1 (wr_state r).2 ≡ₚ mx_perm1 st.2
    /\ mx_perm2 (wr_state r).2 ≡ₚ mx_perm2 st.2
    /\ md_perm1 (wr_state r).1 = mx_perm1 (wr_state r).2
    /\ md_perm2 (wr_state r).1 = mx_perm2 (wr_state r).2
    /\ (forall k x, mx_perm1 (wr_state r).2 !! k = Some x ->
          exists i, mx_perm1 st.2 !! i = Some x
            /\ ((Z.of_nat k < first)%Z <-> row_reached st bfs_result i = false))
    /\ (forall k x, mx_perm2 (wr_state r).2 !! k = Some x ->
          exists j, mx_perm2 st.2 !! j = Some x
            /\ ((Z.of_nat k < second)%Z <-> column_reached st bfs_result j = false))
    /\ (forall k k' x x' i i',
          k <= k' -> mx_perm1 (wr_state r).2 !! k = Some x ->
          mx_perm1 (wr_state r).2 !! k' = Some x' ->
          mx_perm1 st.2 !! i = Some x -> mx_perm1 st.2 !! i' = Some x' ->
          (row_value (node_at bfs_result (row_to_index (search_dimensions st) i))
           <= row_value (node_at bfs_result (row_to_index (search_dimensions st) i')))%Z)
    /\ (forall l l' x x' j j',
          l <= l' -> mx_perm2 (wr_state r).2 !! l = Some x ->
          mx_perm2 (wr_state r).2 !! l' = Some x' ->
          mx_perm2 st.2 !! j = Some x -> mx_perm2 st.2 !! j' = Some x' ->
          (column_value (node_at bfs_result (column_to_index (search_dimensions st) j))
           <= column_value (node_at bfs_result
                              (column_to_index (search_dimensions st) j')))%Z).
Proof.
  intros Hgrow Hbfs Hp1 Hp2 Hs1 Hs2 [Hsort1 Hsort2].
  unfold row_marks in Hsort1. rewrite mark_rows_mark in Hsort1.
  assert (Hhit1 : forall i,
             (row_value (node_at bfs_result (row_to_index (search_dimensions st) i))
                =? 0)%Z = true
             <-> (row_value (node_at bfs_result (row_to_index (search_dimensions st) i))
                  < 1)%Z).
  { intros i. rewrite Z.eqb_eq.
    destruct (row_value_zero (node_at bfs_result
                (row_to_index (search_dimensions st) i))) as [_ Hnn]. lia. }
  destruct (sorted_marking _ _ _ _ 1%Z _ Hp1 (length_replicate _ _) Hs1 Hhit1 Hsort1)
    as (Hperm1 & Hfirst & Hrows).
  pose proof (sorted_marking_order _ _ _ _ _ Hp1 (length_replicate _ _) Hs1 Hsort1)
    as Horder1.
  unfold column_marks in Hsort2. rewrite mark_columns_mark in Hsort2.
  assert (Hhit2 : forall j,
             (column_value (node_at bfs_result (column_to_index (search_dimensions st) j))
                <? 2)%Z = true
             <-> (column_value (node_at bfs_result
                                  (column_to_index (search_dimensions st) j)) < 2)%Z)
    by (intros j; apply Z.ltb_lt).
  destruct (sorted_marking _ _ _ _ 2%Z _ Hp2 (length_resize _ _ _) Hs2 Hhit2 Hsort2)
    as (Hperm2 & Hsecond & Hcols).
  pose proof (sorted_marking_order _ _ _ _ _ Hp2 (length_resize _ _ _) Hs2 Hsort2)
    as Horder2.
  rewrite <- mark_rows_mark in Hperm1, Hfirst, Hrows.
  rewrite <- mark_columns_mark in Hperm2, Hsecond, Hcols.
  fold (row_marks st bfs_result) in Hperm1, Hperm2, Hsecond, Hcols.
  fold (column_marks st bfs_result) in Hperm2.
  eexists _, _, _. split.
  { unfold find_wheel_minor. rewrite Hgrow. cbn [wheel_bind]. rewrite Hbfs.
    cbn [negb]. rewrite separate_unfold by (apply Permutation_length, Hperm1).
    cbv zeta. reflexivity. }
  cbn [wr_separation wr_state wr_extra fst snd data mx_perm1 mx_perm2 md_perm1 md_perm2].
  split; [reflexivity|]. split; [discriminate|]. split; [reflexivity|].
  unfold size1, size2 in *.
  split.
  { rewrite Hfirst. f_equal. f_equal. apply filter_ext_elem. intros i _.
    unfold row_reached.
    destruct (row_value_zero (node_at bfs_result (row_to_index (search_dimensions st) i)))
      as [Hz Hnn].
    rewrite <- Hz. lia. }
  split.
  { rewrite Hsecond. f_equal. f_equal. apply filter_ext_elem. intros j _.
    unfold column_reached. apply column_value_small. }
  split; [reflexivity|]. split; [exact Hperm1|]. split; [exact Hperm2|].
  split; [reflexivity|]. split; [reflexivity|]. split; [|split; [|split]].
  - intros k x Hk. destruct (Hrows k x Hk) as (i & Hi & Hiff). exists i.
    split; [exact Hi|]. rewrite Hiff. unfold row_reached.
    destruct (row_value_zero (node_at bfs_result (row_to_index (search_dimensions st) i)))
      as [Hz Hnn].
    rewrite <- Hz. lia.
  - intros k x Hk. destruct (Hcols k x Hk) as (j & Hj & Hiff). exists j.
    split; [exact Hj|]. rewrite Hiff. unfold column_reached. apply column_value_small.
  - exact Horder1.
  - exact Horder2.
Qed.

(** C8. When the search finds no path, [find_wheel_minor] returns a
    non-empty separation of order 2: its split is (number of rows not
    reached, number of columns not reached), with one witness; the data is
    untouched; the row (column) permutation is rearranged so that exactly
    the rows (columns) not reached come first, at the top (left); and the
    matroid gets the same two permutations.  When the search was exhaustive
    and the block holds ones, the separation is certified: the block of the
    rows above and the columns right of the split point is zero, the 2 by 2
    minors of the block below and left of it vanish, and the witness is a
    one of the latter block. *)
Theorem no_path_gives_separation `{WheelHelpers} (st0 st : wheel_state)
    (extra0 extra : matroid_element_set) (block_width block_height : nat)
    (bfs_result : list bipartite_graph_bfs_node) :
  grow_block st0 extra0 = Returned (Grown st extra block_width block_height) ->
  search_path st block_width block_height = (false, bfs_result) ->
  is_permutation (mx_perm1 st.2) ->
  is_permutation (mx_perm2 st.2) ->
  (Z.of_nat (size1 st.2) < 2 ^ 64)%Z ->
  (Z.of_nat (size2 st.2) < 2 ^ 64)%Z ->
  sorts_as_specified st bfs_result ->
  exists (r : wheel_result) (first second : Z),
    find_wheel_minor st0 extra0 = Returned r
    /\ wr_separation r = Separation (first, second) [(first, size_t (second - 1))]
    /\ wr_separation r <> separation_none
    /\ separation_order (wr_separation r) = 2
    /\ first = Z.of_nat (length (filter (fun i => row_reached st bfs_result i = false)
                                   (seq 0 (size1 st.2))))
    /\ second = Z.of_nat (length (filter (fun j => column_reached st bfs_result j = false)
                                    (seq 0 (size2 st.2))))
    /\ data (wr_state r).2 = data st.2
    /\ mx_perm1 (wr_state r).2 ≡ₚ mx_perm1 st.2
    /\ mx_perm2 (wr_state r).2 ≡ₚ mx_perm2 st.2
    /\ md_perm1 (wr_state r).1 = mx_perm1 (wr_state r).2
    /\ md_perm2 (wr_state r).1 = mx_perm2 (wr_state r).2
    /\ (forall k x, mx_perm1 (wr_state r).2 !! k = Some x ->
          exists i, mx_perm1 st.2 !! i = Some x
            /\ ((Z.of_nat k < first)%Z <-> row_reached st bfs_result i = false))
    /\ (forall k x, mx_perm2 (wr_state r).2 !! k = Some x ->
          exists j, mx_perm2 st.2 !! j = Some x
            /\ ((Z.of_nat k < second)%Z <-> column_reached st bfs_result j = false))
    /\ (search_exhausted st block_width block_height bfs_result ->
        block_of_ones st block_width block_height ->
        (forall k l,
           (Z.of_nat k < first)%Z -> (second <= Z.of_nat l)%Z -> l < size2 st.2 ->
           matrix_at (wr_state r).2 k l = 0%Z)
        /\ (forall k k' l l',
              (first <= Z.of_nat k)%Z -> k < size1 st.2 ->
              (first <= Z.of_nat k')%Z -> k' < size1 st.2 ->
              (Z.of_nat l < second)%Z -> (Z.of_nat l' < second)%Z ->
              (matrix_at (wr_state r).2 k l * matrix_at (wr_state r).2 k' l'
               = matrix_at (wr_state r).2 k l' * matrix_at (wr_state r).2 k' l)%Z)
        /\ (first < Z.of_nat (size1 st.2))%Z
        /\ (1 <= second <= Z.of_nat (size2 st.2))%Z
        /\ matrix_at (wr_state r).2 (Z.to_nat first) (Z.to_nat (size_t (second - 1)))
           = 1%Z).
Proof.
  intros Hgrow Hbfs Hp1 Hp2 Hs1 Hs2 Hsort.
  destruct (separation_returned st0 st extra0 extra block_width block_height bfs_result
              Hgrow Hbfs Hp1 Hp2 Hs1 Hs2 Hsort)
    as (r & first & second & Hrun & Hsep & Hnone & Horder & Hfirst & Hsecond & Hdata
        & Hperm1 & Hperm2 & Hm1 & Hm2 & Hrows & Hcols & Ho1 & Ho2).
  exists r, first, second.
  do 13 (split; [assumption|]).
  intros Hsearch Hblock.
  destruct (grow_block_at_least_2 _ _ _ _ _ _ Hgrow) as [Hbw2 Hbh2].
  set (F := length (filter (fun i => row_reached st bfs_result i = false)
                      (seq 0 (size1 st.2)))) in *.
  set (G := length (filter (fun j => column_reached st bfs_result j = false)
                      (seq 0 (size2 st.2)))) in *.
  assert (HG : G <= size2 st.2).
  { unfold G. etransitivity; [apply length_filter|]. rewrite length_seq. reflexivity. }
  destruct (certified_blocks st (wr_state r).2 block_width block_height bfs_result F G
              Hp1 Hp2 Hdata Hperm1 Hperm2) as (Hzero & Hminors & HF & HG1 & Hwitness).
  - intros k x Hk. destruct (Hrows k x Hk) as (i & Hi & Hiff). exists i.
    split; [exact Hi|]. rewrite <- Hiff. lia.
  - intros l x Hl. destruct (Hcols l x Hl) as (j & Hj & Hiff). exists j.
    split; [exact Hj|]. rewrite <- Hiff. lia.
  - exact Hsearch.
  - exact Hblock.
  - exact Ho1.
  - exact Ho2.
  - lia.
  - lia.
  - exact HG.
  - split; [intros k l Hk Hl Hls; apply Hzero; lia|].
    split; [intros k k' l l' Hk Hks Hk' Hks' Hl Hl'; apply Hminors; lia|].
    split; [lia|]. split; [lia|].
    rewrite Hfirst, Hsecond, Nat2Z.id. unfold size_t.
    rewrite Z.mod_small by lia.
    replace (Z.to_nat (Z.of_nat G - 1)) with (G - 1) by lia.
    exact Hwitness.
Qed.

(** *** The search tree *)

Section SearchTree.

Context `{WheelHelpers}.
Variables (st : wheel_state) (bw bh : nat) (res : list bipartite_graph_bfs_node).
Hypothesis Htree : search_tree st bw bh res.

Lemma tree_zero (v : nat) :
  v < length res -> distance (node_at res v) = 0%Z ->
  v < bh /\ predecessor (node_at res v) = v.
Proof. intros Hv. destruct Htree as [_ Ht]. apply (Ht v Hv). Qed.

Lemma tree_int (v : nat) :
  v < length res -> (distance (node_at res v) < 2 ^ 31 - 1)%Z.
Proof. intros Hv. destruct Htree as [_ Ht]. apply (Ht v Hv). Qed.

Lemma tree_edge (v : nat) :
  v < length res -> (0 < distance (node_at res v))%Z ->
  predecessor (node_at res v) < length res
  /\ distance (node_at res (predecessor (node_at res v)))
     = (distance (node_at res v) - 1)%Z
  /\ is_row (search_dimensions st) (predecessor (node_at res v))
     = negb (is_row (search_dimensions st) v)
  /\ modified_matrix st.2 bh bw
       (indexes_to_coordinates (search_dimensions st) (predecessor (node_at res v)) v).1
       (indexes_to_coordinates (search_dimensions st) (predecessor (node_at res v)) v).2
     <> 0%Z.
Proof. intros Hv. destruct Htree as [_ Ht]. apply (Ht v Hv). Qed.

Lemma ancestor_distance (m : nat) (v : nat) :
  v < length res -> distance (node_at res v) = Z.of_nat m ->
  forall k, k <= m ->
    ancestor res k v < length res
    /\ distance (node_at res (ancestor res k v)) = Z.of_nat (m - k).
Proof.
  revert v. induction m as [|m IH]; intros v Hv Hd k Hk.
  - assert (k = 0) as -> by lia. simpl. auto.
  - destruct k as [|k]; [simpl; rewrite Hd; split; [assumption | f_equal; lia]|].
    destruct (tree_edge v Hv) as (Hu & Hdu & _); [lia|].
    simpl. apply (IH _ Hu); lia.
Qed.

(** A predecessor chain visits its nodes once, so distances stay below the
    number of nodes. *)
Lemma distance_below_size (m : nat) (v : nat) :
  v < length res -> distance (node_at res v) = Z.of_nat m -> m < length res.
Proof.
  intros Hv Hd.
  set (l := map (fun k => ancestor res k v) (seq 0 (S m))).
  assert (Hnd : NoDup l).
  { apply NoDup_fmap_2_strong; [|apply NoDup_seq].
    intros a b Ha Hb Heq. apply elem_of_seq in Ha, Hb.
    destruct (ancestor_distance m v Hv Hd a) as [_ Hda]; [lia|].
    destruct (ancestor_distance m v Hv Hd b) as [_ Hdb]; [lia|].
    rewrite Heq in Hda. rewrite Hda in Hdb. lia. }
  assert (Hsub : l ⊆+ seq 0 (length res)).
  { apply NoDup_submseteq; [exact Hnd|]. intros x Hx.
    apply list_elem_of_fmap in Hx as (k & -> & Hk). apply elem_of_seq in Hk.
    apply elem_of_seq. destruct (ancestor_distance m v Hv Hd k); lia. }
  apply submseteq_length in Hsub. unfold l in Hsub.
  rewrite length_map, !length_seq in Hsub. lia.
Qed.

Lemma walk_steps_lookup (m : nat) (v : nat) (k : nat) :
  k < m ->
  walk_steps res m v !! k = Some (ancestor res (S k) v, ancestor res k v).
Proof.
  revert v k. induction m as [|m IH]; intros v k Hk; [lia|].
  destruct k as [|k]; [reflexivity|]. simpl. apply IH. lia.
Qed.

Lemma ancestor_succ (k : nat) (v : nat) :
  ancestor res (S k) v = predecessor (node_at res (ancestor res k v)).
Proof.
  revert v. induction k as [|k IH]; intros v; [reflexivity|].
  simpl. rewrite <- IH. reflexivity.
Qed.

Lemma reachable_in_range (v : nat) :
  is_reachable (node_at res v) = true -> v < length res.
Proof.
  intros Hr. destruct (decide (v < length res)) as [|Hge]; [assumption|].
  unfold node_at in Hr. rewrite lookup_ge_None_2 in Hr by lia. discriminate.
Qed.

Lemma find_nearest_end_cases (ends : list nat) (start : nat) :
  (find_nearest_end_from res ends start ∈ ends
   /\ is_reachable (node_at res (find_nearest_end_from res ends start)) = true)
  \/ (find_nearest_end_from res ends start = start
      /\ forall e, e ∈ ends -> is_reachable (node_at res e) = false).
Proof.
  revert start. induction ends as [|e ends IH]; intros start.
  - right. split; [reflexivity|]. intros e He. inversion He.
  - unfold find_nearest_end_from in *. simpl.
    destruct (is_reachable (node_at res e)) eqn:Hr.
    + destruct (IH e) as [[Hin Hre] | [Heq Hnone]].
      * left. split; [right; exact Hin | exact Hre].
      * left. rewrite Heq. split; [left | exact Hr].
    + destruct (IH start) as [[Hin Hre] | [Heq Hnone]].
      * left. split; [right; exact Hin | exact Hre].
      * right. split; [exact Heq|]. intros x Hx.
        apply elem_of_cons in Hx as [->|Hx]; [exact Hr | apply Hnone, Hx].
Qed.

Hypothesis Hfound : search_found st bw res.

Lemma nearest_end_reached :
  exists j, j < bw
    /\ find_nearest_end res (end_nodes st bw) = size1 st.2 + j
    /\ size1 st.2 + j < length res
    /\ is_reachable (node_at res (size1 st.2 + j)) = true.
Proof.
  destruct (find_nearest_end_cases (end_nodes st bw) 0) as [[Hin Hr] | [_ Hnone]].
  - change (find_nearest_end_from res (end_nodes st bw) 0)
      with (find_nearest_end res (end_nodes st bw)) in *.
    unfold end_nodes in Hin. apply list_elem_of_fmap in Hin as (j & Hj & Hin).
    apply elem_of_seq in Hin. exists j. split; [lia|].
    unfold column_to_index, search_dimensions in Hj. simpl in Hj.
    change (map (fun column : nat => size1 st.2 + column) (seq 0 bw))
      with (end_nodes st bw) in Hj.
    rewrite Hj in *. split; [reflexivity|]. split; [|exact Hr].
    apply reachable_in_range. exact Hr.
  - destruct Hfound as (e & He & Hr). rewrite (Hnone e He) in Hr. discriminate.
Qed.

Hypothesis Hbh : bh <= size1 st.2.

(** Rows are at even distances, columns at odd ones. *)
Lemma distance_parity (m : nat) (v : nat) :
  v < length res -> distance (node_at res v) = Z.of_nat m ->
  is_row (search_dimensions st) v = Z.even (Z.of_nat m).
Proof.
  revert v. induction m as [|m IH]; intros v Hv Hd.
  - destruct (tree_zero v Hv Hd) as [Hlt _]. unfold is_row, search_dimensions. simpl.
    apply bool_decide_eq_true. lia.
  - destruct (tree_edge v Hv) as (Hu & Hdu & Hside & _); [lia|].
    rewrite (IH _ Hu) in Hside by lia.
    rewrite Nat2Z.inj_succ, Z.even_succ, <- Z.negb_even.
    destruct (is_row (search_dimensions st) v), (Z.even (Z.of_nat m));
      simpl in *; congruence.
Qed.

(** The walk of lines 221-248, from a node at distance [m]: it ends at the
    start node of the chain, after pivoting at the places of
    [pivot_places]; it records the row of that start node and the column of
    the node at distance 1. *)
Lemma walk_back (nd : Z) (m : nat) (w : walk_state) (fuel : nat) :
  last_index w < length res ->
  distance (node_at res (last_index w)) = Z.of_nat m ->
  current_index w = predecessor (node_at res (last_index w)) ->
  m <= fuel ->
  exists w',
    walk fuel (search_dimensions st) res nd w = Returned w'
    /\ (ws_state w', ws_extra w')
       = fold_left pivot_and_record
           (map (fun step => indexes_to_coordinates (search_dimensions st) step.1 step.2)
              (filter (fun step => pivots_at (distance (node_at res step.1)) nd = true)
                 (walk_steps res m (last_index w))))
           (ws_state w, ws_extra w)
    /\ last_index w' = ancestor res m (last_index w)
    /\ w3_one_row w'
       = (if decide (1 <= m) then index_to_row (search_dimensions st)
                                    (ancestor res m (last_index w))
          else w3_one_row w)
    /\ w3_path_column w'
       = (if decide (2 <= m) then index_to_column (search_dimensions st)
                                    (ancestor res (m - 1) (last_index w))
          else w3_path_column w).
Proof.
  revert w fuel. induction m as [|m IH]; intros w fuel Hv Hd Hcur Hfuel.
  - destruct (tree_zero _ Hv Hd) as [_ Hself].
    exists w. split.
    + destruct fuel; simpl; rewrite bool_decide_eq_true_2 by congruence; reflexivity.
    + simpl. auto.
  - destruct fuel as [|fuel]; [lia|].
    destruct (tree_edge _ Hv) as (Hu & Hdu & Hside & _); [lia|].
    rewrite <- Hcur in Hu, Hdu, Hside.
    assert (Hdm : distance (node_at res (current_index w)) = Z.of_nat m) by lia.
    pose proof (distance_parity m _ Hu Hdm) as Hpar.
    simpl walk. rewrite bool_decide_eq_false_2
      by (intros Heq; rewrite <- Heq in Hdm; lia).
    rewrite Hdm.
    set (acc := if pivots_at (Z.of_nat m) nd
                then let st' := matroid_binary_pivot (ws_state w)
                                  (indexes_to_coordinates (search_dimensions st)
                                     (current_index w) (last_index w)).1
                                  (indexes_to_coordinates (search_dimensions st)
                                     (current_index w) (last_index w)).2 in
                     (st', ws_extra w ∪ {[name1 st'.1
                                            (indexes_to_coordinates (search_dimensions st)
                                               (current_index w) (last_index w)).1]}
                                      ∪ {[name2 st'.1
                                            (indexes_to_coordinates (search_dimensions st)
                                               (current_index w) (last_index w)).2]})
                else (ws_state w, ws_extra w)).
    assert (Hacc : acc = fold_left pivot_and_record
                     (map (fun step => indexes_to_coordinates (search_dimensions st)
                                         step.1 step.2)
                        (filter (fun step => pivots_at (distance (node_at res step.1)) nd
                                             = true)
                           [(current_index w, last_index w)]))
                     (ws_state w, ws_extra w)).
    { unfold acc. rewrite filter_cons, filter_nil. cbn [fst snd]. rewrite Hdm.
      destruct (pivots_at (Z.of_nat m) nd); [rewrite decide_True by reflexivity
                                           | rewrite decide_False by discriminate];
        reflexivity. }
    destruct acc as [st1 ex1] eqn:Eacc.
    assert (Hnext : forall one_row_ path_column_,
               exists w',
                 walk fuel (search_dimensions st) res nd
                   (WalkState st1 ex1 (current_index w)
                      (predecessor (node_at res (current_index w))) one_row_ path_column_)
                 = Returned w'
                 /\ (ws_state w', ws_extra w')
                    = fold_left pivot_and_record
                        (map (fun step => indexes_to_coordinates (search_dimensions st)
                                            step.1 step.2)
                           (filter (fun step =>
                                      pivots_at (distance (node_at res step.1)) nd = true)
                              (walk_steps res (S m) (last_index w))))
                        (ws_state w, ws_extra w)
                 /\ last_index w' = ancestor res (S m) (last_index w)
                 /\ w3_one_row w'
                    = (if decide (1 <= m) then index_to_row (search_dimensions st)
                                                 (ancestor res (S m) (last_index w))
                       else one_row_)
                 /\ w3_path_column w'
                    = (if decide (2 <= m) then index_to_column (search_dimensions st)
                                                 (ancestor res m (last_index w))
                       else path_column_)).
    { intros one_row_ path_column_.
      destruct (IH (WalkState st1 ex1 (current_index w)
                      (predecessor (node_at res (current_index w))) one_row_ path_column_)
                  fuel) as (w' & Hrun & Hfold & Hlast & Hone & Hpath);
        [exact Hu | exact Hdm | reflexivity | lia |].
      cbn [ws_state ws_extra last_index w3_one_row w3_path_column] in *.
      exists w'. split; [exact Hrun|]. split.
      - rewrite Hfold. simpl walk_steps. rewrite <- Hcur.
        rewrite filter_cons. rewrite Hacc.
        destruct (decide (pivots_at (distance (node_at res (current_index w, last_index w).1))
                            nd = true)) as [Hp|Hp].
        + rewrite filter_cons, decide_True by exact Hp. rewrite filter_nil. reflexivity.
        + rewrite filter_cons, decide_False by exact Hp. rewrite filter_nil. reflexivity.
      - split; [simpl ancestor; rewrite <- Hcur; exact Hlast|].
        split; [simpl ancestor; rewrite <- Hcur; exact Hone|].
        destruct m as [|m'].
        + rewrite decide_False in Hpath by lia. rewrite decide_False by lia.
          exact Hpath.
        + replace (S m' - 1) with m' in Hpath by lia.
          simpl ancestor. rewrite <- Hcur. exact Hpath. }
    destruct (Z.of_nat m =? 1)%Z eqn:E1; [|destruct (Z.of_nat m =? 0)%Z eqn:E0].
    + apply Z.eqb_eq in E1. assert (m = 1) as -> by lia.
      unfold asserting, is_column. rewrite Hpar. simpl negb.
      destruct (Hnext (w3_one_row w)
                  (index_to_column (search_dimensions st) (current_index w)))
        as (w' & Hrun & Hfold & Hlast & Hone & Hpath).
      exists w'. split; [exact Hrun|]. split; [exact Hfold|]. split; [exact Hlast|].
      rewrite decide_True in Hone by lia.
      rewrite decide_True by lia. split; [exact Hone|].
      rewrite decide_False in Hpath by lia. rewrite decide_True by lia.
      rewrite Hpath. simpl. rewrite <- Hcur. reflexivity.
    + apply Z.eqb_eq in E0. assert (m = 0) as -> by lia.
      unfold asserting. rewrite Hpar. simpl Z.even.
      destruct (Hnext (index_to_row (search_dimensions st) (current_index w))
                  (w3_path_column w))
        as (w' & Hrun & Hfold & Hlast & Hone & Hpath).
      exists w'. split; [exact Hrun|]. split; [exact Hfold|]. split; [exact Hlast|].
      rewrite decide_False in Hone by lia. rewrite decide_True by lia.
      rewrite decide_False in Hpath by lia. rewrite decide_False by lia.
      split; [|exact Hpath]. rewrite Hone. simpl.
      destruct (tree_zero _ Hu Hdm) as [_ Hself].
      rewrite <- ?Hcur, ?Hself. reflexivity.
    + apply Z.eqb_neq in E1, E0.
      destruct (Hnext (w3_one_row w) (w3_path_column w))
        as (w' & Hrun & Hfold & Hlast & Hone & Hpath).
      exists w'. split; [exact Hrun|]. split; [exact Hfold|]. split; [exact Hlast|].
      rewrite decide_True in Hone by lia. rewrite decide_True by lia.
      rewrite decide_True in Hpath by lia. rewrite decide_True by lia.
      replace (S m - 1) with m by lia. auto.
Qed.

End SearchTree.

Lemma search_zero_found (read : nat -> Z) (bound : nat) (k fuel z : nat) :
  search_zero read bound k fuel = Some z ->
  read z = 0%Z /\ k <= z /\ (z = k \/ z < bound)
  /\ forall i, k <= i < z -> read i <> 0%Z.
Proof.
  revert k. induction fuel as [|fuel IH]; intros k; simpl.
  - destruct (read k =? 0)%Z eqn:E; [|discriminate].
    intros [= <-]. apply Z.eqb_eq in E. repeat split; auto. intros i Hi. lia.
  - destruct (read k =? 0)%Z eqn:E.
    + intros [= <-]. apply Z.eqb_eq in E. repeat split; auto. intros i Hi. lia.
    + case_bool_decide as Hb; [|discriminate]. intros Hs.
      destruct (IH _ Hs) as (Hz & Hle & Hor & Hall). apply Z.eqb_neq in E.
      split; [exact Hz|]. split; [lia|]. split; [right; lia|].
      intros i Hi. destruct (decide (i = k)) as [->|]; [exact E | apply Hall; lia].
Qed.

(** When a zero lies below the bound, the search finds the first one. *)
Lemma search_zero_total (read : nat -> Z) (bound : nat) (z : nat) :
  z < bound -> read z = 0%Z ->
  forall k fuel, k <= z -> z - k <= fuel ->
    exists z', search_zero read bound k fuel = Some z' /\ z' <= z.
Proof.
  intros Hz Hread k fuel. revert k. induction fuel as [|fuel IH]; intros k Hk Hfuel.
  - assert (k = z) as -> by lia. simpl. rewrite Hread. simpl. eauto.
  - simpl. destruct (read k =? 0)%Z eqn:E; [eauto|].
    assert (k <> z) by (intros ->; rewrite Hread in E; discriminate).
    rewrite bool_decide_eq_true_2 by lia. apply IH; lia.
Qed.

Lemma to_int_small (z : Z) : (- 2 ^ 31 <= z < 2 ^ 31)%Z -> to_int z = z.
Proof. intros Hz. unfold to_int. rewrite Z.mod_small by lia. lia. Qed.

(** *** Moving rows and columns *)

Lemma length_swap_positions (perm : list nat) (i j : nat) :
  length (swap_positions perm i j) = length perm.
Proof. unfold swap_positions. rewrite !length_insert. reflexivity. Qed.

Lemma swap_positions_lookup (perm : list nat) (i j k : nat) :
  i < length perm -> j < length perm ->
  swap_positions perm i j !! k = perm !! transpose i j k.
Proof.
  intros Hi Hj. unfold swap_positions, transpose.
  destruct (decide (k = i)) as [->|Hki].
  - rewrite list_lookup_insert_eq by (rewrite length_insert; lia).
    symmetry. apply perm_at_lookup. exact Hj.
  - rewrite list_lookup_insert_ne by congruence.
    destruct (decide (k = j)) as [->|Hkj].
    + rewrite list_lookup_insert_eq by lia. symmetry. apply perm_at_lookup. exact Hi.
    + rewrite list_lookup_insert_ne by congruence. reflexivity.
Qed.

Lemma perm_at_swap_positions (perm : list nat) (i j k : nat) :
  i < length perm -> j < length perm ->
  perm_at (swap_positions perm i j) k = perm_at perm (transpose i j k).
Proof.
  intros Hi Hj. unfold perm_at. rewrite swap_positions_lookup by assumption.
  reflexivity.
Qed.

Lemma transpose_inj (i j : nat) : Inj (=) (=) (transpose i j).
Proof.
  intros a b. unfold transpose. repeat case_decide; intros; subst; congruence.
Qed.

Lemma swap_positions_Permutation (perm : list nat) (i j : nat) :
  i < length perm -> j < length perm -> swap_positions perm i j ≡ₚ perm.
Proof.
  intros Hi Hj. apply Permutation_inj. split; [apply length_swap_positions|].
  exists (transpose i j). split; [apply transpose_inj|].
  intros k. apply swap_positions_lookup; assumption.
Qed.

(** Three exchanges that bring the entries at [a < b < c] to the front. *)
Lemma bring_to_front (perm : list nat) (a b c : nat) :
  a < b -> b < c -> c < length perm ->
  perm_at (swap_positions (swap_positions (swap_positions perm 0 a) 1 b) 2 c) 0
    = perm_at perm a
  /\ perm_at (swap_positions (swap_positions (swap_positions perm 0 a) 1 b) 2 c) 1
     = perm_at perm b
  /\ perm_at (swap_positions (swap_positions (swap_positions perm 0 a) 1 b) 2 c) 2
     = perm_at perm c
  /\ swap_positions (swap_positions (swap_positions perm 0 a) 1 b) 2 c ≡ₚ perm.
Proof.
  intros Hab Hbc Hc.
  assert (H1 : length (swap_positions perm 0 a) = length perm)
    by apply length_swap_positions.
  assert (H2 : length (swap_positions (swap_positions perm 0 a) 1 b) = length perm)
    by (rewrite length_swap_positions; exact H1).
  repeat split.
  1-3: rewrite perm_at_swap_positions by lia;
       rewrite perm_at_swap_positions by lia;
       rewrite perm_at_swap_positions by lia;
       f_equal; unfold transpose; repeat case_decide; lia.
  rewrite swap_positions_Permutation by lia.
  rewrite swap_positions_Permutation by lia.
  apply swap_positions_Permutation; lia.
Qed.

Lemma front_three_spec (perm : list nat) (z o p : nat) :
  z <> o -> z < p -> o < p -> p < length perm ->
  perm_at (front_three perm z o p) 0 = perm_at perm z
  /\ perm_at (front_three perm z o p) 1 = perm_at perm o
  /\ perm_at (front_three perm z o p) 2 = perm_at perm p
  /\ front_three perm z o p ≡ₚ perm.
Proof.
  intros Hzo Hzp Hop Hp. unfold front_three.
  case_bool_decide as Hoz.
  - rewrite bool_decide_eq_false_2 by lia.
    destruct (bring_to_front (swap_positions perm o z) o z p) as (H0 & H1 & H2 & H3);
      [lia | lia | rewrite length_swap_positions; lia |].
    rewrite H0, H1, H2, H3.
    rewrite !perm_at_swap_positions by lia.
    rewrite swap_positions_Permutation by lia.
    repeat split; f_equal; unfold transpose; repeat case_decide; lia.
  - rewrite bool_decide_eq_false_2 by lia.
    apply bring_to_front; lia.
Qed.

Lemma place_rows_front (s : wheel_state) (ix : w3_indices) :
  (place_rows s ix).2
    = MatrixPermuted (data s.2)
        (front_three (mx_perm1 s.2) (zero_row ix) (one_row ix) (path_row ix))
        (mx_perm2 s.2)
  /\ (place_rows s ix).1
     = MatroidPermuted (names1 s.1) (names2 s.1)
         (front_three (md_perm1 s.1) (zero_row ix) (one_row ix) (path_row ix))
         (md_perm2 s.1).
Proof.
  unfold place_rows, front_three.
  destruct (bool_decide (one_row ix < zero_row ix));
    destruct (bool_decide (path_row ix < _)); split; reflexivity.
Qed.

Lemma place_columns_front (s : wheel_state) (ix : w3_indices) :
  (place_columns s ix).2
    = MatrixPermuted (data s.2) (mx_perm1 s.2)
        (front_three (mx_perm2 s.2) (zero_column ix) (one_column ix) (path_column ix))
  /\ (place_columns s ix).1
     = MatroidPermuted (names1 s.1) (names2 s.1) (md_perm1 s.1)
         (front_three (md_perm2 s.1) (zero_column ix) (one_column ix) (path_column ix)).
Proof.
  unfold place_columns, front_three.
  destruct (bool_decide (one_column ix < zero_column ix));
    destruct (bool_decide (path_column ix < _)); split; reflexivity.
Qed.

(** *** A path was found: what the trace back records *)

Section PathFound.

Context `{WheelHelpers}.
Variables (st : wheel_state) (extra : matroid_element_set) (bw bh : nat)
  (res : list bipartite_graph_bfs_node).
Hypothesis Htree : search_tree st bw bh res.
Hypothesis Hfound : search_found st bw res.
Hypothesis Hbh : bh <= size1 st.2.

Lemma modified_nonzero_outside (i j : nat) :
  modified_matrix st.2 bh bw i j <> 0%Z ->
  ~ (i < bh /\ j < bw) /\ matrix_at st.2 i j <> 0%Z.
Proof.
  unfold modified_matrix, zero_block_matrix_modifier.
  repeat case_bool_decide; simpl; intros Hne; split; auto; try lia; congruence.
Qed.

(** The shape of the path: it ends at a block column, comes there from a
    row below the block, and starts at a block row followed by a column
    right of the block. *)
Lemma path_shape (j : nat) :
  j < bw ->
  size1 st.2 + j < length res ->
  is_reachable (node_at res (size1 st.2 + j)) = true ->
  exists D : nat,
    distance (node_at res (size1 st.2 + j)) = Z.of_nat D
    /\ 3 <= D
    /\ Z.odd (Z.of_nat D) = true
    /\ bh <= predecessor (node_at res (size1 st.2 + j)) < size1 st.2
    /\ ancestor res D (size1 st.2 + j) < bh
    /\ size1 st.2 + bw <= ancestor res (D - 1) (size1 st.2 + j) < size1 st.2 + size2 st.2.
Proof.
  intros Hj He Hr. set (e := size1 st.2 + j) in *.
  unfold is_reachable in Hr. apply Z.leb_le in Hr.
  exists (Z.to_nat (distance (node_at res e))).
  set (D := Z.to_nat (distance (node_at res e))).
  assert (HD : distance (node_at res e) = Z.of_nat D) by (unfold D; lia).
  assert (Hcol : is_row (search_dimensions st) e = false).
  { unfold is_row, search_dimensions, e. simpl. apply bool_decide_eq_false. lia. }
  pose proof (distance_parity st bw bh res Htree Hbh D e He HD) as Hpar.
  rewrite Hcol in Hpar.
  assert (Hodd : Z.odd (Z.of_nat D) = true) by (rewrite <- Z.negb_even, <- Hpar; reflexivity).
  assert (HD1 : 1 <= D) by (destruct D; [discriminate | lia]).
  destruct (tree_edge st bw bh res Htree e He) as (Hp & Hdp & Hside & Hmod); [lia|].
  rewrite Hcol in Hside. simpl in Hside.
  unfold indexes_to_coordinates in Hmod. rewrite Hside in Hmod. cbn [fst snd] in Hmod.
  apply modified_nonzero_outside in Hmod as [Hout _].
  unfold index_to_row, index_to_column, search_dimensions in Hout. simpl in Hout.
  replace (e - size1 st.2) with j in Hout by (unfold e; lia).
  assert (Hprow : predecessor (node_at res e) < size1 st.2).
  { unfold is_row, search_dimensions in Hside. simpl in Hside.
    apply bool_decide_eq_true in Hside. exact Hside. }
  assert (HD3 : 3 <= D).
  { destruct (decide (D = 1)) as [HD1'|].
    - rewrite HD1' in HD. destruct (tree_zero st bw bh res Htree _ Hp) as [Hlt _]; lia.
    - destruct (decide (D = 2)) as [HD2|]; [rewrite HD2 in Hodd; discriminate | lia]. }
  split; [exact HD|]. split; [exact HD3|]. split; [exact Hodd|]. split; [lia|].
  destruct (ancestor_distance st bw bh res Htree D e He HD D) as [Hr0 Hdr0]; [lia|].
  replace (D - D) with 0 in Hdr0 by lia.
  destruct (tree_zero st bw bh res Htree _ Hr0 Hdr0) as [Hr0bh _].
  split; [exact Hr0bh|].
  destruct (ancestor_distance st bw bh res Htree D e He HD (D - 1)) as [Hc1 Hdc1]; [lia|].
  replace (D - (D - 1)) with 1 in Hdc1 by lia.
  pose proof (distance_parity st bw bh res Htree Hbh 1 _ Hc1 Hdc1) as Hpar1.
  simpl in Hpar1.
  destruct (tree_edge st bw bh res Htree _ Hc1) as (_ & _ & Hside1 & Hmod1); [lia|].
  rewrite Hpar1 in Hside1. simpl in Hside1.
  rewrite <- ancestor_succ in Hside1, Hmod1.
  replace (S (D - 1)) with D in Hside1, Hmod1 by lia.
  unfold indexes_to_coordinates in Hmod1. rewrite Hside1 in Hmod1. cbn [fst snd] in Hmod1.
  apply modified_nonzero_outside in Hmod1 as [Hout1 _].
  unfold index_to_row, index_to_column, search_dimensions in Hout1. simpl in Hout1.
  unfold is_row, search_dimensions in Hpar1. simpl in Hpar1.
  apply bool_decide_eq_false in Hpar1.
  destruct Htree as [Hlen _]. lia.
Qed.

Hypothesis Hbw1 : 1 <= bw.
Hypothesis Hbh1 : 1 <= bh.

(** What [trace_path] has computed when it returns. *)
Lemma trace_path_returns (w : walk_state) (ix : w3_indices) :
  trace_path st extra bw bh res = Returned (w, ix) ->
  exists j D : nat,
    find_nearest_end res (end_nodes st bw) = size1 st.2 + j
    /\ distance (node_at res (size1 st.2 + j)) = Z.of_nat D
    /\ 3 <= D
    /\ (ws_state w, ws_extra w)
       = fold_left pivot_and_record (pivot_places st res (size1 st.2 + j)) (st, extra)
    /\ one_column ix = j /\ j < bw
    /\ path_row ix = predecessor (node_at res (size1 st.2 + j))
    /\ bh <= path_row ix < size1 st.2
    /\ one_row ix = ancestor res D (size1 st.2 + j)
    /\ one_row ix < bh
    /\ size1 st.2 + path_column ix = ancestor res (D - 1) (size1 st.2 + j)
    /\ bw <= path_column ix < size2 st.2
    /\ zero_column ix < bw
    /\ matrix_at st.2 (path_row ix) (zero_column ix) = 0%Z
    /\ zero_row ix < bh
    /\ matrix_at (ws_state w).2 (zero_row ix) (path_column ix) = 0%Z.
Proof.
  unfold trace_path.
  destruct (nearest_end_reached st bw res Hfound) as (j & Hj & He & Hlt & Hr).
  rewrite He. unfold asserting. rewrite Hr.
  destruct (path_shape j Hj Hlt Hr) as (D & HD & HD3 & Hodd & Hp & Hr0 & Hc1).
  pose proof (tree_int st bw bh res Htree _ Hlt) as Hint.
  rewrite HD in *.
  assert (Hnd : size_t (Z.of_nat D + 1) = (Z.of_nat D + 1)%Z).
  { unfold size_t. apply Z.mod_small. lia. }
  rewrite Hnd.
  destruct ((Z.of_nat D + 1) mod 2 =? 0)%Z; [|discriminate].
  destruct (search_zero _ bw 0 bw) as [zc|] eqn:Hzc; [|discriminate].
  destruct (walk_back st bw bh res Htree Hbh (Z.of_nat D + 1) D
              (WalkState st extra (size1 st.2 + j)
                 (predecessor (node_at res (size1 st.2 + j))) 0 0)
              (2 + length res))
    as (w' & Hrun & Hfold & Hlast & Hone & Hpath);
    [exact Hlt | exact HD | reflexivity
    | pose proof (distance_below_size st bw bh res Htree D _ Hlt HD); simpl; lia |].
  cbn [ws_state ws_extra last_index w3_one_row w3_path_column] in *.
  rewrite Hrun. cbn [wheel_bind].
  destruct (search_zero _ bh 0 bh) as [z|] eqn:Hz; [|discriminate].
  intros [= <- <-]. cbn [zero_row one_row path_row zero_column one_column path_column].
  rewrite decide_True in Hone by lia. rewrite decide_True in Hpath by lia.
  apply search_zero_found in Hzc as (Hzc0 & _ & Hzcb & _).
  apply search_zero_found in Hz as (Hz0 & _ & Hzb & _).
  unfold index_to_row, index_to_column, search_dimensions in *. simpl in Hone, Hpath |- *.
  exists j, D. split; [reflexivity|]. split; [exact HD|]. split; [exact HD3|].
  split.
  { rewrite Hfold. unfold pivot_places. rewrite HD, Nat2Z.id. reflexivity. }
  split; [lia|]. split; [exact Hj|]. split; [reflexivity|]. split; [exact Hp|].
  split; [exact Hone|]. split; [rewrite Hone; exact Hr0|].
  split; [rewrite Hpath; lia|]. split; [rewrite Hpath; lia|].
  split; [lia|]. split; [exact Hzc0|]. split; [lia|]. exact Hz0.
Qed.

Lemma check_w3_passed {A : Type} (x : matrix_permuted) (ix : w3_indices)
    (k : wheel_outcome A) (a : A) :
  check_w3 x ix k = Returned a ->
  k = Returned a
  /\ matrix_at x (one_row ix) (one_column ix) = 1%Z
  /\ matrix_at x (one_row ix) (zero_column ix) = 1%Z
  /\ matrix_at x (one_row ix) (path_column ix) = 1%Z
  /\ matrix_at x (zero_row ix) (one_column ix) = 1%Z
  /\ matrix_at x (zero_row ix) (zero_column ix) = 1%Z
  /\ matrix_at x (zero_row ix) (path_column ix) = 0%Z
  /\ matrix_at x (path_row ix) (one_column ix) = 1%Z
  /\ matrix_at x (path_row ix) (zero_column ix) = 0%Z
  /\ matrix_at x (path_row ix) (path_column ix) = 1%Z.
Proof.
  unfold check_w3, asserting. intros Hrun.
  repeat match type of Hrun with
         | (if (?a =? ?b)%Z then _ else _) = _ =>
             destruct (Z.eqb_spec a b); [|discriminate]
         end.
  repeat split; assumption.
Qed.

Hypothesis Hpivot : pivot_keeps_permutations.

Lemma pivots_keep_permutations (places : list (nat * nat))
    (acc : wheel_state * matroid_element_set) :
  mx_perm1 (fold_left pivot_and_record places acc).1.2 = mx_perm1 acc.1.2
  /\ mx_perm2 (fold_left pivot_and_record places acc).1.2 = mx_perm2 acc.1.2
  /\ md_perm1 (fold_left pivot_and_record places acc).1.1 = md_perm1 acc.1.1
  /\ md_perm2 (fold_left pivot_and_record places acc).1.1 = md_perm2 acc.1.1.
Proof.
  revert acc. induction places as [|c places IH]; intros acc; [simpl; auto|].
  simpl fold_left. destruct (IH (pivot_and_record acc c)) as (H1 & H2 & H3 & H4).
  rewrite H1, H2, H3, H4. unfold pivot_and_record. cbn [fst snd].
  apply Hpivot.
Qed.

(** What [extract_w3] has done when it returns: the trace, the nine
    asserted entries, and the two placements. *)
Lemma extract_w3_returns (r : wheel_result) :
  extract_w3 st extra bw bh res = Returned r ->
  exists (w : walk_state) (ix : w3_indices),
    trace_path st extra bw bh res = Returned (w, ix)
    /\ r = WheelResult separation_none
             (place_columns (place_rows (ws_state w) ix) ix) (ws_extra w)
    /\ mx_perm1 (ws_state w).2 = mx_perm1 st.2
    /\ mx_perm2 (ws_state w).2 = mx_perm2 st.2
    /\ md_perm1 (ws_state w).1 = md_perm1 st.1
    /\ md_perm2 (ws_state w).1 = md_perm2 st.1
    /\ zero_row ix <> one_row ix
    /\ zero_column ix <> one_column ix
    /\ matrix_at (ws_state w).2 (zero_row ix) (zero_column ix) = 1%Z
    /\ matrix_at (ws_state w).2 (zero_row ix) (one_column ix) = 1%Z
    /\ matrix_at (ws_state w).2 (zero_row ix) (path_column ix) = 0%Z
    /\ matrix_at (ws_state w).2 (one_row ix) (zero_column ix) = 1%Z
    /\ matrix_at (ws_state w).2 (one_row ix) (one_column ix) = 1%Z
    /\ matrix_at (ws_state w).2 (one_row ix) (path_column ix) = 1%Z
    /\ matrix_at (ws_state w).2 (path_row ix) (zero_column ix) = 0%Z
    /\ matrix_at (ws_state w).2 (path_row ix) (one_column ix) = 1%Z
    /\ matrix_at (ws_state w).2 (path_row ix) (path_column ix) = 1%Z.
Proof.
  unfold extract_w3. intros Hrun.
  destruct (trace_path st extra bw bh res) as [[w ix]| |] eqn:Htrace; try discriminate.
  cbn [wheel_bind] in Hrun.
  apply check_w3_passed in Hrun
    as (Hret & H11 & H10 & H12 & H01 & H00 & H02 & H21 & H20 & H22).
  injection Hret as <-.
  destruct (trace_path_returns w ix Htrace)
    as (j & D & _ & _ & _ & Hfold & _).
  pose proof (pivots_keep_permutations (pivot_places st res (size1 st.2 + j)) (st, extra))
    as (Hp1 & Hp2 & Hp3 & Hp4).
  rewrite <- Hfold in Hp1, Hp2, Hp3, Hp4. cbn [fst snd] in Hp1, Hp2, Hp3, Hp4.
  exists w, ix. split; [reflexivity|]. split; [reflexivity|].
  do 4 (split; [assumption|]).
  split; [intros Heq; rewrite Heq in H02; congruence|].
  split; [intros Heq; rewrite Heq in H20; congruence|].
  repeat split; assumption.
Qed.

(** Where the three rows and the three columns are after the placements. *)
Lemma placed_at_front (w : walk_state) (ix : w3_indices) :
  trace_path st extra bw bh res = Returned (w, ix) ->
  mx_perm1 (ws_state w).2 = mx_perm1 st.2 ->
  mx_perm2 (ws_state w).2 = mx_perm2 st.2 ->
  zero_row ix <> one_row ix ->
  zero_column ix <> one_column ix ->
  let placed := place_columns (place_rows (ws_state w) ix) ix in
  data placed.2 = data (ws_state w).2
  /\ mx_perm1 placed.2 ≡ₚ mx_perm1 (ws_state w).2
  /\ mx_perm2 placed.2 ≡ₚ mx_perm2 (ws_state w).2
  /\ perm_at (mx_perm1 placed.2) 0 = perm_at (mx_perm1 (ws_state w).2) (zero_row ix)
  /\ perm_at (mx_perm1 placed.2) 1 = perm_at (mx_perm1 (ws_state w).2) (one_row ix)
  /\ perm_at (mx_perm1 placed.2) 2 = perm_at (mx_perm1 (ws_state w).2) (path_row ix)
  /\ perm_at (mx_perm2 placed.2) 0 = perm_at (mx_perm2 (ws_state w).2) (zero_column ix)
  /\ perm_at (mx_perm2 placed.2) 1 = perm_at (mx_perm2 (ws_state w).2) (one_column ix)
  /\ perm_at (mx_perm2 placed.2) 2 = perm_at (mx_perm2 (ws_state w).2) (path_column ix).
Proof.
  intros Htrace Hp1 Hp2 Hrows Hcols placed.
  destruct (trace_path_returns w ix Htrace)
    as (j & D & _ & _ & _ & _ & Hoc & Hj & _ & Hp & _ & Ho & _ & Hpc & Hzc & _ & Hz & _).
  destruct (place_columns_front (place_rows (ws_state w) ix) ix) as [Hcm _].
  destruct (place_rows_front (ws_state w) ix) as [Hrm _].
  unfold placed. rewrite Hcm, Hrm. cbn [data mx_perm1 mx_perm2].
  destruct (front_three_spec (mx_perm1 (ws_state w).2) (zero_row ix) (one_row ix)
              (path_row ix)) as (R0 & R1 & R2 & R3);
    [exact Hrows | lia | lia | rewrite Hp1; unfold size1 in Hp; lia |].
  destruct (front_three_spec (mx_perm2 (ws_state w).2) (zero_column ix) (one_column ix)
              (path_column ix)) as (C0 & C1 & C2 & C3);
    [exact Hcols | lia | lia | rewrite Hp2; unfold size2 in Hpc; lia |].
  repeat split; assumption.
Qed.

End PathFound.

Lemma find_wheel_minor_path `{WheelHelpers} (st0 st : wheel_state)
    (extra0 extra : matroid_element_set) (bw bh : nat)
    (res : list bipartite_graph_bfs_node) :
  grow_block st0 extra0 = Returned (Grown st extra bw bh) ->
  search_path st bw bh = (true, res) ->
  find_wheel_minor st0 extra0 = extract_w3 st extra bw bh res.
Proof.
  intros Hgrow Hbfs. unfold find_wheel_minor. rewrite Hgrow. cbn [wheel_bind].
  rewrite Hbfs. reflexivity.
Qed.

(** C7. When the search finds a path and [find_wheel_minor] returns, the
    walk back from the reached column [e], at distance [D], went through
    the nodes [ancestor 1 e], ..., [ancestor D e], whose distances are
    [D - 1], ..., [0]; it pivoted, in that order, exactly at the places of
    [pivot_places]: the edges that lead to a node whose distance is even, at
    least 2 and, plus 2, below [nearest_distance = D + 1]; the three rows
    and the three columns recorded are then at positions 0, 1, 2 of the
    row and of the column permutation, which are rearrangements of those
    after the walk, the data being untouched. *)
Theorem path_walk_pivots_and_places `{WheelHelpers} (st0 st : wheel_state)
    (extra0 extra : matroid_element_set) (bw bh : nat)
    (res : list bipartite_graph_bfs_node) (r : wheel_result) :
  grow_block st0 extra0 = Returned (Grown st extra bw bh) ->
  search_path st bw bh = (true, res) ->
  search_tree st bw bh res ->
  search_found st bw res ->
  bh <= size1 st.2 ->
  pivot_keeps_permutations ->
  find_wheel_minor st0 extra0 = Returned r ->
  exists (e D : nat) (walked : wheel_state) (ix : w3_indices),
    e = find_nearest_end res (end_nodes st bw)
    /\ distance (node_at res e) = Z.of_nat D
    /\ (forall k, k < D ->
          walk_steps res D e !! k = Some (ancestor res (S k) e, ancestor res k e)
          /\ distance (node_at res (ancestor res (S k) e)) = Z.of_nat (D - 1 - k))
    /\ pivot_places st res e
       = map (fun step => indexes_to_coordinates (search_dimensions st) step.1 step.2)
           (filter (fun step =>
                      Z.even (distance (node_at res step.1)) = true
                      /\ (2 <= distance (node_at res step.1))%Z
                      /\ (distance (node_at res step.1) + 2 < Z.of_nat D + 1)%Z)
              (walk_steps res D e))
    /\ (walked, wr_extra r) = fold_left pivot_and_record (pivot_places st res e) (st, extra)
    /\ one_column ix = index_to_column (search_dimensions st) e
    /\ path_row ix = ancestor res 1 e
    /\ column_to_index (search_dimensions st) (path_column ix) = ancestor res (D - 1) e
    /\ one_row ix = ancestor res D e
    /\ matrix_at st.2 (path_row ix) (zero_column ix) = 0%Z
    /\ matrix_at walked.2 (zero_row ix) (path_column ix) = 0%Z
    /\ wr_separation r = separation_none
    /\ data (wr_state r).2 = data walked.2
    /\ mx_perm1 (wr_state r).2 ≡ₚ mx_perm1 walked.2
    /\ mx_perm2 (wr_state r).2 ≡ₚ mx_perm2 walked.2
    /\ perm_at (mx_perm1 (wr_state r).2) 0 = perm_at (mx_perm1 walked.2) (zero_row ix)
    /\ perm_at (mx_perm1 (wr_state r).2) 1 = perm_at (mx_perm1 walked.2) (one_row ix)
    /\ perm_at (mx_perm1 (wr_state r).2) 2 = perm_at (mx_perm1 walked.2) (path_row ix)
    /\ perm_at (mx_perm2 (wr_state r).2) 0 = perm_at (mx_perm2 walked.2) (zero_column ix)
    /\ perm_at (mx_perm2 (wr_state r).2) 1 = perm_at (mx_perm2 walked.2) (one_column ix)
    /\ perm_at (mx_perm2 (wr_state r).2) 2 = perm_at (mx_perm2 walked.2) (path_column ix).
Proof.
  intros Hgrow Hbfs Htree Hfound Hbh Hpivot Hrun.
  rewrite (find_wheel_minor_path _ _ _ _ _ _ _ Hgrow Hbfs) in Hrun.
  destruct (grow_block_at_least_2 _ _ _ _ _ _ Hgrow) as [Hbw2 Hbh2].
  destruct (extract_w3_returns st extra bw bh res Htree Hfound Hbh ltac:(lia) ltac:(lia)
              Hpivot r Hrun)
    as (w & ix & Htrace & -> & Hp1 & Hp2 & _ & _ & Hrows & Hcols & _).
  destruct (placed_at_front st extra bw bh res Htree Hfound Hbh ltac:(lia) ltac:(lia)
              w ix Htrace Hp1 Hp2 Hrows Hcols)
    as (Hdata & Hperm1 & Hperm2 & R0 & R1 & R2 & C0 & C1 & C2).
  destruct (trace_path_returns st extra bw bh res Htree Hfound Hbh ltac:(lia) ltac:(lia)
              w ix Htrace)
    as (j & D & He & HD & HD3 & Hfold & Hoc & Hj & Hprow & Hp & Ho & Hob & Hpc & Hpcb
        & Hzc & Hzc0 & Hz & Hz0).
  assert (Hlt : size1 st.2 + j < length res).
  { apply reachable_in_range.
    destruct (nearest_end_reached st bw res Hfound) as (j' & _ & He' & _ & Hr).
    rewrite He in He'. replace j' with j in Hr by lia. exact Hr. }
  exists (size1 st.2 + j), D, (ws_state w), ix.
  cbn [wr_separation wr_state wr_extra].
  split; [symmetry; exact He|]. split; [exact HD|]. split.
  { intros k Hk. split; [apply walk_steps_lookup; exact Hk|].
    destruct (ancestor_distance st bw bh res Htree D _ Hlt HD (S k)) as [_ Hd]; [lia|].
    rewrite Hd. f_equal. lia. }
  split.
  { unfold pivot_places. rewrite HD, Nat2Z.id. f_equal.
    apply filter_ext_elem. intros [cur last] Hin. cbn [fst snd].
    apply list_elem_of_lookup_1 in Hin as [k Hk].
    assert (HkD : k < D).
    { apply lookup_lt_Some in Hk.
      assert (Hlen : forall m v, length (walk_steps res m v) = m)
        by (induction m; intros; simpl; auto).
      rewrite Hlen in Hk. exact Hk. }
    rewrite walk_steps_lookup in Hk by exact HkD. injection Hk as <- <-.
    change (ancestor res k (predecessor (node_at res (size1 st.2 + j))))
      with (ancestor res (S k) (size1 st.2 + j)).
    destruct (ancestor_distance st bw bh res Htree D _ Hlt HD (S k)) as [_ Hd]; [lia|].
    rewrite Hd. unfold pivots_at.
    pose proof (tree_int st bw bh res Htree _ Hlt) as Hint.
    rewrite to_int_small by lia.
    rewrite !andb_true_iff, Z.eqb_eq, Z.leb_le, Z.ltb_lt.
    rewrite Z.rem_mod_nonneg by lia.
    rewrite Zeven_mod, Z.eqb_eq. tauto. }
  split; [exact Hfold|].
  split; [rewrite Hoc; unfold index_to_column, search_dimensions; simpl; lia|].
  split; [exact Hprow|].
  split; [unfold column_to_index, search_dimensions; simpl; exact Hpc|].
  split; [exact Ho|]. split; [exact Hzc0|]. split; [exact Hz0|].
  split; [reflexivity|].
  repeat split; assumption.
Qed.

(** What is returned after a path was found: the empty separation, with
    the W3 in the corner. *)
Lemma w3_in_corner_after_path `{WheelHelpers} (st0 st : wheel_state)
    (extra0 extra : matroid_element_set) (bw bh : nat)
    (res : list bipartite_graph_bfs_node) (r : wheel_result) :
  grow_block st0 extra0 = Returned (Grown st extra bw bh) ->
  search_path st bw bh = (true, res) ->
  search_tree st bw bh res ->
  search_found st bw res ->
  bh <= size1 st.2 ->
  pivot_keeps_permutations ->
  find_wheel_minor st0 extra0 = Returned r ->
  wr_separation r = separation_none
  /\ matrix_at (wr_state r).2 0 0 = 1%Z
  /\ matrix_at (wr_state r).2 0 1 = 1%Z
  /\ matrix_at (wr_state r).2 0 2 = 0%Z
  /\ matrix_at (wr_state r).2 1 0 = 1%Z
  /\ matrix_at (wr_state r).2 1 1 = 1%Z
  /\ matrix_at (wr_state r).2 1 2 = 1%Z
  /\ matrix_at (wr_state r).2 2 0 = 0%Z
  /\ matrix_at (wr_state r).2 2 1 = 1%Z
  /\ matrix_at (wr_state r).2 2 2 = 1%Z.
Proof.
  intros Hgrow Hbfs Htree Hfound Hbh Hpivot Hrun.
  rewrite (find_wheel_minor_path _ _ _ _ _ _ _ Hgrow Hbfs) in Hrun.
  destruct (grow_block_at_least_2 _ _ _ _ _ _ Hgrow) as [Hbw2 Hbh2].
  destruct (extract_w3_returns st extra bw bh res Htree Hfound Hbh ltac:(lia) ltac:(lia)
              Hpivot r Hrun)
    as (w & ix & Htrace & -> & Hp1 & Hp2 & _ & _ & Hrows & Hcols
        & H00 & H01 & H02 & H10 & H11 & H12 & H20 & H21 & H22).
  destruct (placed_at_front st extra bw bh res Htree Hfound Hbh ltac:(lia) ltac:(lia)
              w ix Htrace Hp1 Hp2 Hrows Hcols)
    as (Hdata & _ & _ & R0 & R1 & R2 & C0 & C1 & C2).
  cbn [wr_separation wr_state].
  split; [reflexivity|].
  rewrite (matrix_at_through _ (ws_state w).2 0 0 _ _ Hdata R0 C0).
  rewrite (matrix_at_through _ (ws_state w).2 0 1 _ _ Hdata R0 C1).
  rewrite (matrix_at_through _ (ws_state w).2 0 2 _ _ Hdata R0 C2).
  rewrite (matrix_at_through _ (ws_state w).2 1 0 _ _ Hdata R1 C0).
  rewrite (matrix_at_through _ (ws_state w).2 1 1 _ _ Hdata R1 C1).
  rewrite (matrix_at_through _ (ws_state w).2 1 2 _ _ Hdata R1 C2).
  rewrite (matrix_at_through _ (ws_state w).2 2 0 _ _ Hdata R2 C0).
  rewrite (matrix_at_through _ (ws_state w).2 2 1 _ _ Hdata R2 C1).
  rewrite (matrix_at_through _ (ws_state w).2 2 2 _ _ Hdata R2 C2).
  repeat split; assumption.
Qed.

(** The returns before the search carry a separation that is not the empty
    one. *)
Lemma grow_block_early `{WheelHelpers} (st0 : wheel_state)
    (extra0 : matroid_element_set) (r : wheel_result) :
  grow_block st0 extra0 = Returned (Early r) -> wr_separation r <> separation_none.
Proof.
  unfold grow_block, asserting. intros Hgrow.
  repeat (case_match; try discriminate).
  all: injection Hgrow as <-; cbn [wr_separation]; discriminate.
Qed.

(** The empty separation is returned only at the end of the branch that
    follows a successful search. *)
Lemma empty_separation_after_path `{WheelHelpers} (st0 : wheel_state)
    (extra0 : matroid_element_set) (r : wheel_result) :
  find_wheel_minor st0 extra0 = Returned r ->
  wr_separation r = separation_none ->
  exists st extra bw bh res,
    grow_block st0 extra0 = Returned (Grown st extra bw bh)
    /\ search_path st bw bh = (true, res).
Proof.
  unfold find_wheel_minor. intros Hrun Hnone.
  destruct (grow_block st0 extra0) as [[r'|st extra bw bh]| |] eqn:Hgrow;
    try discriminate; cbn [wheel_bind] in Hrun.
  - injection Hrun as ->. destruct (grow_block_early _ _ _ Hgrow Hnone).
  - destruct (search_path st bw bh) as [[|] res] eqn:Hbfs; cbn [negb] in Hrun.
    + exists st, extra, bw, bh, res. auto.
    + injection Hrun as <-. unfold separate in Hnone.
      repeat case_match. cbn [wr_separation] in Hnone. discriminate.
Qed.

(** C9. When [find_wheel_minor] succeeds, that is, returns the empty
    separation, the top-left 3 by 3 submatrix of the permuted matrix is
    that of the wheel W3: ones at (0, 0), (0, 1), (1, 0), (1, 1), (1, 2),
    (2, 1) and (2, 2), zeros at (0, 2) and (2, 0).  The empty separation is
    returned only after a search that found a path; the search is asked for
    a tree of predecessors that reaches an end node, the count of rows for
    a block within the matrix, and the pivot to leave the permutations
    alone. *)
Theorem success_leaves_w3_in_corner `{WheelHelpers} (st0 : wheel_state)
    (extra0 : matroid_element_set) (r : wheel_result) :
  find_wheel_minor st0 extra0 = Returned r ->
  wr_separation r = separation_none ->
  pivot_keeps_permutations ->
  (forall st extra bw bh res,
     grow_block st0 extra0 = Returned (Grown st extra bw bh) ->
     search_path st bw bh = (true, res) ->
     search_tree st bw bh res /\ search_found st bw res /\ bh <= size1 st.2) ->
  matrix_at (wr_state r).2 0 0 = 1%Z
  /\ matrix_at (wr_state r).2 0 1 = 1%Z
  /\ matrix_at (wr_state r).2 0 2 = 0%Z
  /\ matrix_at (wr_state r).2 1 0 = 1%Z
  /\ matrix_at (wr_state r).2 1 1 = 1%Z
  /\ matrix_at (wr_state r).2 1 2 = 1%Z
  /\ matrix_at (wr_state r).2 2 0 = 0%Z
  /\ matrix_at (wr_state r).2 2 1 = 1%Z
  /\ matrix_at (wr_state r).2 2 2 = 1%Z.
Proof.
  intros Hrun Hnone Hpivot Hsearch.
  destruct (empty_separation_after_path st0 extra0 r Hrun Hnone)
    as (st & extra & bw & bh & res & Hgrow & Hbfs).
  destruct (Hsearch st extra bw bh res Hgrow Hbfs) as (Htree & Hfound & Hbh).
  apply (w3_in_corner_after_path st0 st extra0 extra bw bh res r Hgrow Hbfs Htree Hfound
           Hbh Hpivot Hrun).
Qed.

(** *** The searches for the zero column and the zero row *)

Section ZeroSearches.

Context `{WheelHelpers}.
Variables (st : wheel_state) (extra : matroid_element_set) (bw bh : nat)
  (res : list bipartite_graph_bfs_node).
Hypothesis Htree : search_tree st bw bh res.
Hypothesis Hfound : search_found st bw res.
Hypothesis Hbh : bh <= size1 st.2.
Hypothesis Hnear : search_nearest st bw bh res.

(** The walk pivots below the block only, in columns that are zero on the
    block's rows. *)
Lemma pivot_places_outside (j : nat) (place : nat * nat) :
  j < bw ->
  size1 st.2 + j < length res ->
  is_reachable (node_at res (size1 st.2 + j)) = true ->
  place ∈ pivot_places st res (size1 st.2 + j) ->
  bh <= place.1 /\ forall i, i < bh -> matrix_at st.2 i place.2 = 0%Z.
Proof.
  intros Hj Hlt Hr Hin. destruct Hnear as (Hstart & Hlevel & Hequal).
  destruct (path_shape st bw bh res Htree Hbh j Hj Hlt Hr)
    as (D & HD & HD3 & Hodd & _).
  unfold pivot_places in Hin. rewrite HD, Nat2Z.id in Hin.
  apply list_elem_of_fmap in Hin as ([cur last] & -> & Hin).
  apply list_elem_of_filter in Hin as [Hpiv Hin]. cbn [fst snd] in Hpiv.
  apply list_elem_of_lookup_1 in Hin as [k Hk].
  assert (HkD : k < D).
  { apply lookup_lt_Some in Hk.
    assert (Hlen : forall m v, length (walk_steps res m v) = m)
      by (induction m; intros; simpl; auto).
    rewrite Hlen in Hk. exact Hk. }
  rewrite walk_steps_lookup in Hk by exact HkD. injection Hk as <- <-.
  change (ancestor res k (predecessor (node_at res (size1 st.2 + j))))
    with (ancestor res (S k) (size1 st.2 + j)) in *.
  destruct (ancestor_distance st bw bh res Htree D _ Hlt HD (S k)) as [Hcur Hdcur]; [lia|].
  destruct (ancestor_distance st bw bh res Htree D _ Hlt HD k) as [Hlast Hdlast]; [lia|].
  rewrite Hdcur in Hpiv. unfold pivots_at in Hpiv.
  rewrite to_int_small in Hpiv
    by (pose proof (tree_int st bw bh res Htree _ Hlt); lia).
  apply andb_true_iff in Hpiv as [Hpiv Hlate].
  apply andb_true_iff in Hpiv as [Heven Hge2].
  apply Z.leb_le in Hge2. apply Z.ltb_lt in Hlate.
  pose proof (distance_parity st bw bh res Htree Hbh _ _ Hcur Hdcur) as Hrow.
  pose proof (distance_parity st bw bh res Htree Hbh _ _ Hlast Hdlast) as Hcolumn.
  assert (Hev : Z.even (Z.of_nat (D - S k)) = true).
  { apply Z.eqb_eq in Heven. rewrite Z.rem_mod_nonneg in Heven by lia.
    rewrite Zeven_mod. apply Z.eqb_eq. exact Heven. }
  rewrite Hev in Hrow.
  replace (D - k) with (S (D - S k)) in Hcolumn, Hdlast by lia.
  rewrite Nat2Z.inj_succ, Z.even_succ, <- Z.negb_even, Hev in Hcolumn.
  simpl in Hcolumn.
  cbn [fst snd]. unfold indexes_to_coordinates. rewrite Hrow. cbn [fst snd].
  unfold index_to_row, index_to_column, search_dimensions. simpl.
  unfold is_row, search_dimensions in Hrow, Hcolumn. simpl in Hrow, Hcolumn.
  apply bool_decide_eq_true in Hrow. apply bool_decide_eq_false in Hcolumn.
  split.
  - destruct (decide (bh <= ancestor res (S k) (size1 st.2 + j))) as [|Hlow];
      [assumption|].
    rewrite (Hstart (ancestor res (S k) (size1 st.2 + j))) in Hdcur by lia. lia.
  - intros i Hi.
    destruct (decide (matrix_at st.2 i (ancestor res k (size1 st.2 + j) - size1 st.2)
                      = 0%Z)) as [|Hnz]; [assumption|]. exfalso.
    set (c := ancestor res k (size1 st.2 + j) - size1 st.2) in *.
    assert (Hc : ancestor res k (size1 st.2 + j) = size1 st.2 + c) by (unfold c; lia).
    assert (Hcsize : c < size2 st.2).
    { destruct Htree as [Hlen _]. lia. }
    destruct (decide (c < bw)) as [Hcb|Hcb].
    + assert (Heq : distance (node_at res (size1 st.2 + c))
                    = distance (node_at res (size1 st.2 + j))).
      { apply Hequal.
        - unfold end_nodes. apply list_elem_of_fmap. exists c.
          split; [reflexivity | apply elem_of_seq; lia].
        - unfold end_nodes. apply list_elem_of_fmap. exists j.
          split; [reflexivity | apply elem_of_seq; lia].
        - unfold is_reachable. apply Z.leb_le. rewrite <- Hc, Hdlast. lia.
        - exact Hr. }
      rewrite <- Hc, Hdlast, HD in Heq. lia.
    + assert (Hone : distance (node_at res (size1 st.2 + c)) = 1%Z).
      { apply (Hlevel i c Hi Hcsize).
        unfold modified_matrix, zero_block_matrix_modifier.
        rewrite (bool_decide_eq_false_2 (c < bw)) by exact Hcb.
        rewrite andb_false_r. exact Hnz. }
      rewrite <- Hc, Hdlast in Hone. lia.
Qed.

Hypothesis Hrows : pivot_keeps_rows.

(** Pivots below the block, in columns that are zero on the block's rows,
    leave the block's rows as they are. *)
Lemma block_rows_kept (places : list (nat * nat)) (acc : wheel_state * matroid_element_set) :
  (forall place, place ∈ places ->
     bh <= place.1 /\ forall i, i < bh -> matrix_at acc.1.2 i place.2 = 0%Z) ->
  forall i j, i < bh ->
    matrix_at (fold_left pivot_and_record places acc).1.2 i j = matrix_at acc.1.2 i j.
Proof.
  revert acc. induction places as [|place places IH]; intros acc Hout i j Hi;
    [reflexivity|].
  simpl fold_left.
  assert (Hstep : forall i' j', i' < bh ->
             matrix_at (pivot_and_record acc place).1.2 i' j' = matrix_at acc.1.2 i' j').
  { intros i' j' Hi'. unfold pivot_and_record. cbn [fst snd].
    destruct (Hout place) as [Hlow Hzero]; [left|].
    apply Hrows; [lia | apply Hzero; exact Hi']. }
  rewrite IH; [apply Hstep; exact Hi | | exact Hi].
  intros place' Hin. destruct (Hout place') as [Hlow Hzero]; [right; exact Hin|].
  split; [exact Hlow|]. intros i' Hi'. rewrite Hstep by exact Hi'. apply Hzero, Hi'.
Qed.

Hypothesis Hmax : block_maximal st bw bh.
Hypothesis Hbw1 : 1 <= bw.
Hypothesis Hbh1 : 1 <= bh.

(** Under the contracts, the trace back reaches its end: no assertion up
    to line 255 fails, and both searches end inside the block. *)
Lemma trace_path_total :
  exists (w : walk_state) (ix : w3_indices),
    trace_path st extra bw bh res = Returned (w, ix)
    /\ zero_column ix < bw
    /\ zero_row ix < bh.
Proof.
  destruct (nearest_end_reached st bw res Hfound) as (j & Hj & He & Hlt & Hr).
  destruct (path_shape st bw bh res Htree Hbh j Hj Hlt Hr)
    as (D & HD & HD3 & Hodd & Hp & Hr0 & Hc1).
  pose proof (tree_int st bw bh res Htree _ Hlt) as Hint.
  destruct Hmax as [Hmax_rows Hmax_columns].
  destruct (Hmax_rows (predecessor (node_at res (size1 st.2 + j))) Hp)
    as (j0 & Hj0 & Hzero0).
  destruct (search_zero_total (matrix_at st.2 (predecessor (node_at res (size1 st.2 + j))))
              bw j0 Hj0 Hzero0 0 bw) as (zc & Hzc & Hzcle); [lia | lia |].
  destruct (walk_back st bw bh res Htree Hbh (Z.of_nat D + 1) D
              (WalkState st extra (size1 st.2 + j)
                 (predecessor (node_at res (size1 st.2 + j))) 0 0)
              (2 + length res))
    as (w' & Hrun & Hfold & Hlast & Hone & Hpath);
    [exact Hlt | exact HD | reflexivity
    | pose proof (distance_below_size st bw bh res Htree D _ Hlt HD); simpl; lia |].
  cbn [ws_state ws_extra last_index w3_one_row w3_path_column] in *.
  rewrite decide_True in Hpath by lia.
  unfold index_to_column, search_dimensions in Hpath. simpl in Hpath.
  assert (Hpc : bw <= w3_path_column w' < size2 st.2) by lia.
  destruct (Hmax_columns _ Hpc) as (i0 & Hi0 & Hzero1).
  assert (Hkept : matrix_at (ws_state w').2 i0 (w3_path_column w') = 0%Z).
  { replace (ws_state w') with (ws_state w', ws_extra w').1 by reflexivity.
    rewrite Hfold.
    replace (Z.of_nat D + 1)%Z with (distance (node_at res (size1 st.2 + j)) + 1)%Z
      by (rewrite HD; reflexivity).
    replace D with (Z.to_nat (distance (node_at res (size1 st.2 + j))))
      by (rewrite HD; apply Nat2Z.id).
    change (matrix_at (fold_left pivot_and_record
                         (pivot_places st res (size1 st.2 + j)) (st, extra)).1.2
              i0 (w3_path_column w') = 0%Z).
    rewrite block_rows_kept; [exact Hzero1 | | exact Hi0].
    intros place Hin. apply (pivot_places_outside j place Hj Hlt Hr Hin). }
  destruct (search_zero_total (fun r => matrix_at (ws_state w').2 r (w3_path_column w'))
              bh i0 Hi0 Hkept 0 bh) as (z & Hz & Hzle); [lia | lia |].
  exists w', (W3 z (w3_one_row w') (predecessor (node_at res (size1 st.2 + j)))
                zc (index_to_column (search_dimensions st) (size1 st.2 + j))
                (w3_path_column w')).
  cbn [zero_row zero_column]. split; [|lia].
  unfold trace_path. rewrite He. unfold asserting. rewrite Hr, HD.
  assert (Hnd : size_t (Z.of_nat D + 1) = (Z.of_nat D + 1)%Z).
  { unfold size_t. apply Z.mod_small. lia. }
  rewrite Hnd.
  assert (Heven : ((Z.of_nat D + 1) mod 2 =? 0)%Z = true).
  { rewrite <- Zeven_mod. rewrite Z.add_1_r, Z.even_succ. exact Hodd. }
  rewrite Heven.
  unfold index_to_row. rewrite Hzc, Hrun. cbn [wheel_bind]. rewrite Hz. reflexivity.
Qed.

End ZeroSearches.

Lemma check_w3_outcomes {A : Type} (x : matrix_permuted) (ix : w3_indices) (a : A) :
  check_w3 x ix (Returned a) = Returned a
  \/ exists i j, check_w3 x ix (Returned a) = Failed (w3_entry i j).
Proof.
  unfold check_w3, asserting.
  repeat match goal with
         | |- context [if ?b then _ else _] => destruct b; [|right; eauto]
         end.
  left. reflexivity.
Qed.

Lemma grow_block_needs_3_by_3 `{WheelHelpers} (st0 : wheel_state)
    (extra0 : matroid_element_set) :
  (size1 st0.2 < 3 \/ matroid_size2 st0.1 < 3 ->
   grow_block st0 extra0 = Failed at_least_3_by_3)
  /\ (forall b, grow_block st0 extra0 = Returned b ->
        3 <= size1 st0.2 /\ 3 <= matroid_size2 st0.1).
Proof.
  unfold grow_block, asserting. split.
  - intros Hsmall.
    destruct (bool_decide (3 <= size1 st0.2) && bool_decide (3 <= matroid_size2 st0.1))
      eqn:E; [|reflexivity].
    apply andb_true_iff in E as [E1 E2].
    apply bool_decide_eq_true in E1, E2. lia.
  - intros b.
    destruct (bool_decide (3 <= size1 st0.2) && bool_decide (3 <= matroid_size2 st0.1))
      eqn:E; [|discriminate].
    intros _. apply andb_true_iff in E as [E1 E2].
    apply bool_decide_eq_true in E1, E2. auto.
Qed.

(** C10. [find_wheel_minor] asserts that the permuted matrix has at least 3
    rows and the permuted matroid at least 3 columns: it aborts on that
    assertion otherwise.  Passing it does not by itself keep the two
    searches for a zero inside the block: the block-growing code leaves an
    entry other than 1, not a zero, in every row below the block.  On a
    matrix of zeros and ones, when a path is found, the search for the zero
    column and the search for the zero row both end inside the all-ones
    block, so that the assertions [w3_zero_column < block_width] and
    [w3_zero_row < block_height] hold and the run goes on to the nine
    assertions on the W3 entries. *)
Theorem zero_searches_end_in_block `{WheelHelpers} (st0 st : wheel_state)
    (extra0 extra : matroid_element_set) (bw bh : nat)
    (res : list bipartite_graph_bfs_node) :
  grow_block st0 extra0 = Returned (Grown st extra bw bh) ->
  search_path st bw bh = (true, res) ->
  search_tree st bw bh res ->
  search_found st bw res ->
  search_nearest st bw bh res ->
  is_binary st.2 ->
  block_grown st bw bh ->
  bw <= size2 st.2 ->
  bh <= size1 st.2 ->
  pivot_keeps_rows ->
  (3 <= size1 st0.2 /\ 3 <= matroid_size2 st0.1)
  /\ (forall st' extra', size1 st'.2 < 3 \/ matroid_size2 st'.1 < 3 ->
        find_wheel_minor st' extra' = Failed at_least_3_by_3)
  /\ (exists (w : walk_state) (ix : w3_indices),
        trace_path st extra bw bh res = Returned (w, ix)
        /\ zero_column ix < bw
        /\ zero_row ix < bh
        /\ matrix_at st.2 (path_row ix) (zero_column ix) = 0%Z
        /\ matrix_at (ws_state w).2 (zero_row ix) (path_column ix) = 0%Z)
  /\ find_wheel_minor st0 extra0 <> Failed zero_column_in_block
  /\ find_wheel_minor st0 extra0 <> Failed zero_row_in_block
  /\ find_wheel_minor st0 extra0 <> Diverged.
Proof.
  intros Hgrow Hbfs Htree Hfound Hnear Hbin Hgrown Hbw Hbh Hrows.
  pose proof (binary_block_maximal st bw bh Hbin Hbw Hbh Hgrown) as Hmax.
  destruct (grow_block_at_least_2 _ _ _ _ _ _ Hgrow) as [Hbw2 Hbh2].
  split; [apply (proj2 (grow_block_needs_3_by_3 st0 extra0) _ Hgrow)|].
  split.
  { intros st' extra' Hsmall. unfold find_wheel_minor.
    rewrite (proj1 (grow_block_needs_3_by_3 st' extra') Hsmall). reflexivity. }
  destruct (trace_path_total st extra bw bh res Htree Hfound Hbh Hnear Hrows Hmax
              ltac:(lia) ltac:(lia)) as (w & ix & Htrace & Hzc & Hz).
  destruct (trace_path_returns st extra bw bh res Htree Hfound Hbh ltac:(lia) ltac:(lia)
              w ix Htrace)
    as (_ & _ & _ & _ & _ & _ & _ & _ & _ & _ & _ & _ & _ & _ & _ & Hzc0 & _ & Hz0).
  split; [exists w, ix; auto|].
  rewrite (find_wheel_minor_path _ _ _ _ _ _ _ Hgrow Hbfs).
  unfold extract_w3. rewrite Htrace. cbn [wheel_bind].
  destruct (check_w3_outcomes (ws_state w).2 ix
              (WheelResult separation_none
                 (place_columns (place_rows (ws_state w) ix) ix) (ws_extra w)))
    as [-> | (i & j & ->)]; repeat split; discriminate.
Qed.

(** *** The reference helpers meet the contracts *)

Lemma demo_pivot_keeps_permutations : pivot_keeps_permutations (H := demo_helpers).
Proof. intros st i j. cbn. auto. Qed.

Lemma demo_pivot_keeps_rows : pivot_keeps_rows (H := demo_helpers).
Proof.
  intros st r c i j _ Hzero.
  cbn [matroid_binary_pivot demo_helpers].
  unfold matrix_at, demo_binary_pivot in *. cbn [fst snd data mx_perm1 mx_perm2].
  rewrite list_lookup_imap.
  destruct (data st.2 !! perm_at (mx_perm1 st.2) i) as [row|] eqn:Hrow;
    cbn [fmap option_fmap option_map]; [|reflexivity].
  rewrite list_lookup_imap.
  destruct (row !! perm_at (mx_perm2 st.2) j) as [v|] eqn:Hv;
    cbn [fmap option_fmap option_map default]; [|reflexivity].
  assert (Hz : underlying_at (data st.2) (perm_at (mx_perm1 st.2) i)
                 (perm_at (mx_perm2 st.2) c) = 0%Z).
  { unfold underlying_at. rewrite Hrow. exact Hzero. }
  rewrite Hz. cbn [Z.eqb negb]. rewrite andb_false_r. reflexivity.
Qed.

Lemma insert_sorted_Permutation {A : Type} (less : A -> A -> bool) (a : A) (l : list A) :
  insert_sorted less a l ≡ₚ a :: l.
Proof.
  induction l as [|b l IH]; simpl; [reflexivity|].
  destruct (less b a); [|reflexivity].
  rewrite IH. apply Permutation_swap.
Qed.

Lemma insertion_sort_Permutation {A : Type} (less : A -> A -> bool) (l : list A) :
  insertion_sort less l ≡ₚ l.
Proof.
  unfold insertion_sort. induction l as [|a l IH]; simpl; [reflexivity|].
  rewrite insert_sorted_Permutation, IH. reflexivity.
Qed.

Lemma insertion_sort_sorted (reachable : list Z) (l : list nat) :
  sorted_by (vector_less reachable) l (insertion_sort (vector_less reachable) l).
Proof.
  split; [apply insertion_sort_Permutation|].
  unfold insertion_sort. induction l as [|a l IH]; simpl; [constructor|].
  revert IH. generalize (fold_right (insert_sorted (vector_less reachable)) [] l).
  intros s Hs. induction Hs as [|b s Hs IH Hb]; simpl; [repeat constructor|].
  destruct (vector_less reachable b a) eqn:Hba.
  - constructor; [exact IH|].
    rewrite insert_sorted_Permutation. constructor; [|exact Hb].
    unfold vector_less in *. apply Z.ltb_lt in Hba. apply Z.ltb_ge. lia.
  - constructor; [constructor; assumption|].
    constructor; [exact Hba|].
    eapply Forall_impl; [exact Hb|]. intros x Hx. cbn beta in Hx.
    unfold vector_less in *. apply Z.ltb_ge in Hba, Hx. apply Z.ltb_ge. lia.
Qed.

Lemma demo_sorts_as_specified (st : wheel_state)
    (bfs_result : list bipartite_graph_bfs_node) :
  sorts_as_specified (H := demo_helpers) st bfs_result.
Proof. split; apply insertion_sort_sorted. Qed.

(** *** The search on [demo_wheel] *)

Lemma demo_wheel_grows :
  grow_block (H := demo_helpers) demo_wheel ∅ = Returned (Grown demo_wheel_block ∅ 2 2).
Proof. vm_compute. reflexivity. Qed.

Lemma demo_wheel_path :
  search_path (H := demo_helpers) demo_wheel_block 2 2 = (true, demo_wheel_search).
Proof. vm_compute. reflexivity. Qed.

Lemma demo_wheel_tree : search_tree demo_wheel_block 2 2 demo_wheel_search.
Proof.
  split; [reflexivity|].
  intros v Hv.
  do 8 (destruct v as [|v];
        [vm_compute; repeat split; intros; try lia; try discriminate; try congruence|]).
  change (S (S (S (S (S (S (S (S v))))))) < 8) in Hv. lia.
Qed.

Lemma demo_wheel_found : search_found demo_wheel_block 2 demo_wheel_search.
Proof.
  exists 5. split; [|reflexivity].
  apply list_elem_of_In. vm_compute. auto.
Qed.

Lemma demo_wheel_nearest : search_nearest demo_wheel_block 2 2 demo_wheel_search.
Proof.
  split; [|split].
  - intros i Hi. do 2 (destruct i as [|i]; [reflexivity|]). lia.
  - intros i j Hi Hj Hentry.
    change (j < 4) in Hj.
    destruct i as [|[|i]]; [| |lia];
      (destruct j as [|[|[|[|j]]]]; [| | | |lia]);
      first [reflexivity | exfalso; apply Hentry; reflexivity].
  - intros e e' He He' Hr Hr'.
    apply list_elem_of_In in He, He'. simpl in He, He'.
    destruct He as [<-|[<-|[]]]; destruct He' as [<-|[<-|[]]];
      first [reflexivity | discriminate].
Qed.

Lemma demo_wheel_maximal : block_maximal demo_wheel_block 2 2.
Proof.
  split.
  - intros i Hi. change (2 <= i < 4) in Hi.
    destruct i as [|[|[|[|i]]]]; [lia|lia| | |lia];
      (exists 0; split; [lia|reflexivity]).
  - intros j Hj. change (2 <= j < 4) in Hj.
    destruct j as [|[|[|[|j]]]]; [lia|lia| | |lia];
      (exists 0; split; [lia|reflexivity]).
Qed.

Lemma demo_wheel_binary : is_binary demo_wheel_block.2.
Proof.
  intros i j Hi Hj. change (i < 4) in Hi. change (j < 4) in Hj.
  destruct i as [|[|[|[|i]]]]; [| | | |lia];
    (destruct j as [|[|[|[|j]]]]; [| | | |lia]);
    (eexists _, _; split; [reflexivity|]; split; [reflexivity|]; auto).
Qed.

Lemma demo_wheel_grown : block_grown demo_wheel_block 2 2.
Proof.
  split.
  - intros i Hi. change (2 <= i < 4) in Hi.
    destruct i as [|[|[|[|i]]]]; [lia|lia| | |lia];
      (exists 0; split; [lia | vm_compute; discriminate]).
  - intros j Hj. change (2 <= j < 4) in Hj.
    destruct j as [|[|[|[|j]]]]; [lia|lia| | |lia];
      (exists 0; split; [lia | vm_compute; discriminate]).
Qed.

Lemma demo_wheel_returns :
  exists r, find_wheel_minor (H := demo_helpers) demo_wheel ∅ = Returned r
            /\ wr_separation r = separation_none.
Proof. eexists. split; vm_compute; reflexivity. Qed.

(** *** The search on [demo_blocks] *)

Lemma demo_blocks_grows :
  grow_block (H := demo_helpers) demo_blocks ∅ = Returned (Grown demo_blocks ∅ 2 2).
Proof. vm_compute. reflexivity. Qed.

Lemma demo_blocks_no_path :
  search_path (H := demo_helpers) demo_blocks 2 2 = (false, demo_blocks_search).
Proof. vm_compute. reflexivity. Qed.

Lemma demo_blocks_exhausted : search_exhausted demo_blocks 2 2 demo_blocks_search.
Proof.
  split; [|split].
  - intros i Hi. change (i < 4) in Hi.
    destruct i as [|[|[|[|i]]]]; try lia; vm_compute; split; intros; try lia;
      try discriminate.
  - intros j Hj. change (j < 4) in Hj.
    destruct j as [|[|[|[|j]]]]; try lia; vm_compute; split; intros; try lia;
      try discriminate.
  - intros i j Hi Hj Hentry. change (i < 4) in Hi. change (j < 4) in Hj.
    destruct i as [|[|[|[|i]]]]; try lia;
      (destruct j as [|[|[|[|j]]]]; try lia);
      first [reflexivity | exfalso; apply Hentry; reflexivity].
Qed.

Lemma demo_blocks_ones : block_of_ones demo_blocks 2 2.
Proof.
  split; [vm_compute; lia|]. split; [vm_compute; lia|].
  intros i j Hi Hj.
  destruct i as [|[|i]]; try lia; (destruct j as [|[|j]]; try lia); reflexivity.
Qed.

(** *** Part II on the two matrices *)

(** On [demo_wheel] the walk back from column 1 pivots once, at row 3 and
    column 3, the only edge of the path that leads to a node at distance 2. *)
Lemma path_walk_pivots_and_places_witness :
  exists (r : wheel_result) (walked : wheel_state) (ix : w3_indices),
    find_wheel_minor (H := demo_helpers) demo_wheel ∅ = Returned r
    /\ pivot_places demo_wheel_block demo_wheel_search 5 = [(3, 3)]
    /\ (walked, wr_extra r)
       = fold_left (pivot_and_record (H := demo_helpers))
           (pivot_places demo_wheel_block demo_wheel_search 5) (demo_wheel_block, ∅)
    /\ perm_at (mx_perm1 (wr_state r).2) 0 = perm_at (mx_perm1 walked.2) (zero_row ix)
    /\ perm_at (mx_perm1 (wr_state r).2) 1 = perm_at (mx_perm1 walked.2) (one_row ix)
    /\ perm_at (mx_perm1 (wr_state r).2) 2 = perm_at (mx_perm1 walked.2) (path_row ix)
    /\ perm_at (mx_perm2 (wr_state r).2) 0 = perm_at (mx_perm2 walked.2) (zero_column ix)
    /\ perm_at (mx_perm2 (wr_state r).2) 1 = perm_at (mx_perm2 walked.2) (one_column ix)
    /\ perm_at (mx_perm2 (wr_state r).2) 2 = perm_at (mx_perm2 walked.2) (path_column ix).
Proof.
  destruct demo_wheel_returns as (r & Hrun & _).
  destruct (path_walk_pivots_and_places (H := demo_helpers) demo_wheel demo_wheel_block
              ∅ ∅ 2 2 demo_wheel_search r demo_wheel_grows demo_wheel_path
              demo_wheel_tree demo_wheel_found ltac:(vm_compute; lia)
              demo_pivot_keeps_permutations Hrun)
    as (e & D & walked & ix & He & _ & _ & _ & Hfold & _ & _ & _ & _ & _ & _ & _ & _ & _
        & _ & R0 & R1 & R2 & C0 & C1 & C2).
  assert (He5 : e = 5) by (rewrite He; reflexivity).
  rewrite He5 in Hfold.
  exists r, walked, ix.
  split; [exact Hrun|]. split; [reflexivity|]. split; [exact Hfold|].
  repeat split; assumption.
Defined.

(** On [demo_blocks] no column of the block is reached: rows 2 and 3 and
    all four columns are not reached, and the separation returned has the
    split (2, 4) and one witness. *)
Lemma no_path_gives_separation_witness :
  exists r : wheel_result,
    find_wheel_minor (H := demo_helpers) demo_blocks ∅ = Returned r
    /\ wr_separation r = Separation (2, 4)%Z [(2, 3)%Z]
    /\ separation_order (wr_separation r) = 2
    /\ mx_perm1 (wr_state r).2 ≡ₚ [0; 1; 2; 3]
    /\ md_perm1 (wr_state r).1 = mx_perm1 (wr_state r).2
    /\ matrix_at (wr_state r).2 2 3 = 1%Z.
Proof.
  destruct (no_path_gives_separation (H := demo_helpers) demo_blocks demo_blocks ∅ ∅ 2 2
              demo_blocks_search demo_blocks_grows demo_blocks_no_path)
    as (r & first & second & Hrun & Hsep & _ & Horder & Hfirst & Hsecond & _ & Hp1 & _
        & Hm1 & _ & _ & _ & Hdeep).
  - unfold is_permutation. reflexivity.
  - unfold is_permutation. reflexivity.
  - vm_compute. reflexivity.
  - vm_compute. reflexivity.
  - apply demo_sorts_as_specified.
  - exists r. split; [exact Hrun|].
    assert (H1 : first = 2%Z) by (rewrite Hfirst; reflexivity).
    assert (H2 : second = 4%Z) by (rewrite Hsecond; reflexivity).
    rewrite H1, H2 in Hsep.
    split; [exact Hsep|]. split; [exact Horder|]. split; [exact Hp1|].
    split; [exact Hm1|].
    destruct (Hdeep demo_blocks_exhausted demo_blocks_ones) as (_ & _ & _ & _ & Hw).
    rewrite H1, H2 in Hw. exact Hw.
Defined.

(** On [demo_wheel] the run returns the empty separation, and the corner
    of the matrix returned is that of W3. *)
Lemma success_leaves_w3_in_corner_witness :
  exists r : wheel_result,
    find_wheel_minor (H := demo_helpers) demo_wheel ∅ = Returned r
    /\ wr_separation r = separation_none
    /\ map (fun i => map (fun j => matrix_at (wr_state r).2 i j) [0; 1; 2]) [0; 1; 2]
       = [[1; 1; 0]; [1; 1; 1]; [0; 1; 1]]%Z.
Proof.
  destruct demo_wheel_returns as (r & Hrun & Hnone).
  destruct (success_leaves_w3_in_corner (H := demo_helpers) demo_wheel ∅ r Hrun Hnone
              demo_pivot_keeps_permutations)
    as (H00 & H01 & H02 & H10 & H11 & H12 & H20 & H21 & H22).
  - intros st extra bw bh res Hgrow Hbfs.
    rewrite demo_wheel_grows in Hgrow. injection Hgrow as <- <- <- <-.
    rewrite demo_wheel_path in Hbfs. injection Hbfs as <-.
    split; [exact demo_wheel_tree|]. split; [exact demo_wheel_found|].
    vm_compute. lia.
  - exists r. split; [exact Hrun|]. split; [exact Hnone|].
    cbn [map]. rewrite H00, H01, H02, H10, H11, H12, H20, H21, H22. reflexivity.
Defined.

(** On [demo_wheel], a 4 by 4 matrix of zeros and ones, both searches end
    inside the 2 by 2 block and the run ends in none of the two
    assertions. *)
Lemma zero_searches_end_in_block_witness :
  (3 <= size1 demo_wheel.2 /\ 3 <= matroid_size2 demo_wheel.1)
  /\ (exists (w : walk_state) (ix : w3_indices),
        trace_path (H := demo_helpers) demo_wheel_block ∅ 2 2 demo_wheel_search
        = Returned (w, ix)
        /\ zero_column ix < 2 /\ zero_row ix < 2)
  /\ find_wheel_minor (H := demo_helpers) demo_wheel ∅ <> Failed zero_column_in_block
  /\ find_wheel_minor (H := demo_helpers) demo_wheel ∅ <> Failed zero_row_in_block.
Proof.
  destruct (zero_searches_end_in_block (H := demo_helpers) demo_wheel demo_wheel_block
              ∅ ∅ 2 2 demo_wheel_search demo_wheel_grows demo_wheel_path
              demo_wheel_tree demo_wheel_found demo_wheel_nearest demo_wheel_binary
              demo_wheel_grown ltac:(vm_compute; lia) ltac:(vm_compute; lia)
              demo_pivot_keeps_rows)
    as (Hsize & _ & (w & ix & Htrace & Hzc & Hz & _) & Hcol & Hrow & _).
  split; [exact Hsize|]. split; [|split; assumption].
  exists w, ix. auto.
Defined.

(** On [demo_ternary], a 4 by 3 matrix with entries -1, the first assertion
    passes, the block is grown to 2 by 2 and cannot be grown, and a path is
    found, to column 0 from row 3, which reads -1 and 1 in the columns of
    the block: the search for the zero column leaves the block and the run
    ends in the assertion [w3_zero_column < block_width]. *)
Lemma zero_searches_end_in_block_counterexample :
  (3 <= size1 demo_ternary.2 /\ 3 <= matroid_size2 demo_ternary.1)
  /\ grow_block (H := demo_helpers) demo_ternary ∅
     = Returned (Grown demo_ternary ∅ 2 2)
  /\ search_path (H := demo_helpers) demo_ternary 2 2 = (true, demo_ternary_search)
  /\ block_grown demo_ternary 2 2
  /\ matrix_at demo_ternary.2 3 0 = (-1)%Z
  /\ matrix_at demo_ternary.2 3 1 = 1%Z
  /\ trace_path (H := demo_helpers) demo_ternary ∅ 2 2 demo_ternary_search
     = Failed zero_column_in_block
  /\ find_wheel_minor (H := demo_helpers) demo_ternary ∅ = Failed zero_column_in_block.
Proof.
  split; [vm_compute; lia|].
  split; [vm_compute; reflexivity|].
  split; [vm_compute; reflexivity|].
  split.
  { split.
    - intros i Hi. change (2 <= i < 4) in Hi.
      destruct i as [|[|[|[|i]]]]; [lia|lia| | |lia].
      + exists 1. split; [lia | vm_compute; discriminate].
      + exists 0. split; [lia | vm_compute; discriminate].
    - intros j Hj. change (2 <= j < 3) in Hj.
      destruct j as [|[|[|j]]]; [lia|lia| |lia].
      exists 1. split; [lia | vm_compute; discriminate]. }
  split; [reflexivity|]. split; [reflexivity|].
  split; vm_compute; reflexivity.
Qed.

(* ===================================================================== *)
(** ** Further properties of [regularity.c] *)
(* ===================================================================== *)

(** *** Releasing a queue *)

Lemma chain_delete_task (h : heap) (s : option ptr) (l : list ptr) (t : ptr) :
  chain h s l -> t ∉ l ->
  chain (Heap (decs h) (delete t (tasks h)) (queues h) (statss h) (other h)) s l.
Proof.
  induction 1 as [|x xk l Hx Hl IH]; intros Hnot.
  - constructor.
  - apply not_elem_of_cons in Hnot as [Hne Hnot].
    econstructor; [|apply IH; exact Hnot].
    simpl. rewrite lookup_delete_ne by congruence. exact Hx.
Qed.

(** The loop of [CMRregularityQueueFree] on a queue that holds [l]. *)
Lemma QueueFree_loop_drains (fuel : nat) (q : ptr) (l : list ptr) (h : heap) :
  queue_holds h q l -> length l < fuel ->
  exists h' qu',
    QueueFree_loop fuel q h = Done CMR_OKAY h'
    /\ queues h' = <[q := qu']> (queues h)
    /\ (forall t, t ∈ l -> tasks h' !! t = None)
    /\ (forall t, t ∉ l -> tasks h' !! t = tasks h !! t)
    /\ decs h' = decs h /\ statss h' = statss h /\ other h' = other h.
Proof.
  revert l h. induction fuel as [|fuel IH]; intros l h Hholds Hfuel; [lia|].
  destruct Hholds as (qu & Hq & Hc).
  cbn [QueueFree_loop]. unfold bind at 1, load_queue. rewrite Hq.
  inversion Hc as [Hhead|t tk l' Ht Hl Hhead]; subst l.
  - exists h, qu. split; [reflexivity|].
    split; [symmetry; apply insert_id; exact Hq|].
    split; [intros t Ht; inversion Ht|]. auto.
  - rewrite <- Hhead in Hc. pose proof (chain_head_fresh _ _ _ Hc) as Hfresh.
    unfold bind at 1, load_task. rewrite Ht.
    unfold bind at 1, store_queue. rewrite Hq.
    unfold CMR_CALL, CMRregularityTaskFree.
    unfold bind at 1. unfold bind at 1. unfold free_task at 1.
    cbn [tasks put_queue]. rewrite Ht. unfold ret at 1.
    set (h2 := Heap _ _ _ _ _).
    destruct (IH l' h2) as (h' & qu' & Hrun & Hqs & Hin & Hout & Hd & Hs & Ho);
      [|simpl in Hfuel; lia|].
    { exists (set_head (next tk) qu). split; [apply lookup_insert_eq|].
      apply (chain_delete_task (put_queue q (set_head (next tk) qu) h));
        [apply chain_put_queue; exact Hl | exact Hfresh]. }
    exists h', qu'. split; [exact Hrun|].
    split; [rewrite Hqs; unfold h2; simpl; apply insert_insert_eq|].
    split.
    + intros x Hx. apply elem_of_cons in Hx as [->|Hx]; [|apply Hin; exact Hx].
      rewrite (Hout t Hfresh). unfold h2. simpl. apply lookup_delete_eq.
    + split; [|auto].
      intros x Hx. apply not_elem_of_cons in Hx as [Hne Hx].
      rewrite (Hout x Hx). unfold h2. simpl. apply lookup_delete_ne. congruence.
Qed.

(** X1. [CMRregularityQueueFree] on a queue that holds the tasks [l], with
    a loop budget above their number, returns [CMR_OKAY]; afterwards the
    queue and every task of [l] are released, and no other task, no
    decomposition node and no statistics record has changed.  On a NULL
    queue it returns [CMR_OKAY] at once, and so does
    [CMRregularityTaskFree] on a NULL task. *)
Theorem queue_free_releases_queue_and_tasks (fuel : nat) (q : ptr) (l : list ptr)
    (h : heap) :
  queue_holds h q l -> length l < fuel ->
  (exists h',
     CMRregularityQueueFree fuel (Some q) h = Done CMR_OKAY h'
     /\ queues h' = delete q (queues h)
     /\ (forall t, t ∈ l -> tasks h' !! t = None)
     /\ (forall t, t ∉ l -> tasks h' !! t = tasks h !! t)
     /\ decs h' = decs h /\ statss h' = statss h /\ other h' = other h)
  /\ CMRregularityQueueFree fuel None h = Done CMR_OKAY h
  /\ CMRregularityTaskFree None h = Done CMR_OKAY h.
Proof.
  intros Hholds Hfuel. split; [|split; reflexivity].
  destruct (QueueFree_loop_drains fuel q l h Hholds Hfuel)
    as (h1 & qu' & Hrun & Hqs & Hin & Hout & Hd & Hs & Ho).
  unfold CMRregularityQueueFree, CMR_CALL. unfold bind at 1. rewrite Hrun.
  unfold bind at 1, free_queue. rewrite Hqs, lookup_insert_eq.
  eexists. split; [reflexivity|]. simpl.
  split; [apply delete_insert_eq|]. auto.
Qed.

Lemma queue_free_releases_queue_and_tasks_witness :
  exists h',
    CMRregularityQueueFree 5 (Some 7%positive) demo_queued = Done CMR_OKAY h'
    /\ queues h' !! 7%positive = None
    /\ tasks h' !! 8%positive = None
    /\ decs h' = decs demo_queued.
Proof.
  assert (Hholds : queue_holds demo_queued 7%positive [8%positive]).
  { exists (Queue (Some 8%positive) false). split; [reflexivity|].
    apply (chain_link _ _ demo_task); [reflexivity | constructor]. }
  destruct (queue_free_releases_queue_and_tasks 5 7%positive [8%positive] demo_queued
              Hholds ltac:(simpl; lia))
    as [(h' & Hrun & Hq & Hin & _ & Hd & _) _].
  exists h'. split; [exact Hrun|].
  split; [rewrite Hq; apply lookup_delete_eq|].
  split; [apply Hin; left | exact Hd].
Defined.

(** *** Errors *)

(** X2. The driver loop returns an error exactly when, after some
    iterations that went well, the condition held once more, a task was
    popped and its stage returned that error; the loop is then left at
    once, in the store that the stage left, with the task out of the
    queue. *)
Theorem loop_ends_at_first_failing_stage `{Collaborators} (fuel : nat)
    (prm : CMR_REGULAR_PARAMS) (q : ptr) (h h' : heap) (e : CMR_ERROR) :
  e <> CMR_OKAY ->
  regularity_loop fuel prm q h = Done e h' <->
  exists (l : list ptr) (h1 h2 : heap) (task : ptr),
    length l < fuel
    /\ pumped prm q h l h1
    /\ loop_condition prm q h1 = Done true h1
    /\ CMRregularityQueueRemove q h1 = Done task h2
    /\ CMRregularityTaskRun task q h2 = Done e h'.
Proof.
  intros He. split.
  - revert h. induction fuel as [|fuel IH]; intros h Hrun; [discriminate|].
    simpl in Hrun. apply bind_Done in Hrun as (go & h0 & Hcond & Hrun).
    destruct (loop_condition_pure _ _ _ _ _ Hcond) as [-> [qu Hq]].
    destruct go; [|injection Hrun as <-; congruence].
    apply bind_Done in Hrun as (task & h1 & Hpop & Hrun).
    apply CMR_CALL_Done in Hrun as [(h2 & Hstage & Hrest) | (e' & Hne & Hstage & He')].
    + destruct (IH _ Hrest) as (l & h3 & h4 & task' & Hlen & Hp & Hc & Hpop' & Hfail).
      destruct (proj1 (loop_condition_true prm _ _ _ Hq) Hcond) as [Hnn Hgo].
      exists (task :: l), h3, h4, task'. split; [simpl; lia|].
      split; [econstructor; eauto|]. auto.
    + unfold id in He'. subst e'.
      exists [], h, h1, task. split; [simpl; lia|].
      split; [constructor|]. auto.
  - intros (l & h1 & h2 & task & Hlen & Hp & Hc & Hpop & Hfail).
    revert fuel Hlen. induction Hp as [h0|h0 ha hb hc qu t l Hq Hnn Hgo Hpop0 Hrun Hp IH];
      intros fuel Hlen.
    + destruct fuel as [|fuel]; [simpl in Hlen; lia|].
      simpl. unfold bind at 1. rewrite Hc. unfold bind at 1. rewrite Hpop.
      apply CMR_CALL_Done. right. exists e. auto.
    + destruct fuel as [|fuel]; [simpl in Hlen; lia|].
      simpl. unfold bind at 1.
      rewrite (proj2 (loop_condition_true prm _ _ _ Hq) (conj Hnn Hgo)).
      unfold bind at 1. rewrite Hpop0.
      apply CMR_CALL_Done. left. exists hb. split; [exact Hrun|].
      apply IH; [assumption .. | simpl in Hlen; lia].
Qed.

Lemma loop_ends_at_first_failing_stage_witness :
  exists (h1 h2 h' : heap) (task : ptr),
    regularity_loop (H := demo_collaborators) 5 demo_params 7%positive demo_wide_tree
      = Done CMR_ERROR_TIMEOUT h'
    /\ CMRregularityQueueRemove 7%positive h1 = Done task h2
    /\ CMRregularityTaskRun (H := demo_collaborators) task 7%positive h2
       = Done CMR_ERROR_TIMEOUT h'.
Proof.
  assert (Hrun : exists h',
             regularity_loop (H := demo_collaborators) 5 demo_params 7%positive
               demo_wide_tree = Done CMR_ERROR_TIMEOUT h')
    by (eexists; vm_compute; reflexivity).
  destruct Hrun as (h' & Hrun).
  destruct (proj1 (loop_ends_at_first_failing_stage (H := demo_collaborators) 5
                     demo_params 7%positive demo_wide_tree h' CMR_ERROR_TIMEOUT
                     ltac:(discriminate)) Hrun)
    as (l & h1 & h2 & task & _ & _ & _ & Hpop & Hfail).
  exists h1, h2, h', task. auto.
Defined.

(** X3. When [CMRregularityTest] returns an error, nothing is written to
    [*pdec].  The error is that of one of its calls, and the store is the
    one that this call left: nothing is released on the way out.  Unless
    the error is that of the final [CMRmatroiddecFree], which is called
    only without [pdec], nothing is written to [*pisRegular] either. *)
Theorem test_error_hands_out_nothing `{Collaborators} (fuel : nat) (mat : CMR_CHRMAT)
    (ternary pisRegular pdec pminor : bool) (prm : CMR_REGULAR_PARAMS)
    (st : option ptr) (tl : Q) (h h' : heap) (e : CMR_ERROR) (ob : option bool)
    (od : option ptr) :
  CMRregularityTest fuel mat ternary pisRegular pdec pminor prm st tl h
    = Done (e, ob, od) h' ->
  e <> CMR_OKAY ->
  od = None
  /\ ((ob = None /\ test_failure fuel mat ternary prm st tl e h')
      \/ (pdec = false
          /\ exists (root : ptr) (h0 : heap) (v : option ptr) (R : CMR_MATROID_DEC),
               CMRmatroiddecFree (Some root) h0 = Done (e, v) h'
               /\ decs h0 !! root = Some R
               /\ regularity R <> 0%Z
               /\ ob = (if pisRegular then Some (0 <? regularity R)%Z else None))).
Proof.
  unfold CMRregularityTest. intros Hrun He.
  apply CMR_CALL_Done in Hrun as [(h1 & Hprint & Hrun) | (e' & Hne & Hprint & Heq)];
    [|injection Heq as -> -> ->; split; [reflexivity|]; left; split; [reflexivity|];
      eapply fails_printing; exact Hprint].
  apply bind_Done in Hrun as (time & h1' & Hclock & Hrun).
  injection Hclock as <- <-.
  apply bind_Done in Hrun as ([] & h2 & Hcount & Hrun).
  apply CMR_CALL_out_Done in Hrun as [(root0 & h3 & Hroot & Hrun) | (e' & v & Hne & Hroot & Heq)];
    [|injection Heq as -> -> ->; split; [reflexivity|]; left; split; [reflexivity|];
      eapply fails_creating_root; exact Hroot].
  apply bind_Done in Hrun as (root & h3' & Hasr & Hrun).
  apply asserted_Done in Hasr as [-> ->].
  apply CMR_CALL_out_Done in Hrun as [(queue0 & h4 & Hqc & Hrun) | (e' & v & Hne & Hqc & Heq)];
    [|injection Heq as -> -> ->; split; [reflexivity|]; left; split; [reflexivity|];
      eapply fails_creating_queue; exact Hqc].
  apply CMR_CALL_out_Done in Hrun as [(task0 & h5 & Htc & Hrun) | (e' & v & Hne & Htc & Heq)];
    [|injection Heq as -> -> ->; split; [reflexivity|]; left; split; [reflexivity|];
      eapply fails_creating_task; exact Htc].
  apply bind_Done in Hrun as (queue & h5' & Hasq & Hrun).
  apply asserted_Done in Hasq as [-> ->].
  apply bind_Done in Hrun as (rootTask & h5' & Hdt & Hrun).
  apply dereferenced_Done in Hdt as [-> ->].
  apply bind_Done in Hrun as ([] & h6 & Hadd & Hrun).
  apply CMR_CALL_Done in Hrun as [(h7 & Hloop & Hrun) | (e' & Hne & Hloop & Heq)];
    [|injection Heq as -> -> ->; split; [reflexivity|]; left; split; [reflexivity|];
      eapply fails_in_loop; exact Hloop].
  apply CMR_CALL_Done in Hrun as [(h8 & Hfree & Hrun) | (e' & Hne & Hfree & Heq)];
    [|injection Heq as -> -> ->; split; [reflexivity|]; left; split; [reflexivity|];
      eapply fails_freeing_queue; exact Hfree].
  apply CMR_CALL_Done in Hrun as [(h9 & Hattr & Hrun) | (e' & Hne & Hattr & Heq)];
    [|injection Heq as -> -> ->; split; [reflexivity|]; left; split; [reflexivity|];
      eapply fails_setting_attributes; exact Hattr].
  apply bind_Done in Hrun as (R & h9' & Hload & Hrun).
  apply load_dec_Done in Hload as [HR ->].
  apply bind_Done in Hrun as ([] & h9' & Hassert & Hrun).
  apply assert_Done in Hassert as [Hreg ->].
  apply negb_true_iff, Z.eqb_neq in Hreg.
  destruct pdec.
  - apply bind_Done in Hrun as ([] & h10 & Htime & Hrun).
    injection Hrun as <- <- <-. congruence.
  - apply CMR_CALL_out_Done in Hrun as [(left_ & h10 & Hfr & Hrun) | (e' & v & Hne & Hfr & Heq)].
    + apply bind_Done in Hrun as ([] & h11 & Htime & Hrun).
      injection Hrun as <- <- <-. congruence.
    + injection Heq as -> -> ->. split; [reflexivity|]. right.
      split; [reflexivity|]. exists root, h9, v, R. auto.
Qed.

Lemma test_error_hands_out_nothing_witness :
  exists h',
    CMRregularityTest (H := demo_collaborators) 10 demo_wide_matrix false true true false
      demo_params None 0 demo_heap = Done (CMR_ERROR_TIMEOUT, None, None) h'
    /\ test_failure (H := demo_collaborators) 10 demo_wide_matrix false demo_params None 0
         CMR_ERROR_TIMEOUT h'.
Proof.
  assert (Hrun : exists h',
             CMRregularityTest (H := demo_collaborators) 10 demo_wide_matrix false true
               true false demo_params None 0 demo_heap
             = Done (CMR_ERROR_TIMEOUT, None, None) h')
    by (eexists; vm_compute; reflexivity).
  destruct Hrun as (h' & Hrun).
  destruct (test_error_hands_out_nothing (H := demo_collaborators) 10 demo_wide_matrix
              false true true false demo_params None 0 demo_heap h' CMR_ERROR_TIMEOUT
              None None Hrun ltac:(discriminate))
    as [_ [[_ Hfail] | [Hpdec _]]]; [|discriminate].
  exists h'. auto.
Defined.

(** *** A node without a matrix *)

(** X4. The dispatcher reads the node's matrix only where the C
    short-circuit evaluation gets to it.  On a node whose [matrix] is NULL:
    a node not yet tested for 2-connectivity goes to the one-sum search;
    with [directGraphicness] set, or with both [graphicness] and
    [cographicness] known, the stage is that of the decision table, whatever
    the table is told about the size; otherwise the matrix is dereferenced,
    which is undefined. *)
Theorem dispatcher_reads_matrix_lazily `{Collaborators} (h : heap) (task queue : ptr)
    (T : DecompositionTask) (D : CMR_MATROID_DEC) :
  tasks h !! task = Some T ->
  decs h !! dec T = Some D ->
  matrix D = None ->
  (testedTwoConnected D = false ->
   CMRregularityTaskRun task queue h = CMRregularitySearchOneSum task queue h)
  /\ (testedTwoConnected D = true ->
      directGraphicness (params T) = false ->
      graphicness D = 0%Z \/ cographicness D = 0%Z ->
      CMRregularityTaskRun task queue h = Undefined)
  /\ (testedTwoConnected D = true ->
      directGraphicness (params T) = true
      \/ (graphicness D <> 0%Z /\ cographicness D <> 0%Z) ->
      forall rows cols : Z,
      exists s : Stage,
        first_match (decision_table (params T) D rows cols) = Some s
        /\ CMRregularityTaskRun task queue h = run_stage s task queue h).
Proof.
  intros HT HD Hm.
  assert (Hrun : forall k : DecompositionTask -> CMR_MATROID_DEC -> M CMR_ERROR,
             bind (load_task task) (fun T' => bind (load_dec (dec T')) (k T')) h
             = k T D h).
  { intros k. unfold bind, load_task, load_dec. rewrite HT, HD. reflexivity. }
  unfold CMRregularityTaskRun. rewrite Hrun. clear Hrun.
  split; [|split].
  - intros Htwo. rewrite Htwo. simpl. apply CMR_CALL_tail.
  - intros Htwo Hdirect Hunset. rewrite Htwo. simpl.
    unfold direct_or_small. rewrite Hdirect, Hm.
    destruct Hunset as [Hg | Hc].
    + rewrite Hg. reflexivity.
    + rewrite Hc. destruct (graphicness D =? 0)%Z; reflexivity.
  - intros Htwo Hcase rows cols. rewrite Htwo. cbn [negb branch].
    unfold decision_table. rewrite Htwo. cbn [negb first_match].
    assert (Hguard : forall z : Z,
               (if (z =? 0)%Z then direct_or_small (params T) D else Some false)
               = Some ((z =? 0)%Z && (directGraphicness (params T) || (rows <=? 3)%Z
                                      || (cols <=? 3)%Z))
               \/ ((z =? 0)%Z = true /\ directGraphicness (params T) = false)).
    { intros z. unfold direct_or_small.
      destruct (z =? 0)%Z; [|left; reflexivity].
      destruct (directGraphicness (params T)); [left; reflexivity | right; auto]. }
    assert (Hg : (if (graphicness D =? 0)%Z then direct_or_small (params T) D
                  else Some false)
                 = Some ((graphicness D =? 0)%Z
                         && (directGraphicness (params T) || (rows <=? 3)%Z
                             || (cols <=? 3)%Z))).
    { destruct (Hguard (graphicness D)) as [|[Hz Hd]]; [assumption|].
      apply Z.eqb_eq in Hz. destruct Hcase as [|[]]; congruence. }
    assert (Hc : (if (cographicness D =? 0)%Z then direct_or_small (params T) D
                  else Some false)
                 = Some ((cographicness D =? 0)%Z
                         && (directGraphicness (params T) || (rows <=? 3)%Z
                             || (cols <=? 3)%Z))).
    { destruct (Hguard (cographicness D)) as [|[Hz Hd]]; [assumption|].
      apply Z.eqb_eq in Hz. destruct Hcase as [|[]]; congruence. }
    rewrite Hg, Hc. clear Hg Hc Hguard.
    destruct ((graphicness D =? 0)%Z
              && (directGraphicness (params T) || (rows <=? 3)%Z || (cols <=? 3)%Z));
      [eexists; split; [reflexivity | apply CMR_CALL_tail]|].
    destruct ((cographicness D =? 0)%Z
              && (directGraphicness (params T) || (rows <=? 3)%Z || (cols <=? 3)%Z));
      [eexists; split; [reflexivity | apply CMR_CALL_tail]|].
    cbn [branch first_match].
    destruct (testedR10 D);
      [|eexists; split; [reflexivity | apply CMR_CALL_tail]].
    destruct (testedSeriesParallel D);
      [|eexists; split; [reflexivity | apply CMR_CALL_tail]].
    cbn [negb branch first_match].
    assert (Hsome : forall o : option ptr,
               bool_decide (o <> None) = bool_decide (is_Some o)).
    { intros [a|]; [|reflexivity].
      rewrite bool_decide_eq_true_2 by discriminate.
      rewrite bool_decide_eq_true_2 by eauto. reflexivity. }
    rewrite !Hsome.
    destruct (bool_decide (is_Some (denseMatrix D)));
      [eexists; split; [reflexivity | apply CMR_CALL_tail]|].
    destruct (bool_decide (is_Some (nestedMinorsMatrix D))
              && (nestedMinorsLastGraphic D =? SIZE_MAX)%Z);
      [eexists; split; [reflexivity | apply CMR_CALL_tail]|].
    destruct (bool_decide (is_Some (nestedMinorsMatrix D))
              && (nestedMinorsLastCographic D =? SIZE_MAX)%Z);
      eexists; (split; [reflexivity | apply CMR_CALL_tail]).
Qed.

Lemma dispatcher_reads_matrix_lazily_witness :
  CMRregularityTaskRun (H := demo_collaborators) 8%positive 7%positive demo_bare
  = Undefined.
Proof.
  destruct (dispatcher_reads_matrix_lazily (H := demo_collaborators) demo_bare 8%positive
              7%positive demo_task
              (MatroidDec CMR_MATROID_DEC_TYPE_UNKNOWN false 0 0 0 None None 0 []
                 true false false None None SIZE_MAX SIZE_MAX)
              eq_refl eq_refl eq_refl) as (_ & Hundef & _).
  apply Hundef; [reflexivity | reflexivity | left; reflexivity].
Defined.

(** *** The way up to the root *)

(** X5. The loop [while (root->parent != NULL) root = root->parent]: when
    the parent links lead from [d] to a node without parent, the loop
    returns that node, once its budget exceeds the number of links, and
    leaves the store alone; on a node that is its own parent it never
    returns; on a dangling node it is undefined. *)
Theorem find_root_climbs_to_overall_root (h : heap) (d : ptr) :
  (forall r, overall_root h d r ->
     exists n, forall fuel, n < fuel -> find_root fuel d h = Done r h)
  /\ (forall D, decs h !! d = Some D -> parent D = Some d ->
        forall fuel, find_root fuel d h = OutOfFuel)
  /\ (decs h !! d = None -> forall fuel, find_root (S fuel) d h = Undefined).
Proof.
  split; [|split].
  - intros r [Hpath (R & HR & Hnone)].
    induction Hpath as [d|d up r D HD Hup Hpath IH].
    + exists 0. intros [|fuel] Hfuel; [lia|].
      simpl. unfold bind, load_dec. rewrite HR, Hnone. reflexivity.
    + destruct (IH HR) as [n Hn]. exists (S n).
      intros [|fuel] Hfuel; [lia|].
      simpl. unfold bind, load_dec. rewrite HD, Hup. apply Hn. lia.
  - intros D HD Hself fuel. induction fuel as [|fuel IH]; [reflexivity|].
    simpl. unfold bind, load_dec. rewrite HD, Hself. exact IH.
  - intros Hnone fuel. simpl. unfold bind, load_dec. rewrite Hnone. reflexivity.
Qed.

Lemma find_root_climbs_to_overall_root_witness :
  exists n, forall fuel, n < fuel -> find_root fuel 2%positive demo_tree
                                     = Done 1%positive demo_tree.
Proof.
  destruct (find_root_climbs_to_overall_root demo_tree 2%positive) as [Hup _].
  apply Hup. split.
  - apply (ancestor_up _ _ 1%positive _ demo_child); [reflexivity | reflexivity |].
    apply ancestor_self.
  - exists demo_node. split; reflexivity.
Defined.

(* ===================================================================== *)
(** ** Further properties of [find_wheel_minor] *)
(* ===================================================================== *)

(** *** The set of extra elements *)

Lemma walk_extends `{WheelHelpers} (fuel : nat) (dim : bipartite_graph_dimensions)
    (res : list bipartite_graph_bfs_node) (nd : Z) (w w' : walk_state) :
  walk fuel dim res nd w = Returned w' -> ws_extra w ⊆ ws_extra w'.
Proof.
  revert w. induction fuel as [|fuel IH]; intros w; simpl.
  - case_bool_decide; [|discriminate]. intros [= <-]. reflexivity.
  - case_bool_decide; [intros [= <-]; reflexivity|].
    destruct (pivots_at _ nd); unfold asserting;
      repeat (case_match; try discriminate);
      intros Hrun; apply IH in Hrun; cbn [ws_extra] in Hrun; set_solver.
Qed.

Lemma grow_block_extends `{WheelHelpers} (st0 : wheel_state)
    (extra0 : matroid_element_set) (b : block_result) :
  grow_block st0 extra0 = Returned b ->
  match b with
  | Early r => wr_extra r = extra0
  | Grown _ extra _ _ => extra0 ⊆ extra
  end.
Proof.
  unfold grow_block, asserting. intros Hgrow.
  repeat (case_match; try discriminate); subst.
  all: try (injection Hgrow as <-; reflexivity).
  all: repeat match goal with
              | E : (_, _) = (_, _) |- _ => injection E as <- <-
              end.
  all: try (injection Hgrow as <- <- <- <-); set_solver.
Qed.

(** X6. [find_wheel_minor] only ever inserts into [extra_elements]: every
    element that was in the set at the call is in the set at the return,
    and a return before the search leaves the set as it was. *)
Theorem extra_elements_only_grow `{WheelHelpers} (st0 : wheel_state)
    (extra0 : matroid_element_set) (r : wheel_result) :
  find_wheel_minor st0 extra0 = Returned r ->
  extra0 ⊆ wr_extra r
  /\ (grow_block st0 extra0 = Returned (Early r) -> wr_extra r = extra0).
Proof.
  intros Hrun. split; [|intros Hearly; apply (grow_block_extends _ _ _ Hearly)].
  unfold find_wheel_minor in Hrun.
  destruct (grow_block st0 extra0) as [[r'|st extra bw bh]| |] eqn:Hgrow;
    try discriminate; cbn [wheel_bind] in Hrun;
    pose proof (grow_block_extends _ _ _ Hgrow) as Hsub; cbn beta iota in Hsub.
  - injection Hrun as <-. rewrite Hsub. reflexivity.
  - destruct (search_path st bw bh) as [[|] res]; cbn [negb] in Hrun.
    + unfold extract_w3 in Hrun.
      destruct (trace_path st extra bw bh res) as [[w ix]| |] eqn:Htrace;
        try discriminate.
      cbn [wheel_bind] in Hrun. apply check_w3_passed in Hrun as [Hret _].
      injection Hret as <-. cbn [wr_extra].
      unfold trace_path, asserting in Htrace.
      repeat (case_match; try discriminate).
      destruct (walk _ _ _ _ _) as [w'| |] eqn:Hwalk; try discriminate.
      cbn [wheel_bind] in Htrace.
      case_match; try discriminate. injection Htrace as <- _.
      apply walk_extends in Hwalk. cbn [ws_extra] in Hwalk. set_solver.
    + injection Hrun as <-. unfold separate. repeat case_match. exact Hsub.
Qed.

Lemma extra_elements_only_grow_witness :
  exists r : wheel_result,
    find_wheel_minor (H := demo_helpers) demo_wheel {[7%Z]} = Returned r
    /\ 7%Z ∈ wr_extra r.
Proof.
  assert (Hrun : exists r, find_wheel_minor (H := demo_helpers) demo_wheel {[7%Z]}
                           = Returned r)
    by (eexists; vm_compute; reflexivity).
  destruct Hrun as (r & Hrun). exists r. split; [exact Hrun|].
  destruct (extra_elements_only_grow (H := demo_helpers) demo_wheel {[7%Z]} r Hrun)
    as [Hsub _].
  apply Hsub. apply elem_of_singleton. reflexivity.
Defined.

(** *** What the separation returned says *)

(** X7. The caller can tell the outcomes apart by the separation returned:
    it is the empty one exactly when the block was grown and the search
    found a path; a return before the search has a split whose first
    component is 1; and no separation returned has more than one
    witness. *)
Theorem empty_separation_tells_wheel `{WheelHelpers} (st0 : wheel_state)
    (extra0 : matroid_element_set) (r : wheel_result) :
  find_wheel_minor st0 extra0 = Returned r ->
  (wr_separation r = separation_none <->
   exists st extra bw bh res,
     grow_block st0 extra0 = Returned (Grown st extra bw bh)
     /\ search_path st bw bh = (true, res))
  /\ (grow_block st0 extra0 = Returned (Early r) ->
      (sep_split (wr_separation r)).1 = 1%Z)
  /\ length (sep_witnesses (wr_separation r)) <= 1.
Proof.
  intros Hrun. split; [split|split].
  - apply empty_separation_after_path. exact Hrun.
  - intros (st & extra & bw & bh & res & Hgrow & Hbfs).
    rewrite (find_wheel_minor_path _ _ _ _ _ _ _ Hgrow Hbfs) in Hrun.
    unfold extract_w3 in Hrun.
    destruct (trace_path st extra bw bh res) as [[w ix]| |]; try discriminate.
    cbn [wheel_bind] in Hrun. apply check_w3_passed in Hrun as [Hret _].
    injection Hret as <-. reflexivity.
  - unfold grow_block, asserting. intros Hgrow.
    repeat (case_match; try discriminate).
    all: injection Hgrow as <-; reflexivity.
  - unfold find_wheel_minor in Hrun.
    destruct (grow_block st0 extra0) as [[r'|st extra bw bh]| |] eqn:Hgrow;
      try discriminate; cbn [wheel_bind] in Hrun.
    + injection Hrun as <-. unfold grow_block, asserting in Hgrow.
      repeat (case_match; try discriminate).
      all: injection Hgrow as <-; simpl; lia.
    + destruct (search_path st bw bh) as [[|] res]; cbn [negb] in Hrun.
      * unfold extract_w3 in Hrun.
        destruct (trace_path st extra bw bh res) as [[w ix]| |]; try discriminate.
        cbn [wheel_bind] in Hrun. apply check_w3_passed in Hrun as [Hret _].
        injection Hret as <-. simpl. lia.
      * injection Hrun as <-. unfold separate. repeat case_match. simpl. lia.
Qed.

Lemma empty_separation_tells_wheel_witness :
  exists r : wheel_result,
    find_wheel_minor (H := demo_helpers) demo_blocks ∅ = Returned r
    /\ wr_separation r <> separation_none
    /\ length (sep_witnesses (wr_separation r)) <= 1.
Proof.
  assert (Hrun : exists r, find_wheel_minor (H := demo_helpers) demo_blocks ∅ = Returned r)
    by (eexists; vm_compute; reflexivity).
  destruct Hrun as (r & Hrun). exists r. split; [exact Hrun|].
  destruct (empty_separation_tells_wheel (H := demo_helpers) demo_blocks ∅ r Hrun)
    as ([Hpath _] & _ & Hone).
  split; [|exact Hone].
  intros Hnone. destruct (Hpath Hnone) as (st & extra & bw & bh & res & Hgrow & Hbfs).
  rewrite demo_blocks_grows in Hgrow. injection Hgrow as <- <- <- <-.
  rewrite demo_blocks_no_path in Hbfs. discriminate.
Defined.

(** *** The two searches for a zero *)

Lemma search_zero_none (read : nat -> Z) (bound : nat) (k fuel : nat) :
  bound <= k + fuel ->
  search_zero read bound k fuel = None ->
  read k <> 0%Z /\ forall i, k <= i < bound -> read i <> 0%Z.
Proof.
  revert k. induction fuel as [|fuel IH]; intros k Hfuel; simpl.
  - destruct (read k =? 0)%Z eqn:E; [discriminate|]. intros _.
    apply Z.eqb_neq in E. split; [exact E|]. intros i Hi. lia.
  - destruct (read k =? 0)%Z eqn:E; [discriminate|]. apply Z.eqb_neq in E.
    case_bool_decide as Hb.
    + intros Hs. destruct (IH (S k) ltac:(lia) Hs) as [Hk Hall].
      split; [exact E|]. intros i Hi.
      destruct (decide (i = k)) as [->|]; [exact E | apply Hall; lia].
    + intros _. split; [exact E|]. intros i Hi.
      assert (i = k) as -> by lia. exact E.
Qed.

(** X8. The loops of lines 215-219 and 251-255 return the first position
    that holds a zero, provided it is position 0 or lies below the bound;
    the bound is asserted only after an increment, so a zero at position 0
    is accepted whatever the bound is.  The assertion fails exactly when
    position 0 and all positions below the bound hold no zero. *)
Theorem zero_search_returns_first_zero (read : nat -> Z) (bound : nat) :
  (forall z, search_zero read bound 0 bound = Some z <->
             read z = 0%Z /\ (forall i, i < z -> read i <> 0%Z) /\ (z = 0 \/ z < bound))
  /\ (search_zero read bound 0 bound = None <->
      read 0 <> 0%Z /\ forall i, i < bound -> read i <> 0%Z).
Proof.
  split.
  - intros z. split.
    + intros Hs. apply search_zero_found in Hs as (Hz & _ & Hor & Hall).
      split; [exact Hz|]. split; [intros i Hi; apply Hall; lia | exact Hor].
    + intros (Hz & Hall & Hor).
      destruct (search_zero read bound 0 bound) as [z'|] eqn:Hs.
      * apply search_zero_found in Hs as (Hz' & _ & Hor' & Hall').
        f_equal. destruct (Nat.lt_trichotomy z z') as [Hlt|[Heq|Hgt]]; [|exact (eq_sym Heq)|].
        -- exfalso. apply (Hall' z); [lia | exact Hz].
        -- exfalso. apply (Hall z'); [lia | exact Hz'].
      * apply search_zero_none in Hs as [H0 Hnone]; [|lia]. exfalso.
        destruct Hor as [->|Hlt]; [exact (H0 Hz) | apply (Hnone z); [lia | exact Hz]].
  - split.
    + intros Hs. apply search_zero_none in Hs as [H0 Hnone]; [|lia].
      split; [exact H0|]. intros i Hi. apply Hnone. lia.
    + intros [H0 Hnone].
      destruct (search_zero read bound 0 bound) as [z|] eqn:Hs; [|reflexivity].
      apply search_zero_found in Hs as (Hz & _ & Hor & _). exfalso.
      destruct Hor as [->|Hlt]; [exact (H0 Hz) | exact (Hnone z Hlt Hz)].
Qed.

(** *** The end of the path *)

(** X9. The loop of lines 191-195 keeps the last end node that was reached:
    when no end node was reached, [nearest_end] stays 0; otherwise it is
    the reached end node after which no end node was reached. *)
Theorem nearest_end_is_last_reached (res : list bipartite_graph_bfs_node)
    (ends : list nat) :
  ((forall e, e ∈ ends -> is_reachable (node_at res e) = false) ->
   find_nearest_end res ends = 0)
  /\ (forall l1 e l2,
        ends = l1 ++ e :: l2 ->
        is_reachable (node_at res e) = true ->
        (forall x, x ∈ l2 -> is_reachable (node_at res x) = false) ->
        find_nearest_end res ends = e).
Proof.
  assert (Hskip : forall l start,
             (forall x, x ∈ l -> is_reachable (node_at res x) = false) ->
             find_nearest_end_from res l start = start).
  { induction l as [|x l IH]; intros start Hnone; [reflexivity|].
    unfold find_nearest_end_from in *. simpl.
    rewrite (Hnone x) by left. apply IH. intros y Hy. apply Hnone. right. exact Hy. }
  split.
  - intros Hnone. apply (Hskip ends 0 Hnone).
  - intros l1 e l2 -> Hr Hnone.
    unfold find_nearest_end. rewrite fold_left_app. simpl. rewrite Hr.
    apply (Hskip l2 e Hnone).
Qed.

(** *** The six exchanges *)

(** The six exchanges on a permutation, for any three distinct positions. *)
Lemma front_three_any (perm : list nat) (z o p : nat) :
  z <> o -> z <> p -> o <> p ->
  z < length perm -> o < length perm -> p < length perm ->
  front_three perm z o p ≡ₚ perm
  /\ perm_at (front_three perm z o p) 2 = perm_at perm p
  /\ (p <> 0 ->
      perm_at (front_three perm z o p) 0 = perm_at perm z
      /\ perm_at (front_three perm z o p) 1 = perm_at perm o)
  /\ (p = 0 -> perm_at (front_three perm z o p) 1 = perm_at perm z).
Proof.
  intros Hzo Hzp Hop Hz Ho Hp.
  assert (H3 : 3 <= length perm) by lia.
  unfold front_three.
  repeat case_bool_decide.
  all: split;
    [repeat (rewrite swap_positions_Permutation
               by (rewrite ?length_swap_positions; lia)); reflexivity|].
  all: repeat (rewrite perm_at_swap_positions by (rewrite ?length_swap_positions; lia)).
  all: split; [f_equal; unfold transpose; repeat case_decide; lia|].
  all: split; [intros Hp0; split | intros Hp0];
    f_equal; unfold transpose; repeat case_decide; lia.
Qed.

(** X10. The exchanges of lines 267-295 always rearrange the rows and the
    columns, for three distinct rows (columns) of the matrix; they bring
    the path row to position 2; they bring the zero row to position 0 and
    the one row to position 1 unless the path row is row 0, and then the
    zero row ends at position 1.  The same holds of the columns. *)
Theorem exchanges_place_unless_path_is_first (s : wheel_state) (ix : w3_indices) :
  zero_row ix <> one_row ix -> zero_row ix <> path_row ix -> one_row ix <> path_row ix ->
  zero_row ix < size1 s.2 -> one_row ix < size1 s.2 -> path_row ix < size1 s.2 ->
  zero_column ix <> one_column ix -> zero_column ix <> path_column ix ->
  one_column ix <> path_column ix ->
  zero_column ix < size2 s.2 -> one_column ix < size2 s.2 -> path_column ix < size2 s.2 ->
  let placed := place_columns (place_rows s ix) ix in
  data placed.2 = data s.2
  /\ mx_perm1 placed.2 ≡ₚ mx_perm1 s.2
  /\ mx_perm2 placed.2 ≡ₚ mx_perm2 s.2
  /\ perm_at (mx_perm1 placed.2) 2 = perm_at (mx_perm1 s.2) (path_row ix)
  /\ perm_at (mx_perm2 placed.2) 2 = perm_at (mx_perm2 s.2) (path_column ix)
  /\ (path_row ix <> 0 ->
      perm_at (mx_perm1 placed.2) 0 = perm_at (mx_perm1 s.2) (zero_row ix)
      /\ perm_at (mx_perm1 placed.2) 1 = perm_at (mx_perm1 s.2) (one_row ix))
  /\ (path_column ix <> 0 ->
      perm_at (mx_perm2 placed.2) 0 = perm_at (mx_perm2 s.2) (zero_column ix)
      /\ perm_at (mx_perm2 placed.2) 1 = perm_at (mx_perm2 s.2) (one_column ix))
  /\ (path_row ix = 0 ->
      perm_at (mx_perm1 placed.2) 1 = perm_at (mx_perm1 s.2) (zero_row ix))
  /\ (path_column ix = 0 ->
      perm_at (mx_perm2 placed.2) 1 = perm_at (mx_perm2 s.2) (zero_column ix)).
Proof.
  intros R1 R2 R3 R4 R5 R6 C1 C2 C3 C4 C5 C6 placed.
  destruct (place_columns_front (place_rows s ix) ix) as [Hcm _].
  destruct (place_rows_front s ix) as [Hrm _].
  unfold placed. rewrite Hcm, Hrm. cbn [data mx_perm1 mx_perm2].
  destruct (front_three_any (mx_perm1 s.2) (zero_row ix) (one_row ix) (path_row ix))
    as (Hp1 & Hr2 & Hr01 & Hr1); try assumption.
  destruct (front_three_any (mx_perm2 s.2) (zero_column ix) (one_column ix)
              (path_column ix)) as (Hp2 & Hc2 & Hc01 & Hc1); try assumption.
  repeat split; try assumption.
  - apply Hr01; assumption.
  - apply Hr01; assumption.
  - apply Hc01; assumption.
  - apply Hc01; assumption.
Qed.

Lemma exchanges_place_unless_path_is_first_witness :
  let placed := place_columns (place_rows demo_wheel (W3 1 2 0 0 1 3)) (W3 1 2 0 0 1 3) in
  perm_at (mx_perm1 placed.2) 1 = 1
  /\ perm_at (mx_perm2 placed.2) 0 = 0
  /\ perm_at (mx_perm2 placed.2) 1 = 1
  /\ perm_at (mx_perm2 placed.2) 2 = 3.
Proof.
  pose proof (exchanges_place_unless_path_is_first demo_wheel (W3 1 2 0 0 1 3)) as Hx.
  cbn [zero_row one_row path_row zero_column one_column path_column] in Hx.
  do 12 (lapply Hx; [clear Hx; intros Hx | first [lia | vm_compute; lia]]).
  destruct Hx as (_ & _ & _ & _ & Hc2 & _ & Hc01 & Hr1 & _).
  destruct (Hc01 ltac:(lia)) as [Hc0 Hc1].
  cbv zeta. rewrite (Hr1 eq_refl), Hc0, Hc1, Hc2. repeat split; reflexivity.
Defined.

(** *** The walk back *)

(** X11. On the result of a search that is a tree of predecessors and
    reaches an end column, the trace back of lines 189-255 can only stop
    in one of the two searches for a zero: it returns, or it fails the
    assertion of line 218 or that of line 254.  The assertions of lines
    197, 202, 235 and 241 hold, and the walk back comes to an end. *)
Theorem trace_back_stops_only_in_zero_searches `{WheelHelpers} (st : wheel_state)
    (extra : matroid_element_set) (bw bh : nat) (res : list bipartite_graph_bfs_node) :
  search_tree st bw bh res ->
  search_found st bw res ->
  bh <= size1 st.2 ->
  1 <= bw -> 1 <= bh ->
  (exists w ix, trace_path st extra bw bh res = Returned (w, ix))
  \/ trace_path st extra bw bh res = Failed zero_column_in_block
  \/ trace_path st extra bw bh res = Failed zero_row_in_block.
Proof.
  intros Htree Hfound Hbh Hbw1 Hbh1.
  destruct (nearest_end_reached st bw res Hfound) as (j & Hj & He & Hlt & Hr).
  destruct (path_shape st bw bh res Htree Hbh j Hj Hlt Hr)
    as (D & HD & HD3 & Hodd & Hp & Hr0 & Hc1).
  pose proof (tree_int st bw bh res Htree _ Hlt) as Hint.
  destruct (walk_back st bw bh res Htree Hbh (Z.of_nat D + 1) D
              (WalkState st extra (size1 st.2 + j)
                 (predecessor (node_at res (size1 st.2 + j))) 0 0)
              (2 + length res))
    as (w' & Hrun & _);
    [exact Hlt | exact HD | reflexivity
    | pose proof (distance_below_size st bw bh res Htree D _ Hlt HD); simpl; lia |].
  unfold trace_path. rewrite He. unfold asserting. rewrite Hr, HD.
  assert (Hnd : size_t (Z.of_nat D + 1) = (Z.of_nat D + 1)%Z).
  { unfold size_t. apply Z.mod_small. lia. }
  rewrite Hnd.
  assert (Heven : ((Z.of_nat D + 1) mod 2 =? 0)%Z = true).
  { rewrite <- Zeven_mod. rewrite Z.add_1_r, Z.even_succ. exact Hodd. }
  rewrite Heven.
  destruct (search_zero _ bw 0 bw) as [zc|]; [|right; left; reflexivity].
  rewrite Hrun. cbn [wheel_bind].
  destruct (search_zero _ bh 0 bh) as [z|]; [|right; right; reflexivity].
  left. eauto.
Qed.

Lemma trace_back_stops_only_in_zero_searches_witness :
  exists w ix,
    trace_path (H := demo_helpers) demo_wheel_block ∅ 2 2 demo_wheel_search
    = Returned (w, ix).
Proof.
  destruct (trace_back_stops_only_in_zero_searches (H := demo_helpers) demo_wheel_block ∅
              2 2 demo_wheel_search demo_wheel_tree demo_wheel_found
              ltac:(vm_compute; lia) ltac:(lia) ltac:(lia))
    as [Hret | [Hfail | Hfail]].
  - exact Hret.
  - vm_compute in Hfail. discriminate.
  - vm_compute in Hfail. discriminate.
Defined.

(** *** A path always yields a W3 *)

Lemma pivots_at_spec (m D : nat) :
  (Z.of_nat D + 1 < 2 ^ 31)%Z ->
  pivots_at (Z.of_nat m) (Z.of_nat D + 1) = true
  <-> Z.even (Z.of_nat m) = true /\ 2 <= m /\ m + 2 <= D.
Proof.
  intros HD. unfold pivots_at. rewrite to_int_small by lia.
  rewrite !andb_true_iff, Z.eqb_eq, Z.leb_le, Z.ltb_lt.
  rewrite Z.rem_mod_nonneg by lia. rewrite Zeven_mod, Z.eqb_eq. lia.
Qed.

Lemma check_w3_passes {A : Type} (x : matrix_permuted) (ix : w3_indices)
    (k : wheel_outcome A) :
  matrix_at x (one_row ix) (one_column ix) = 1%Z ->
  matrix_at x (one_row ix) (zero_column ix) = 1%Z ->
  matrix_at x (one_row ix) (path_column ix) = 1%Z ->
  matrix_at x (zero_row ix) (one_column ix) = 1%Z ->
  matrix_at x (zero_row ix) (zero_column ix) = 1%Z ->
  matrix_at x (zero_row ix) (path_column ix) = 0%Z ->
  matrix_at x (path_row ix) (one_column ix) = 1%Z ->
  matrix_at x (path_row ix) (zero_column ix) = 0%Z ->
  matrix_at x (path_row ix) (path_column ix) = 1%Z ->
  check_w3 x ix k = k.
Proof.
  intros H1 H2 H3 H4 H5 H6 H7 H8 H9. unfold check_w3, asserting.
  rewrite H1, H2, H3, H4, H5, H6, H7, H8, H9. reflexivity.
Qed.

Section WheelFound.

Context `{WheelHelpers}.
Variables (st : wheel_state) (bw bh : nat) (res : list bipartite_graph_bfs_node).
Variables (j D : nat).

Hypothesis Htree : search_tree st bw bh res.
Hypothesis Hbh : bh <= size1 st.2.
Hypothesis Hnear : search_nearest st bw bh res.
Hypothesis Hlayer : search_layered st bw bh res.
Hypothesis Hbin : is_binary st.2.
Hypothesis Hj : j < bw.
Hypothesis Hlt : size1 st.2 + j < length res.
Hypothesis HD : distance (node_at res (size1 st.2 + j)) = Z.of_nat D.
Hypothesis HD3 : 3 <= D.
Hypothesis Hodd : Z.odd (Z.of_nat D) = true.

(** The nodes of the path, by their distance. *)
Lemma path_node_distance (d : nat) :
  d <= D ->
  path_node res (size1 st.2 + j) D d < length res
  /\ distance (node_at res (path_node res (size1 st.2 + j) D d)) = Z.of_nat d.
Proof.
  intros Hd. unfold path_node.
  destruct (ancestor_distance st bw bh res Htree D _ Hlt HD (D - d)) as [Hl Hdist];
    [lia|].
  split; [exact Hl|]. rewrite Hdist. f_equal. lia.
Qed.

Lemma path_node_predecessor (d : nat) :
  d < D ->
  predecessor (node_at res (path_node res (size1 st.2 + j) D (S d)))
  = path_node res (size1 st.2 + j) D d.
Proof.
  intros Hd. unfold path_node.
  replace (D - d) with (S (D - S d)) by lia.
  rewrite (ancestor_succ res). reflexivity.
Qed.

Lemma path_node_end : path_node res (size1 st.2 + j) D D = size1 st.2 + j.
Proof. unfold path_node. rewrite Nat.sub_diag. reflexivity. Qed.

Lemma path_row_node (d : nat) :
  d <= D -> Z.even (Z.of_nat d) = true ->
  path_node res (size1 st.2 + j) D d < size1 st.2.
Proof.
  intros Hd Hev. destruct (path_node_distance d Hd) as [Hl Hdist].
  pose proof (distance_parity st bw bh res Htree Hbh _ _ Hl Hdist) as Hrow.
  rewrite Hev in Hrow. unfold is_row, search_dimensions in Hrow. simpl in Hrow.
  apply bool_decide_eq_true in Hrow. exact Hrow.
Qed.

Lemma path_column_node (d : nat) :
  d <= D -> Z.even (Z.of_nat d) = false ->
  exists c, path_node res (size1 st.2 + j) D d = size1 st.2 + c /\ c < size2 st.2.
Proof.
  intros Hd Hev. destruct (path_node_distance d Hd) as [Hl Hdist].
  pose proof (distance_parity st bw bh res Htree Hbh _ _ Hl Hdist) as Hrow.
  rewrite Hev in Hrow. unfold is_row, search_dimensions in Hrow. simpl in Hrow.
  apply bool_decide_eq_false in Hrow.
  exists (path_node res (size1 st.2 + j) D d - size1 st.2).
  destruct Htree as [Hlen _]. split; lia.
Qed.

(** A row at a positive distance lies below the block. *)
Lemma far_row_below_block (i : nat) :
  (0 < distance (node_at res i))%Z -> bh <= i.
Proof.
  intros Hd. destruct Hnear as (Hstart & _ & _).
  destruct (decide (bh <= i)) as [|Hlow]; [assumption|].
  rewrite (Hstart i) in Hd by lia. lia.
Qed.

(** A column that was reached at another distance than the end of the path
    lies right of the block. *)
Lemma near_column_right_of_block (c : nat) :
  (0 <= distance (node_at res (size1 st.2 + c)))%Z ->
  distance (node_at res (size1 st.2 + c)) <> Z.of_nat D ->
  bw <= c.
Proof.
  intros Hd Hne. destruct Hnear as (_ & _ & Hequal).
  destruct (decide (bw <= c)) as [|Hlow]; [assumption|]. exfalso. apply Hne.
  rewrite <- HD. apply Hequal.
  - unfold end_nodes. apply list_elem_of_fmap. exists c.
    split; [reflexivity | apply elem_of_seq; lia].
  - unfold end_nodes. apply list_elem_of_fmap. exists j.
    split; [reflexivity | apply elem_of_seq; lia].
  - unfold is_reachable. apply Z.leb_le. exact Hd.
  - unfold is_reachable. apply Z.leb_le. rewrite HD. lia.
Qed.

(** The two readings of the layers: an entry between a row and a column
    that are too far apart is zero. *)
Lemma entry_zero_column_far (i c : nat) :
  i < size1 st.2 -> c < size2 st.2 ->
  ~ (i < bh /\ c < bw) ->
  (0 <= distance (node_at res i))%Z ->
  (distance (node_at res i) + 2 <= Z.of_nat D)%Z ->
  ~ (0 <= distance (node_at res (size1 st.2 + c)) <= distance (node_at res i) + 1)%Z ->
  matrix_at st.2 i c = 0%Z.
Proof.
  intros Hi Hc Hout Hd0 HdD Hfar.
  destruct (decide (matrix_at st.2 i c = 0%Z)) as [|Hnz]; [assumption|]. exfalso.
  assert (Hm : modified_matrix st.2 bh bw i c <> 0%Z).
  { unfold modified_matrix, zero_block_matrix_modifier.
    destruct (bool_decide (i < bh) && bool_decide (c < bw)) eqn:E; [|exact Hnz].
    apply andb_true_iff in E as [E1 E2]. apply bool_decide_eq_true in E1, E2. tauto. }
  destruct (Hlayer (size1 st.2 + j) i c) as [Hrow _]; try assumption.
  - unfold end_nodes. apply list_elem_of_fmap. exists j.
    split; [reflexivity | apply elem_of_seq; lia].
  - unfold is_reachable. apply Z.leb_le. rewrite HD. lia.
  - apply Hfar. apply Hrow; [exact Hd0 | rewrite HD; exact HdD].
Qed.

Lemma entry_zero_row_far (i c : nat) :
  i < size1 st.2 -> c < size2 st.2 ->
  ~ (i < bh /\ c < bw) ->
  (0 <= distance (node_at res (size1 st.2 + c)))%Z ->
  (distance (node_at res (size1 st.2 + c)) + 2 <= Z.of_nat D)%Z ->
  ~ (0 <= distance (node_at res i) <= distance (node_at res (size1 st.2 + c)) + 1)%Z ->
  matrix_at st.2 i c = 0%Z.
Proof.
  intros Hi Hc Hout Hd0 HdD Hfar.
  destruct (decide (matrix_at st.2 i c = 0%Z)) as [|Hnz]; [assumption|]. exfalso.
  assert (Hm : modified_matrix st.2 bh bw i c <> 0%Z).
  { unfold modified_matrix, zero_block_matrix_modifier.
    destruct (bool_decide (i < bh) && bool_decide (c < bw)) eqn:E; [|exact Hnz].
    apply andb_true_iff in E as [E1 E2]. apply bool_decide_eq_true in E1, E2. tauto. }
  destruct (Hlayer (size1 st.2 + j) i c) as [_ Hcol]; try assumption.
  - unfold end_nodes. apply list_elem_of_fmap. exists j.
    split; [reflexivity | apply elem_of_seq; lia].
  - unfold is_reachable. apply Z.leb_le. rewrite HD. lia.
  - apply Hfar. apply Hcol; [exact Hd0 | rewrite HD; exact HdD].
Qed.

(** The edge of the tree between the path's nodes at distances [d] and
    [d + 1] is a one of the matrix. *)
Lemma path_edge_from_row (d : nat) (c : nat) :
  d < D -> Z.even (Z.of_nat d) = true ->
  path_node res (size1 st.2 + j) D (S d) = size1 st.2 + c ->
  matrix_at st.2 (path_node res (size1 st.2 + j) D d) c = 1%Z.
Proof.
  intros Hd Hev Hc.
  destruct (path_node_distance (S d) ltac:(lia)) as [Hl Hdist].
  destruct (tree_edge st bw bh res Htree _ Hl) as (_ & _ & _ & Hedge); [lia|].
  rewrite (path_node_predecessor d Hd) in Hedge.
  pose proof (path_row_node d ltac:(lia) Hev) as Hrow.
  unfold indexes_to_coordinates, is_row, search_dimensions in Hedge. simpl in Hedge.
  rewrite bool_decide_eq_true_2 in Hedge by exact Hrow. cbn [fst snd] in Hedge.
  unfold index_to_row, index_to_column in Hedge. simpl in Hedge.
  rewrite Hc in Hedge. replace (size1 st.2 + c - size1 st.2) with c in Hedge by lia.
  apply (modified_nonzero_outside st bw bh Hbh) in Hedge as [_ Hnz].
  destruct Htree as [Hlen _].
  destruct (binary_entry _ (path_node res (size1 st.2 + j) D d) c Hbin) as [Hz|Ho];
    [exact Hrow | lia | contradiction | exact Ho].
Qed.

Lemma path_edge_from_column (d : nat) (c : nat) :
  d < D -> Z.even (Z.of_nat d) = false ->
  path_node res (size1 st.2 + j) D d = size1 st.2 + c ->
  matrix_at st.2 (path_node res (size1 st.2 + j) D (S d)) c = 1%Z.
Proof.
  intros Hd Hev Hc.
  destruct (path_node_distance (S d) ltac:(lia)) as [Hl Hdist].
  destruct (tree_edge st bw bh res Htree _ Hl) as (_ & _ & _ & Hedge); [lia|].
  rewrite (path_node_predecessor d Hd) in Hedge.
  assert (Hev' : Z.even (Z.of_nat (S d)) = true).
  { rewrite Nat2Z.inj_succ, Z.even_succ, <- Z.negb_even, Hev. reflexivity. }
  pose proof (path_row_node (S d) ltac:(lia) Hev') as Hrow.
  unfold indexes_to_coordinates, is_row, search_dimensions in Hedge. simpl in Hedge.
  rewrite bool_decide_eq_false_2 in Hedge by (rewrite Hc; lia). cbn [fst snd] in Hedge.
  unfold index_to_row, index_to_column in Hedge. simpl in Hedge.
  rewrite Hc in Hedge. replace (size1 st.2 + c - size1 st.2) with c in Hedge by lia.
  apply (modified_nonzero_outside st bw bh Hbh) in Hedge as [_ Hnz].
  destruct (path_node_distance d ltac:(lia)) as [Hl0 _]. rewrite Hc in Hl0.
  destruct Htree as [Hlen _].
  destruct (binary_entry _ (path_node res (size1 st.2 + j) D (S d)) c Hbin) as [Hz|Ho];
    [exact Hrow | lia | contradiction | exact Ho].
Qed.

Variable zc : nat.

Hypothesis Hperm1 : is_permutation (mx_perm1 st.2).
Hypothesis Hperm2 : is_permutation (mx_perm2 st.2).
Hypothesis Hpivot : pivot_keeps_permutations.
Hypothesis Hrows : pivot_keeps_rows.
Hypothesis Hpivbin : pivot_is_binary.
Hypothesis Hzc : zc < bw.

Lemma path_row_is_row :
  path_node res (size1 st.2 + j) D (D - 1) < size1 st.2
  /\ distance (node_at res (path_node res (size1 st.2 + j) D (D - 1)))
     = Z.of_nat (D - 1)
  /\ bh <= path_node res (size1 st.2 + j) D (D - 1).
Proof.
  assert (Hev : Z.even (Z.of_nat (D - 1)) = true).
  { apply Z.odd_spec in Hodd as [q Hq]. apply Z.even_spec. exists q. lia. }
  destruct (path_node_distance (D - 1) ltac:(lia)) as [_ Hdist].
  split; [apply path_row_node; [lia | exact Hev]|]. split; [exact Hdist|].
  apply far_row_below_block. rewrite Hdist. lia.
Qed.

(** A step of the walk that does not pivot. *)
Lemma idle_step (m : nat) (s : wheel_state) :
  ~ (Z.even (Z.of_nat m) = true /\ 2 <= m /\ m + 2 <= D) ->
  walk_invariant st res j D zc (S m) s -> walk_invariant st res j D zc m s.
Proof.
  intros Hidle (E1 & E2 & Bs & J1 & J2 & J3 & J4 & J5).
  assert (Hatt : attachment D (S m) = attachment D m).
  { unfold attachment. rewrite Nat2Z.inj_succ, Z.even_succ, <- Z.negb_even.
    destruct (Z.even (Z.of_nat m)) eqn:Hev; simpl negb; cbn iota; [|lia].
    apply Z.even_spec in Hev as [q Hq]. lia. }
  rewrite Hatt in J2, J3.
  repeat split; try assumption.
  intros i c Hi Hc Hd. apply J1; [assumption | assumption | lia].
Qed.

(** A step of the walk that pivots. *)
Lemma pivot_step (m : nat) (s : wheel_state) :
  Z.even (Z.of_nat m) = true -> 2 <= m -> m + 2 <= D ->
  walk_invariant st res j D zc (S m) s ->
  walk_invariant st res j D zc m
    (matroid_binary_pivot s (path_node res (size1 st.2 + j) D m)
       (path_node res (size1 st.2 + j) D (S m) - size1 st.2)).
Proof.
  intros Hev Hm2 HmD (E1 & E2 & Bs & J1 & J2 & J3 & J4 & J5).
  pose proof Hev as Hev0. apply Z.even_spec in Hev0 as [q Hq].
  pose proof Hodd as Hodd0. apply Z.odd_spec in Hodd0 as [qD HqD].
  assert (HevS : Z.even (Z.of_nat (S m)) = false).
  { rewrite Nat2Z.inj_succ, Z.even_succ, <- Z.negb_even, Hev. reflexivity. }
  assert (HevP : Z.even (Z.of_nat (m - 1)) = false).
  { rewrite <- Z.negb_odd. apply negb_false_iff. apply Z.odd_spec.
    exists (q - 1)%Z. lia. }
  destruct (path_column_node (S m) ltac:(lia) HevS) as (c & Hc & Hc_lt).
  destruct (path_column_node (m - 1) ltac:(lia) HevP) as (c1 & Hc1 & Hc1_lt).
  destruct (path_node_distance (S m) ltac:(lia)) as [_ Hc_dist]. rewrite Hc in Hc_dist.
  destruct (path_node_distance (m - 1) ltac:(lia)) as [_ Hc1_dist].
  rewrite Hc1 in Hc1_dist.
  destruct (path_node_distance m ltac:(lia)) as [_ Hr_dist].
  pose proof (path_row_node m ltac:(lia) Hev) as Hr_lt.
  destruct path_row_is_row as (Hp_lt & Hp_dist & Hp_low).
  set (r := path_node res (size1 st.2 + j) D m) in *.
  set (p := path_node res (size1 st.2 + j) D (D - 1)) in *.
  assert (Hr_low : bh <= r) by (apply far_row_below_block; rewrite Hr_dist; lia).
  assert (Hc_right : bw <= c).
  { apply near_column_right_of_block; rewrite Hc_dist; lia. }
  assert (Hatt : attachment D (S m) = S m).
  { unfold attachment. rewrite HevS. lia. }
  assert (Hatt' : attachment D m = m - 1).
  { unfold attachment. rewrite Hev. lia. }
  rewrite Hatt in J2, J3. rewrite Hc in J2.
  replace (size1 st.2 + c - size1 st.2) with c in J2 by lia.
  rewrite Hc. replace (size1 st.2 + c - size1 st.2) with c by lia.
  assert (Hs1 : size1 s.2 = size1 st.2) by (unfold size1; rewrite E1; reflexivity).
  assert (Hs2 : size2 s.2 = size2 st.2) by (unfold size2; rewrite E2; reflexivity).
  assert (Hone : matrix_at s.2 r c = 1%Z).
  { rewrite J1; [|assumption|assumption|rewrite Hr_dist; lia].
    apply (path_edge_from_row m c); [lia | exact Hev | exact Hc]. }
  destruct (Hpivbin s r c) as [Bs' Hformula];
    [rewrite E1; exact Hperm1 | rewrite E2; exact Hperm2 | exact Bs
    | rewrite Hs1; exact Hr_lt | rewrite Hs2; exact Hc_lt | exact Hone |].
  destruct (Hpivot s r c) as (P1 & P2 & _ & _).
  assert (Hrj : matrix_at s.2 r j = 0%Z).
  { rewrite J1; [|assumption|lia|rewrite Hr_dist; lia].
    apply entry_zero_column_far; [assumption | lia | lia | rewrite Hr_dist; lia
                                 | rewrite Hr_dist; lia | rewrite Hr_dist, HD; lia]. }
  assert (Hrzc : matrix_at s.2 r zc = 0%Z).
  { rewrite J1; [|assumption|lia|rewrite Hr_dist; lia].
    apply entry_zero_column_far; [assumption | lia | lia | rewrite Hr_dist; lia
                                 | rewrite Hr_dist; lia |].
    rewrite Hr_dist. intros [Hd0 Hd1].
    pose proof (near_column_right_of_block zc Hd0) as Hright.
    destruct (decide (distance (node_at res (size1 st.2 + zc)) = Z.of_nat D)) as [Heq|Hne];
      [lia | specialize (Hright Hne); lia]. }
  unfold walk_invariant. fold p. rewrite Hatt', Hc1.
  replace (size1 st.2 + c1 - size1 st.2) with c1 by lia.
  split; [rewrite P1; exact E1|]. split; [rewrite P2; exact E2|].
  split; [exact Bs'|]. split; [|split; [|split; [|split]]].
  - intros i c' Hi Hc' Hd.
    rewrite Hrows.
    + apply J1; [assumption | assumption | lia].
    + intros ->. rewrite Hr_dist in Hd. lia.
    + rewrite J1; [|assumption|assumption|lia].
      apply entry_zero_column_far; [assumption | assumption | lia | lia | lia
                                   | rewrite Hc_dist; lia].
  - rewrite Hformula; [|lia|lia| |].
    + rewrite J2.
      rewrite (J3 c1); [|assumption|rewrite Hc1_dist; lia].
      rewrite (J1 r c1); [|assumption|assumption|rewrite Hr_dist; lia].
      replace r with (path_node res (size1 st.2 + j) D (S (m - 1)))
        by (unfold r; f_equal; lia).
      rewrite (path_edge_from_column (m - 1) c1); [reflexivity | lia | exact HevP
                                                  | exact Hc1].
    + intros Heq. rewrite Heq, Hr_dist in Hp_dist. lia.
    + intros Heq. rewrite Heq, Hc_dist in Hc1_dist. lia.
  - intros c' Hc' Hd.
    rewrite Hformula; [|lia|lia| |].
    + rewrite J2, (J3 c'); [|assumption|lia].
      rewrite (J1 r c'); [|assumption|assumption|rewrite Hr_dist; lia].
      rewrite entry_zero_row_far; [reflexivity | assumption | assumption | lia | lia
                                  | lia | rewrite Hr_dist; lia].
    + intros Heq. rewrite Heq, Hr_dist in Hp_dist. lia.
    + intros Heq. rewrite Heq, Hc_dist in Hd. lia.
  - rewrite Hformula; [|lia|lia| |lia].
    + rewrite J4, J2, Hrj. reflexivity.
    + intros Heq. rewrite Heq, Hr_dist in Hp_dist. lia.
  - rewrite Hformula; [|lia|lia| |lia].
    + rewrite J5, J2, Hrzc. reflexivity.
    + intros Heq. rewrite Heq, Hr_dist in Hp_dist. lia.
Qed.

(** The steps of the walk from the path's node at distance [m] on. *)
Lemma walk_keeps_invariant (m : nat) :
  m <= D ->
  forall acc : wheel_state * matroid_element_set,
    walk_invariant st res j D zc m acc.1 ->
    walk_invariant st res j D zc 0
      (fold_left pivot_and_record
         (map (fun step => indexes_to_coordinates (search_dimensions st) step.1 step.2)
            (filter (fun step =>
                       pivots_at (distance (node_at res step.1)) (Z.of_nat D + 1) = true)
               (walk_steps res m (path_node res (size1 st.2 + j) D m))))
         acc).1.
Proof.
  pose proof (tree_int st bw bh res Htree _ Hlt) as Hint. rewrite HD in Hint.
  induction m as [|m IH]; intros Hm acc Hinv; [exact Hinv|].
  simpl walk_steps. rewrite (path_node_predecessor m) by lia.
  rewrite filter_cons.
  destruct (path_node_distance m ltac:(lia)) as [_ Hdist].
  destruct (decide _) as [Hp|Hp]; cbn [fst snd] in Hp; rewrite Hdist in Hp.
  - apply pivots_at_spec in Hp as (Hev & H2 & HmD); [|lia].
    simpl map. simpl fold_left. apply IH; [lia|].
    unfold pivot_and_record. cbn [fst snd].
    pose proof (path_row_node m ltac:(lia) Hev) as Hrow.
    unfold indexes_to_coordinates, is_row, search_dimensions. simpl.
    rewrite bool_decide_eq_true_2 by exact Hrow. cbn [fst snd].
    unfold index_to_row, index_to_column. simpl.
    apply pivot_step; assumption.
  - apply IH; [lia|]. apply idle_step; [|exact Hinv].
    intros Hc. apply Hp. apply pivots_at_spec; [lia | exact Hc].
Qed.

(** The invariant holds before the first step. *)
Lemma walk_invariant_start :
  matrix_at st.2 (path_node res (size1 st.2 + j) D (D - 1)) zc = 0%Z ->
  walk_invariant st res j D zc D st.
Proof.
  intros Hzero.
  pose proof Hodd as Hodd0. apply Z.odd_spec in Hodd0 as [qD HqD].
  destruct path_row_is_row as (Hp_lt & Hp_dist & Hp_low).
  assert (HevD : Z.even (Z.of_nat D) = false).
  { rewrite <- Z.negb_odd, Hodd. reflexivity. }
  assert (Hev2 : Z.even (Z.of_nat (D - 2)) = false).
  { rewrite <- Z.negb_odd. apply negb_false_iff. apply Z.odd_spec.
    exists (qD - 1)%Z. lia. }
  assert (Hev1 : Z.even (Z.of_nat (D - 1)) = true).
  { apply Z.even_spec. exists qD. lia. }
  assert (Hatt : attachment D D = D - 2).
  { unfold attachment. rewrite HevD. lia. }
  destruct (path_column_node (D - 2) ltac:(lia) Hev2) as (c2 & Hc2 & Hc2_lt).
  unfold walk_invariant. rewrite Hatt, Hc2.
  replace (size1 st.2 + c2 - size1 st.2) with c2 by lia.
  split; [reflexivity|]. split; [reflexivity|]. split; [exact Hbin|].
  split; [reflexivity|]. split; [|split; [|split]].
  - replace (D - 1) with (S (D - 2)) by lia.
    apply (path_edge_from_column (D - 2) c2); [lia | exact Hev2 | exact Hc2].
  - intros c Hc Hd.
    apply entry_zero_row_far; [assumption | assumption | lia | lia | lia
                              | rewrite Hp_dist; lia].
  - apply (path_edge_from_row (D - 1) j); [lia | exact Hev1 |].
    replace (S (D - 1)) with D by lia. apply path_node_end.
  - exact Hzero.
Qed.

End WheelFound.

(** X12. When the block was grown and the search found a path, none of
    the assertions of lines 197-265 fails: [find_wheel_minor] returns the
    empty separation, with the W3 in the corner.  This is so for a binary
    matrix under two permutations, a block of ones that cannot be grown, a
    breadth-first search that stops at the first end node it reaches, and
    a pivot over the field of two elements. *)
Theorem found_path_always_yields_wheel `{WheelHelpers} (st0 st : wheel_state)
    (extra0 extra : matroid_element_set) (bw bh : nat)
    (res : list bipartite_graph_bfs_node) :
  grow_block st0 extra0 = Returned (Grown st extra bw bh) ->
  search_path st bw bh = (true, res) ->
  is_permutation (mx_perm1 st.2) ->
  is_permutation (mx_perm2 st.2) ->
  is_binary st.2 ->
  block_of_ones st bw bh ->
  block_maximal st bw bh ->
  search_tree st bw bh res ->
  search_found st bw res ->
  search_nearest st bw bh res ->
  search_layered st bw bh res ->
  pivot_keeps_permutations ->
  pivot_keeps_rows ->
  pivot_is_binary ->
  exists r : wheel_result,
    find_wheel_minor st0 extra0 = Returned r
    /\ wr_separation r = separation_none
    /\ matrix_at (wr_state r).2 0 0 = 1%Z
    /\ matrix_at (wr_state r).2 0 1 = 1%Z
    /\ matrix_at (wr_state r).2 0 2 = 0%Z
    /\ matrix_at (wr_state r).2 1 0 = 1%Z
    /\ matrix_at (wr_state r).2 1 1 = 1%Z
    /\ matrix_at (wr_state r).2 1 2 = 1%Z
    /\ matrix_at (wr_state r).2 2 0 = 0%Z
    /\ matrix_at (wr_state r).2 2 1 = 1%Z
    /\ matrix_at (wr_state r).2 2 2 = 1%Z.
Proof.
  intros Hgrow Hbfs Hperm1 Hperm2 Hbin Hones Hmax Htree Hfound Hnear Hlayer
    Hpivot Hrows Hpivbin.
  destruct (grow_block_at_least_2 _ _ _ _ _ _ Hgrow) as [Hbw2 Hbh2].
  pose proof Hones as (Hbh & Hbw & Hblock).
  destruct (trace_path_total st extra bw bh res Htree Hfound Hbh Hnear Hrows Hmax
              ltac:(lia) ltac:(lia)) as (w & ix & Htrace & _ & _).
  destruct (trace_path_returns st extra bw bh res Htree Hfound Hbh ltac:(lia) ltac:(lia)
              w ix Htrace)
    as (j & D & He & HD & HD3 & Hfold & Hoc & Hj & Hprow & Hp & Ho & Hob & Hpc & Hpcb
        & Hzc & Hzc0 & Hz & Hz0).
  assert (Hr : is_reachable (node_at res (size1 st.2 + j)) = true).
  { unfold is_reachable. apply Z.leb_le. rewrite HD. lia. }
  pose proof (reachable_in_range res _ Hr) as Hlt.
  destruct (path_shape st bw bh res Htree Hbh j Hj Hlt Hr) as (D' & HD' & _ & Hodd & _).
  assert (D' = D) as -> by (rewrite HD in HD'; lia).
  (* the path row and the path column, as nodes of the path *)
  assert (Hpnode : path_node res (size1 st.2 + j) D (D - 1) = path_row ix).
  { unfold path_node. replace (D - (D - 1)) with 1 by lia. rewrite Hprow. reflexivity. }
  assert (Hcnode : path_node res (size1 st.2 + j) D 1 = size1 st.2 + path_column ix).
  { unfold path_node. rewrite Hpc. reflexivity. }
  assert (Honode : path_node res (size1 st.2 + j) D 0 = one_row ix).
  { unfold path_node. rewrite Nat.sub_0_r, Ho. reflexivity. }
  (* the walk keeps the invariant *)
  assert (Hinv : walk_invariant st res j D (zero_column ix) 0 (ws_state w)).
  { replace (ws_state w) with (ws_state w, ws_extra w).1 by reflexivity.
    rewrite Hfold. unfold pivot_places. rewrite HD, Nat2Z.id.
    replace (walk_steps res D (size1 st.2 + j))
      with (walk_steps res D (path_node res (size1 st.2 + j) D D))
      by (rewrite path_node_end; reflexivity).
    eapply (walk_keeps_invariant st bw bh res j D); try eassumption; [lia|].
    eapply (walk_invariant_start st bw bh res j D); try eassumption.
    rewrite Hpnode. exact Hzc0. }
  destruct Hinv as (_ & _ & _ & _ & J2 & _ & J4 & J5).
  cbv zeta in J2, J4, J5. rewrite Hpnode in J2, J4, J5.
  assert (Hatt : attachment D 0 = 1) by (unfold attachment; simpl; lia).
  rewrite Hatt, Hcnode in J2.
  replace (size1 st.2 + path_column ix - size1 st.2) with (path_column ix) in J2 by lia.
  (* the rows of the block are those of the matrix before the walk *)
  assert (Hkept : forall i c, i < bh ->
             matrix_at (ws_state w).2 i c = matrix_at st.2 i c).
  { intros i c Hi.
    replace (ws_state w) with (ws_state w, ws_extra w).1 by reflexivity.
    rewrite Hfold.
    apply (block_rows_kept st bh Hbh Hrows (pivot_places st res (size1 st.2 + j))
             (st, extra)); [|exact Hi].
    intros place Hin.
    apply (pivot_places_outside st bw bh res Htree Hbh Hnear j place Hj Hlt Hr Hin). }
  assert (Hopc : matrix_at st.2 (one_row ix) (path_column ix) = 1%Z).
  { rewrite <- Honode.
    eapply (path_edge_from_row st bw bh res j D); try eassumption; [lia | reflexivity]. }
  assert (Hrun : extract_w3 st extra bw bh res
                 = Returned (WheelResult separation_none
                               (place_columns (place_rows (ws_state w) ix) ix)
                               (ws_extra w))).
  { unfold extract_w3. rewrite Htrace. cbn [wheel_bind].
    apply check_w3_passes.
    - rewrite Hkept by exact Hob. apply Hblock; [exact Hob | rewrite Hoc; exact Hj].
    - rewrite Hkept by exact Hob. apply Hblock; [exact Hob | exact Hzc].
    - rewrite Hkept by exact Hob. exact Hopc.
    - rewrite Hkept by exact Hz. apply Hblock; [exact Hz | rewrite Hoc; exact Hj].
    - rewrite Hkept by exact Hz. apply Hblock; [exact Hz | exact Hzc].
    - exact Hz0.
    - rewrite Hoc. exact J4.
    - exact J5.
    - exact J2. }
  rewrite <- (find_wheel_minor_path _ _ _ _ _ _ _ Hgrow Hbfs) in Hrun.
  eexists. split; [exact Hrun|].
  apply (w3_in_corner_after_path st0 st extra0 extra bw bh res _ Hgrow Hbfs Htree Hfound
           Hbh Hpivot Hrun).
Qed.

(** The reference pivot is a pivot over the field of two elements. *)
Lemma demo_pivot_is_binary : pivot_is_binary (H := demo_helpers).
Proof.
  intros st r c Hp1 Hp2 Hb Hr Hc Hone.
  cbn [matroid_binary_pivot demo_helpers].
  assert (Hentry : forall i j, i < size1 st.2 -> j < size2 st.2 ->
            exists row v,
              data st.2 !! perm_at (mx_perm1 st.2) i = Some row
              /\ row !! perm_at (mx_perm2 st.2) j = Some v
              /\ (v = 0%Z \/ v = 1%Z)
              /\ matrix_at st.2 i j = v
              /\ matrix_at (demo_binary_pivot st r c).2 i j
                 = if negb (bool_decide (perm_at (mx_perm1 st.2) i
                                         = perm_at (mx_perm1 st.2) r))
                      && negb (bool_decide (perm_at (mx_perm2 st.2) j
                                            = perm_at (mx_perm2 st.2) c))
                      && negb (matrix_at st.2 i c =? 0)%Z
                      && negb (matrix_at st.2 r j =? 0)%Z
                   then (1 - v)%Z else v).
  { intros i j Hi Hj. destruct (Hb i j Hi Hj) as (row & v & Hrow & Hv & Hbit).
    exists row, v. repeat split; try assumption.
    - unfold matrix_at. rewrite Hrow, Hv. reflexivity.
    - unfold matrix_at at 1. unfold demo_binary_pivot.
      cbn [fst snd data mx_perm1 mx_perm2].
      rewrite list_lookup_imap, Hrow. cbn [fmap option_fmap option_map].
      rewrite list_lookup_imap, Hv. cbn [fmap option_fmap option_map default].
      reflexivity. }
  split.
  - intros i j Hi Hj.
    change (size1 (demo_binary_pivot st r c).2) with (size1 st.2) in Hi.
    change (size2 (demo_binary_pivot st r c).2) with (size2 st.2) in Hj.
    destruct (Hentry i j Hi Hj) as (row & v & Hrow & Hv & Hbit & _ & _).
    unfold demo_binary_pivot. cbn [fst snd data mx_perm1 mx_perm2].
    eexists _, _. rewrite list_lookup_imap, Hrow. cbn [fmap option_fmap option_map].
    split; [reflexivity|]. rewrite list_lookup_imap, Hv.
    cbn [fmap option_fmap option_map]. split; [reflexivity|].
    case_match; lia.
  - intros i j Hi Hj Hir Hjc.
    destruct (Hentry i j Hi Hj) as (_ & v & _ & _ & Hbit & Hv & ->).
    rewrite Hv.
    rewrite (bool_decide_eq_false_2 (perm_at (mx_perm1 st.2) i = perm_at (mx_perm1 st.2) r)).
    2:{ intros Heq. apply Hir.
        apply (perm_at_inj (mx_perm1 st.2)); [apply is_permutation_NoDup| | |]; assumption. }
    rewrite (bool_decide_eq_false_2 (perm_at (mx_perm2 st.2) j = perm_at (mx_perm2 st.2) c)).
    2:{ intros Heq. apply Hjc.
        apply (perm_at_inj (mx_perm2 st.2)); [apply is_permutation_NoDup| | |]; assumption. }
    cbn [negb andb].
    destruct (binary_entry _ i c Hb Hi Hc) as [-> | ->];
      destruct (binary_entry _ r j Hb Hr Hj) as [-> | ->];
      destruct Hbit as [-> | ->]; reflexivity.
Qed.

Lemma demo_wheel_ones : block_of_ones demo_wheel_block 2 2.
Proof.
  split; [|split].
  - change (2 <= 4). lia.
  - change (2 <= 4). lia.
  - intros i j Hi Hj.
    destruct i as [|[|i]]; [| |lia]; (destruct j as [|[|j]]; [| |lia]); reflexivity.
Qed.

Lemma demo_wheel_layered : search_layered demo_wheel_block 2 2 demo_wheel_search.
Proof.
  unfold search_layered. cbv zeta. intros e i j He Hr Hi Hj Hentry.
  change (i < 4) in Hi. change (j < 4) in Hj.
  apply list_elem_of_In in He. simpl in He.
  destruct He as [<-|[<-|[]]]; [discriminate Hr|].
  destruct i as [|[|[|[|i]]]]; [| | | |lia];
    (destruct j as [|[|[|[|j]]]]; [| | | |lia]);
    first [exfalso; apply Hentry; reflexivity
          | vm_compute; intuition (try discriminate; try congruence)].
Qed.

Lemma found_path_always_yields_wheel_witness :
  exists r : wheel_result,
    find_wheel_minor (H := demo_helpers) demo_wheel ∅ = Returned r
    /\ wr_separation r = separation_none
    /\ matrix_at (wr_state r).2 0 0 = 1%Z
    /\ matrix_at (wr_state r).2 0 1 = 1%Z
    /\ matrix_at (wr_state r).2 0 2 = 0%Z
    /\ matrix_at (wr_state r).2 1 0 = 1%Z
    /\ matrix_at (wr_state r).2 1 1 = 1%Z
    /\ matrix_at (wr_state r).2 1 2 = 1%Z
    /\ matrix_at (wr_state r).2 2 0 = 0%Z
    /\ matrix_at (wr_state r).2 2 1 = 1%Z
    /\ matrix_at (wr_state r).2 2 2 = 1%Z.
Proof.
  apply (found_path_always_yields_wheel (H := demo_helpers) demo_wheel demo_wheel_block
           ∅ ∅ 2 2 demo_wheel_search demo_wheel_grows demo_wheel_path).
  - unfold is_permutation. simpl. do 2 apply perm_skip. apply perm_swap.
  - unfold is_permutation. simpl. reflexivity.
  - exact demo_wheel_binary.
  - exact demo_wheel_ones.
  - exact demo_wheel_maximal.
  - exact demo_wheel_tree.
  - exact demo_wheel_found.
  - exact demo_wheel_nearest.
  - exact demo_wheel_layered.
  - exact demo_pivot_keeps_permutations.
  - exact demo_pivot_keeps_rows.
  - exact demo_pivot_is_binary.
Defined.
